(** * mcpo-docker: a shallow embedding of the gateway's Python sources

    The development follows the four source modules:
    - [config_handler.py]   ([Module ConfigHandler]),
    - [process_monitor.py]  ([Module ProcessMonitor]),
    - [health_check.py]     ([Module HealthCheckServer]),
    - [mcp_proxy.py]        ([Module MCPServerManager], [Module MCPProxyHandler]).

    Python values that come out of [json.load] are modelled by the tree type
    [json]; dictionaries keep their insertion order, so an object is an
    association list.  Strings are byte strings (the UTF-8 encoding of the
    Python string): every character the code inspects is ASCII, and UTF-8
    never reuses an ASCII byte inside a multi-byte character, so scanning
    bytes and scanning code points find the same tokens. *)

From Stdlib Require Import Ascii.
From stdpp Require Import gmap strings list fin_maps pretty.

Local Open Scope string_scope.

(** ** JSON values *)

Unset Elimination Schemes.
Inductive json : Type :=
| JNull
| JBool (b : bool)
| JNum (n : Z)
| JStr (s : string)
| JArr (items : list json)
| JObj (members : list (string * json)).
Set Elimination Schemes.

Section json_induction.
Variable P : json → Prop.
Hypothesis Hnull : P JNull.
Hypothesis Hbool : ∀ b, P (JBool b).
Hypothesis Hnum : ∀ n, P (JNum n).
Hypothesis Hstr : ∀ s, P (JStr s).
Hypothesis Harr : ∀ items, Forall P items → P (JArr items).
Hypothesis Hobj : ∀ members, Forall (λ kv, P kv.2) members → P (JObj members).

Fixpoint json_ind (j : json) : P j :=
  match j with
  | JNull => Hnull
  | JBool b => Hbool b
  | JNum n => Hnum n
  | JStr s => Hstr s
  | JArr items =>
      Harr items
        ((fix all (l : list json) : Forall P l :=
            match l with
            | [] => @List.Forall_nil _ P
            | x :: l' => @List.Forall_cons _ P x l' (json_ind x) (all l')
            end) items)
  | JObj members =>
      Hobj members
        ((fix all (l : list (string * json)) : Forall (λ kv, P kv.2) l :=
            match l with
            | [] => @List.Forall_nil _ _
            | kv :: l' =>
                @List.Forall_cons _ (λ kv, P kv.2) kv l' (json_ind kv.2) (all l')
            end) members)
  end.
End json_induction.

(** [d.get(key)] on a dictionary: the value of the (unique) entry for [key]. *)
Fixpoint assoc_get {A} (key : string) (d : list (string * A)) : option A :=
  match d with
  | [] => None
  | (k, v) :: d' => if decide (k = key) then Some v else assoc_get key d'
  end.

(** [d.get(key)] where [d] itself came out of a [.get]: a non-dictionary has
    no entries the code can reach. *)
Definition json_get (key : string) (j : json) : option json :=
  match j with
  | JObj members => assoc_get key members
  | _ => None
  end.

(** Python truthiness of a JSON value ([if x:], [not x]). *)
Definition truthy (j : json) : bool :=
  match j with
  | JNull => false
  | JBool b => b
  | JNum n => negb (n =? 0)%Z
  | JStr s => negb (String.eqb s "")
  | JArr items => match items with [] => false | _ => true end
  | JObj members => match members with [] => false | _ => true end
  end.

(** ** Python string primitives used by the sources *)

(** [s.startswith(p)] *)
Definition startswith (p s : string) : bool := String.prefix p s.

(** [s.replace(old, new)] for a non-empty [old]: occurrences are found left to
    right and do not overlap.  [skip] counts the characters of the occurrence
    just replaced that are still to be dropped. *)
Fixpoint replace_from (old new : string) (skip : nat) (s : string) : string :=
  match s with
  | EmptyString => EmptyString
  | String c rest =>
      match skip with
      | S k => replace_from old new k rest
      | O =>
          if startswith old s
          then new +:+ replace_from old new (String.length old - 1) rest
          else String c (replace_from old new 0 rest)
      end
  end.

Definition replace (old new s : string) : string := replace_from old new 0 s.

(** The line terminator. *)
Definition newline : string := String "010"%char EmptyString.

(** [s.endswith(p)]: some tail of [s] is [p]. *)
Fixpoint endswith (p s : string) : bool :=
  String.eqb p s ||
  match s with
  | String _ rest => endswith p rest
  | EmptyString => false
  end.

(** The text [f"${{{var_name}}}"]: a reference to [var_name]. *)
Definition token (var_name : string) : string := "${" +:+ var_name +:+ "}".

(** [value[2:-1]] *)
Definition slice_2_m1 (s : string) : string :=
  String.substring 2 (String.length s - 3) s.

(** [s.strip()], for the ASCII white space of [str.isspace]. *)
Definition is_space (c : ascii) : bool :=
  let n := N_of_ascii c in
  ((9 <=? n) && (n <=? 13) || (28 <=? n) && (n <=? 32))%N.

Fixpoint lstrip (s : string) : string :=
  match s with
  | String c rest => if is_space c then lstrip rest else s
  | EmptyString => EmptyString
  end.

Definition strip (s : string) : string :=
  String.rev (lstrip (String.rev (lstrip s))).

(** ** Exceptions and results *)

Inductive exn : Type :=
| KeyError (key : string)
| AttributeError
| TypeError
| ValueError (msg : string)
| OSError
| BrokenPipeError
| JSONDecodeError
| NoResponse                      (* Exception("No response from MCP server") *)
| MCPServerError (err : json).    (* Exception(f"MCP server error: {...}") *)

Inductive result (A : Type) : Type :=
| Ok (a : A)
| Raised (e : exn).
Arguments Ok {A} a.
Arguments Raised {A} e.

(** Sequencing: an exception leaves the rest of the block unexecuted. *)
Global Instance result_bind : MBind result := λ A B k r,
  match r with
  | Ok a => k a
  | Raised e => Raised e
  end.
Global Instance result_ret : MRet result := λ A a, Ok a.

(** [d[key]] *)
Definition assoc_item {A} (key : string) (d : list (string * A)) : result A :=
  match assoc_get key d with
  | Some v => Ok v
  | None => Raised (KeyError key)
  end.

(** [del d[key]] on an insertion-ordered dictionary. *)
Fixpoint assoc_del {A} (key : string) (d : list (string * A)) : list (string * A) :=
  match d with
  | [] => []
  | (k, v) :: d' => if decide (k = key) then d' else (k, v) :: assoc_del key d'
  end.

(** [d[key] = v]: an existing entry keeps its position, a new one goes last. *)
Fixpoint assoc_set {A} (key : string) (v : A) (d : list (string * A))
  : list (string * A) :=
  match d with
  | [] => [(key, v)]
  | (k, x) :: d' =>
      if decide (k = key) then (k, v) :: d' else (k, x) :: assoc_set key v d'
  end.

(** [x.get(key, default)], which only dictionaries have. *)
Definition dict_get (key : string) (default : json) (x : json) : result json :=
  match x with
  | JObj members => Ok (from_option id default (assoc_get key members))
  | _ => Raised AttributeError
  end.

(** ** Python built-ins over JSON values *)

(** [key in x] *)
Definition py_in (key : string) (x : json) : result bool :=
  match x with
  | JObj members => Ok (bool_decide (is_Some (assoc_get key members)))
  | JArr items => Ok (existsb (λ i, match i with JStr s => String.eqb s key | _ => false end) items)
  | JStr s => Ok (match String.index 0 key s with Some _ => true | None => false end)
  | _ => Raised TypeError
  end.

Section py_str.
(** [repr] of a list or a dictionary is left to the interpreter. *)
Variable py_repr : json → string.

(** [str(x)], as an f-string formats [x]. *)
Definition py_str (x : json) : string :=
  match x with
  | JNull => "None"
  | JBool true => "True"
  | JBool false => "False"
  | JNum n => pretty n
  | JStr s => s
  | _ => py_repr x
  end.
End py_str.

Module ConfigHandler.

(** *** The pattern [\${([A-Za-z0-9_]+)}] *)

Definition is_name_char (c : ascii) : bool :=
  let n := N_of_ascii c in
  ((65 <=? n) && (n <=? 90) || (97 <=? n) && (n <=? 122)
   || (48 <=? n) && (n <=? 57) || (n =? 95))%N.

(** The longest run of name characters at the head of [s], and what follows. *)
Fixpoint span_name (s : string) : string * string :=
  match s with
  | EmptyString => (EmptyString, EmptyString)
  | String c rest =>
      if is_name_char c
      then let '(name, tl) := span_name rest in (String c name, tl)
      else (EmptyString, s)
  end.

(** A match of the pattern anchored at the head of [s]: the captured name.
    The character class is greedy, and a shorter run is followed by a name
    character rather than by the closing brace, so only the longest run can
    match. *)
Definition match_token (s : string) : option string :=
  match s with
  | String "$"%char (String "{"%char rest) =>
      match span_name rest with
      | (String c name, String "}"%char _) => Some (String c name)
      | _ => None
      end
  | _ => None
  end.

(** [env_var_pattern.findall(value)]: the captured names of the successive
    non-overlapping matches, leftmost first. *)
Fixpoint findall_from (skip : nat) (s : string) : list string :=
  match s with
  | EmptyString => []
  | String c rest =>
      match skip with
      | S k => findall_from k rest
      | O =>
          match match_token s with
          | Some name => name :: findall_from (String.length name + 2) rest
          | None => findall_from 0 rest
          end
      end
  end.

Definition findall (s : string) : list string := findall_from 0 s.

Inductive ConfigError : Type :=
| NoConfigurationLoaded
| MissingEnvVars (missing_vars : gset string).

Section substitution.
(** [os.environ] *)
Variable environ : gmap string string.

(** The string branch of [process_value]: the loop over [matches], with
    [missing_vars.add] threaded through. *)
Definition process_str (value : string) (missing_vars : gset string)
  : string * gset string :=
  fold_left
    (λ '(result, missing) var_name,
       match environ !! var_name with
       | None => (result, {[var_name]} ∪ missing)
       | Some env_value => (replace (token var_name) env_value result, missing)
       end)
    (findall value) (value, missing_vars).

(** [process_value], closed over the set [missing_vars] it adds to. *)
Fixpoint process_value (value : json) (missing_vars : gset string)
  : json * gset string :=
  match value with
  | JStr s =>
      let '(result, missing) := process_str s missing_vars in
      (JStr result, missing)
  | JObj members =>
      let '(members', missing) :=
        (fix each (l : list (string * json)) (m : gset string) :=
           match l with
           | [] => ([], m)
           | (k, v) :: l' =>
               let '(v', m1) := process_value v m in
               let '(l'', m2) := each l' m1 in
               ((k, v') :: l'', m2)
           end) members missing_vars in
      (JObj members', missing)
  | JArr items =>
      let '(items', missing) :=
        (fix each (l : list json) (m : gset string) :=
           match l with
           | [] => ([], m)
           | item :: l' =>
               let '(item', m1) := process_value item m in
               let '(l'', m2) := each l' m1 in
               (item' :: l'', m2)
           end) items missing_vars in
      (JArr items', missing)
  | _ => (value, missing_vars)
  end.

(** [substitute_env_vars(self, config=None)].  [self_config] is
    [self.config].  On trees [json.loads(json.dumps(config))] rebuilds the
    same tree; the copy matters for object identity, which
    [Module ConfigHeap] makes explicit. *)
Definition substitute_env_vars (self_config config : option json)
  : json + ConfigError :=
  let config := match config with None => self_config | Some c => Some c end in
  match config with
  | None => inr NoConfigurationLoaded
  | Some config =>
      let processed_config := config in
      let '(processed_config, missing_vars) := process_value processed_config ∅ in
      if decide (missing_vars = ∅)
      then inl processed_config
      else inr (MissingEnvVars missing_vars)
  end.
End substitution.

(** *** What substitution is said to do *)

(** [f] applied to every string value, at any depth; keys are left alone. *)
Fixpoint map_strings (f : string → string) (j : json) : json :=
  match j with
  | JStr s => JStr (f s)
  | JArr items => JArr (map (map_strings f) items)
  | JObj members => JObj (map (λ kv, (kv.1, map_strings f kv.2)) members)
  | _ => j
  end.

(** The names the tokens of the string values refer to. *)
Fixpoint names_in (j : json) : gset string :=
  match j with
  | JStr s => list_to_set (findall s)
  | JArr items => ⋃ (map names_in items)
  | JObj members => ⋃ (map (λ kv, names_in kv.2) members)
  | _ => ∅
  end.

(** [P] holds of every string value. *)
Fixpoint all_strings (P : string → Prop) (j : json) : Prop :=
  match j with
  | JStr s => P s
  | JArr items => foldr (λ item rest, all_strings P item ∧ rest) True items
  | JObj members => foldr (λ kv rest, all_strings P kv.2 ∧ rest) True members
  | _ => True
  end.

(** A string seen as plain text and references to variables. *)
Inductive segment : Type :=
| Text (s : string)
| Ref (name : string).

Definition render_segment (g : segment) : string :=
  match g with
  | Text s => s
  | Ref name => token name
  end.

Definition render (segments : list segment) : string :=
  foldr (λ g rest, render_segment g +:+ rest) EmptyString segments.

Definition refs (segments : list segment) : list string :=
  omap (λ g, match g with Ref name => Some name | Text _ => None end) segments.

Fixpoint dollar_free (s : string) : bool :=
  match s with
  | EmptyString => true
  | String c rest => negb (Ascii.eqb c "$") && dollar_free rest
  end.

Fixpoint name_chars (s : string) : bool :=
  match s with
  | EmptyString => true
  | String c rest => is_name_char c && name_chars rest
  end.

(** A name the pattern can capture. *)
Definition valid_name (name : string) : bool :=
  negb (String.eqb name EmptyString) && name_chars name.

(** Text without a dollar sign, and references to capturable names. *)
Definition plain_segment (g : segment) : bool :=
  match g with
  | Text s => dollar_free s
  | Ref name => valid_name name
  end.

Section said.
Variable environ : gmap string string.

(** The names referred to that the environment does not set. *)
Definition unresolved (j : json) : gset string :=
  filter (λ name, environ !! name = None) (names_in j).

(** Every token replaced by the value of its variable, in one pass from
    left to right; a token of an unset variable stays. *)
Fixpoint expand_from (skip : nat) (s : string) : string :=
  match s with
  | EmptyString => EmptyString
  | String c rest =>
      match skip with
      | S k => expand_from k rest
      | O =>
          match match_token s with
          | Some name =>
              match environ !! name with
              | Some env_value =>
                  env_value +:+ expand_from (String.length name + 2) rest
              | None => String c (expand_from 0 rest)
              end
          | None => String c (expand_from 0 rest)
          end
      end
  end.

Definition expand (s : string) : string := expand_from 0 s.

(** The loop over [matches] without its bookkeeping: for each name found
    in [value], in order, every occurrence of its token in the result so
    far is replaced. *)
Definition replace_each (value : string) : string :=
  fold_left
    (λ result var_name,
       match environ !! var_name with
       | None => result
       | Some env_value => replace (token var_name) env_value result
       end)
    (findall value) value.

(** A string made of text without dollar signs and of references to
    variables that are set to values without dollar signs. *)
Definition tidy (s : string) : Prop :=
  ∃ segments,
    s = render segments ∧
    forallb plain_segment segments = true ∧
    ∀ name, name ∈ refs segments →
            ∃ env_value,
              environ !! name = Some env_value ∧ dollar_free env_value = true.

(** The string a list of segments stands for once the references are
    resolved. *)
Definition resolved (segments : list segment) : string :=
  foldr (λ g rest,
           match g with
           | Text s => s
           | Ref name => from_option id (token name) (environ !! name)
           end +:+ rest) EmptyString segments.

(** Names of variables set to values that hold no dollar sign. *)
Definition settled (names : list string) : Prop :=
  ∀ name, name ∈ names →
          ∃ env_value,
            environ !! name = Some env_value ∧ dollar_free env_value = true.

(** The segments once the loop has dealt with the names in [done]: a
    reference to one of them that is set has become its value. *)
Definition settle (done : list string) (segments : list segment)
  : list segment :=
  map (λ g,
         match g with
         | Ref name =>
             if decide (name ∈ done)
             then from_option Text g (environ !! name)
             else g
         | Text _ => g
         end) segments.
End said.

(** *** An environment in which a value is itself a token *)

(** [A] is set to a token of [B]. *)
Definition nested_environ : gmap string string :=
  <["A" := "${B}"]> (<["B" := "x"]> ∅).

(** *** Dollar signs that are not tokens *)

Definition dollar_environ : gmap string string :=
  <["HOME" := "/root"]> (<["PW" := "pa$$w0rd"]> ∅).

(** A dollar sign outside a token, a token of a variable whose value holds
    dollar signs, and a dollar sign at the end. *)
Definition dollar_config : json :=
  JObj [("command", JStr "echo $PATH ${HOME}");
        ("password", JStr "${PW}");
        ("pattern", JStr "^x$")].

(** *** Merging configurations *)

(** The loop of [_deep_merge] over [override.items()], on the copy
    [result] of [base]; [override] is a dictionary, as in every recursive
    call. *)
Fixpoint merge_into (result : list (string * json)) (override : json)
  : list (string * json) :=
  match override with
  | JObj entries =>
      (fix each (entries : list (string * json)) (result : list (string * json))
         : list (string * json) :=
         match entries with
         | [] => result
         | (key, value) :: rest =>
             each rest
               (match assoc_get key result, value with
                | Some (JObj b), JObj _ =>
                    assoc_set key (JObj (merge_into b value)) result
                | _, _ => assoc_set key value result
                end)
         end) entries result
  | _ => result
  end.

(** One iteration of that loop. *)
Definition merge_step (result : list (string * json)) (entry : string * json)
  : list (string * json) :=
  match assoc_get entry.1 result, entry.2 with
  | Some (JObj b), JObj _ =>
      assoc_set entry.1 (JObj (merge_into b entry.2)) result
  | _, _ => assoc_set entry.1 entry.2 result
  end.

(** [_deep_merge(base, override)].  A value without [copy] or [items]
    raises [AttributeError]; a list has [copy], and takes no key. *)
Definition _deep_merge (base override : json) : result json :=
  match base with
  | JObj members =>
      match override with
      | JObj _ => Ok (JObj (merge_into members override))
      | _ => Raised AttributeError
      end
  | JArr _ =>
      match override with
      | JObj [] => Ok base
      | JObj _ => Raised TypeError
      | _ => Raised AttributeError
      end
  | _ => Raised AttributeError
  end.

(** What [_deep_merge] leaves under one key, given what [base] and
    [override] hold there. *)
Definition merged_value (b o : option json) : option json :=
  match o with
  | None => b
  | Some value =>
      Some (match b, value with
            | Some (JObj members), JObj _ => JObj (merge_into members value)
            | _, _ => value
            end)
  end.

(** Every dictionary of a value has distinct keys, as every dictionary
    [json.load] builds has. *)
Fixpoint distinct_keys (j : json) : Prop :=
  match j with
  | JObj members =>
      NoDup members.*1 ∧
      foldr (λ kv rest, distinct_keys kv.2 ∧ rest) True members
  | JArr items => foldr (λ item rest, distinct_keys item ∧ rest) True items
  | _ => True
  end.

(** *** A configuration and an environment that resolves it *)

Definition example_environ : gmap string string :=
  <["HOME" := "/root"]> (<["PORT" := "8080"]> ∅).

Definition example_config : json :=
  JObj [("mcpServers",
         JObj [("files",
                JObj [("command", JStr "serve");
                      ("args", JArr [JStr "--root=${HOME}/data"; JStr "${PORT}"]);
                      ("disabled", JBool false)])])].

End ConfigHandler.


(** ** [json.dumps] with its default settings

    Separators are [", "] and [": "]; [ensure_ascii] escapes every character
    outside [' '..'~'] and the two characters [\] and the double quote. *)

Module JsonText.

Definition hex_digit (n : N) : ascii :=
  ascii_of_N (if (n <? 10)%N then 48 + n else 87 + n)%N.

(** [format(n, '04x')] for [n < 0x10000]. *)
Definition hex4 (n : N) : string :=
  String (hex_digit (N.land (N.shiftr n 12) 15))
    (String (hex_digit (N.land (N.shiftr n 8) 15))
       (String (hex_digit (N.land (N.shiftr n 4) 15))
          (String (hex_digit (N.land n 15)) EmptyString))).

Definition backslash : ascii := "092"%char.
Definition dquote : ascii := "034"%char.

Definition u_escape (n : N) : string :=
  String backslash (String "u"%char (hex4 n)).

(** The escape of one code point. *)
Definition escape_code_point (n : N) : string :=
  if (n =? 92)%N then String backslash (String backslash EmptyString)
  else if (n =? 34)%N then String backslash (String dquote EmptyString)
  else if (n =? 8)%N then String backslash "b"
  else if (n =? 12)%N then String backslash "f"
  else if (n =? 10)%N then String backslash "n"
  else if (n =? 13)%N then String backslash "r"
  else if (n =? 9)%N then String backslash "t"
  else if ((32 <=? n) && (n <=? 126))%N then String (ascii_of_N n) EmptyString
  else if (n <? 65536)%N then u_escape n
  else
    let m := (n - 65536)%N in
    u_escape (N.lor 55296 (N.land (N.shiftr m 10) 1023))
    +:+ u_escape (N.lor 56320 (N.land m 1023)).

Definition cont (c : ascii) : N := N.land (N_of_ascii c) 63.

(** The escapes of the code points of a UTF-8 string. *)
Fixpoint escape_utf8 (s : string) : string :=
  match s with
  | EmptyString => EmptyString
  | String b rest =>
      let n := N_of_ascii b in
      if (n <? 192)%N then escape_code_point n +:+ escape_utf8 rest
      else if (n <? 224)%N then
        match rest with
        | String b1 rest1 =>
            escape_code_point (N.lor (N.shiftl (N.land n 31) 6) (cont b1))
            +:+ escape_utf8 rest1
        | _ => escape_code_point n +:+ escape_utf8 rest
        end
      else if (n <? 240)%N then
        match rest with
        | String b1 (String b2 rest2) =>
            escape_code_point
              (N.lor (N.shiftl (N.land n 15) 12)
                 (N.lor (N.shiftl (cont b1) 6) (cont b2)))
            +:+ escape_utf8 rest2
        | _ => escape_code_point n +:+ escape_utf8 rest
        end
      else
        match rest with
        | String b1 (String b2 (String b3 rest3)) =>
            escape_code_point
              (N.lor (N.shiftl (N.land n 7) 18)
                 (N.lor (N.shiftl (cont b1) 12)
                    (N.lor (N.shiftl (cont b2) 6) (cont b3))))
            +:+ escape_utf8 rest3
        | _ => escape_code_point n +:+ escape_utf8 rest
        end
  end.

Definition encode_string (s : string) : string :=
  String dquote (escape_utf8 s) +:+ String dquote EmptyString.

(** [", ".join(parts)] *)
Fixpoint join (sep : string) (parts : list string) : string :=
  match parts with
  | [] => EmptyString
  | [p] => p
  | p :: rest => p +:+ sep +:+ join sep rest
  end.

Fixpoint json_dumps (j : json) : string :=
  match j with
  | JNull => "null"
  | JBool true => "true"
  | JBool false => "false"
  | JNum n => pretty n
  | JStr s => encode_string s
  | JArr items => "[" +:+ join ", " (map json_dumps items) +:+ "]"
  | JObj members =>
      "{" +:+ join ", " (map (λ kv, encode_string kv.1 +:+ ": " +:+ json_dumps kv.2) members)
      +:+ "}"
  end.

End JsonText.
Module ProcessMonitor.

(** What the monitor does to the outside world, in program order. *)
Inductive event : Type :=
| EvWarning (msg : string)
| EvError (msg : string)
| EvPopen (server_name : string) (cmd : list string) (env : gmap string json)
| EvSleep (seconds : Z).

(** An entry of [self.processes]; the [Popen] object is known by its pid. *)
Record process_info : Type := {
  pid : nat;
  command : list string;
  env : gmap string json;
  start_time : Z }.

Record monitor : Type := {
  config : option json;
  processes : list (string * process_info);
  restart_counts : gmap string Z;
  check_interval : Z;
  max_restarts : Z;
  restart_delay : Z;
  trace : list event }.

(** The outside world as one pass of the loop sees it. *)
Record world : Type := {
  environ : gmap string string;           (* os.environ *)
  poll : nat → option Z;                  (* process.poll() *)
  popen : list string → gmap string json → result nat;
  time : Z }.

Definition set_processes (m : monitor) (ps : list (string * process_info)) : monitor :=
  {| config := config m; processes := ps; restart_counts := restart_counts m;
     check_interval := check_interval m;
     max_restarts := max_restarts m; restart_delay := restart_delay m;
     trace := trace m |}.

Definition set_restart_counts (m : monitor) (rc : gmap string Z) : monitor :=
  {| config := config m; processes := processes m; restart_counts := rc;
     check_interval := check_interval m;
     max_restarts := max_restarts m; restart_delay := restart_delay m;
     trace := trace m |}.

Definition emit (m : monitor) (evs : list event) : monitor :=
  {| config := config m; processes := processes m;
     restart_counts := restart_counts m;
     check_interval := check_interval m;
     max_restarts := max_restarts m; restart_delay := restart_delay m;
     trace := (trace m ++ evs)%list |}.

(** The body of the loop over [env_vars.items()] in [_start_process]. *)
Definition env_step (environ : gmap string string)
    (acc : gmap string json * list event) (entry : string * json)
  : gmap string json * list event :=
  let '(env, evs) := acc in
  let '(key, value) := entry in
  match value with
  | JStr s =>
      if startswith "${" s && endswith "}" s then
        let env_var_name := slice_2_m1 s in
        match environ !! env_var_name with
        | Some v => (<[key := JStr v]> env, evs)
        | None =>
            (<[key := value]> env,
             (evs ++ [EvWarning ("Environment variable not found: " +:+ env_var_name)])%list)
        end
      else (<[key := value]> env, evs)
  | _ => (<[key := value]> env, evs)
  end.

(** [env = os.environ.copy()] followed by the loop. *)
Definition prepare_env (environ : gmap string string)
    (env_vars : list (string * json)) : gmap string json * list event :=
  fold_left (env_step environ) env_vars (JStr <$> environ, []).

(** What one entry of [env_vars] puts into the child's environment. *)
Definition entry_value (environ : gmap string string) (value : json) : json :=
  match value with
  | JStr s =>
      if startswith "${" s && endswith "}" s then
        from_option JStr value (environ !! slice_2_m1 s)
      else value
  | _ => value
  end.

(** [cmd = [command] + args], which [' '.join(cmd)] then requires to hold
    strings only. *)
Definition build_cmd (command args : json) : option (list string) :=
  match command, args with
  | JStr c, JArr items =>
      (c ::.) <$> mapM (λ i, match i with JStr s => Some s | _ => None end) items
  | _, _ => None
  end.

(** [subprocess.Popen] rejects an environment that holds a non-string. *)
Definition env_all_str (env : gmap string json) : bool :=
  forallb (λ kv, match kv.2 with JStr _ => true | _ => false end) (map_to_list env).

(** [_start_process]; every exception inside is caught and answered [False]. *)
Definition _start_process (w : world) (server_name : string)
    (server_config : json) (m : monitor) : monitor * bool :=
  let failed m := (emit m [EvError ("Failed to start process " +:+ server_name)], false) in
  match dict_get "command" JNull server_config,
        dict_get "args" (JArr []) server_config,
        dict_get "env" (JObj []) server_config with
  | Ok command, Ok args, Ok env_vars =>
      if negb (truthy command) then
        (emit m [EvError ("No command specified for server: " +:+ server_name)], false)
      else
        match env_vars with
        | JObj entries =>
            let '(env, warnings) := prepare_env (environ w) entries in
            let m := emit m warnings in
            match build_cmd command args with
            | Some cmd =>
                let m := emit m [EvPopen server_name cmd env] in
                match (if env_all_str env then popen w cmd env else Raised TypeError) with
                | Ok p =>
                    let info := {| pid := p; command := cmd; env := env;
                                   start_time := time w |} in
                    let m := set_processes m (assoc_set server_name info (processes m)) in
                    let m :=
                      match restart_counts m !! server_name with
                      | Some _ => m
                      | None => set_restart_counts m (<[server_name := 0%Z]> (restart_counts m))
                      end in
                    (m, true)
                | Raised _ => failed m
                end
            | None => failed m
            end
        | _ => failed m
        end
  | _, _, _ => failed m
  end.

(** [start_processes] *)
Definition start_processes (w : world) (m : monitor) : result monitor :=
  match config m with
  | None => Ok (emit m [EvError "No MCP servers configured"])
  | Some cfg =>
      if negb (truthy cfg) then Ok (emit m [EvError "No MCP servers configured"])
      else
        present ← py_in "mcpServers" cfg;
        if negb present then Ok (emit m [EvError "No MCP servers configured"])
        else
          mcp_servers ← dict_get "mcpServers" (JObj []) cfg;
          match mcp_servers with
          | JObj servers =>
              foldl (λ acc '(server_name, server_config),
                       m ← acc;
                       disabled ← dict_get "disabled" (JBool false) server_config;
                       if truthy disabled then Ok m
                       else Ok (_start_process w server_name server_config m).1)
                    (Ok m) servers
          | _ => Raised AttributeError
          end
  end.

(** [time.sleep(seconds)]: a negative length is refused. *)
Definition sleep (seconds : Z) (m : monitor) : monitor * result () :=
  if (seconds <? 0)%Z
  then (m, Raised (ValueError "sleep length must be non-negative"))
  else (emit m [EvSleep seconds], Ok ()).

(** The end of the restart branch of [monitor_processes], once the restart
    is counted: the wait, the lookup of the server's configuration and the
    new launch. *)
Definition restart (w : world) (server_name : string) (m : monitor)
  : monitor * result () :=
  match sleep (restart_delay m) m with
  | (m, Raised e) => (m, Raised e)
  | (m, Ok _) =>
      match config m with
      | None => (m, Raised AttributeError)
      | Some cfg =>
          match (mcp_servers ← dict_get "mcpServers" (JObj []) cfg;
                 dict_get server_name JNull mcp_servers) with
          | Raised e => (m, Raised e)
          | Ok server_config =>
              if truthy server_config
              then ((_start_process w server_name server_config m).1, Ok ())
              else (emit m [EvError ("Server configuration not found for "
                                     +:+ server_name)], Ok ())
          end
      end
  end.

(** The body of the [for] loop of [monitor_processes] for one entry of the
    snapshot [list(self.processes.items())].  An exception leaves the
    monitor as the statements before it have made it. *)
Definition check_process (w : world) (m : monitor)
    (entry : string * process_info) : monitor * result () :=
  let '(server_name, info) := entry in
  match poll w (pid info) with
  | None => (m, Ok ())
  | Some exit_code =>
      let m := emit m [EvWarning ("Process " +:+ server_name +:+ " exited")] in
      match assoc_item server_name (processes m) with
      | Raised e => (m, Raised e)
      | Ok _ =>
          let m := set_processes m (assoc_del server_name (processes m)) in
          match restart_counts m !! server_name with
          | None => (m, Raised (KeyError server_name))
          | Some count =>
              if (count <? max_restarts m)%Z then
                restart w server_name
                  (set_restart_counts m
                     (<[server_name := (count + 1)%Z]> (restart_counts m)))
              else
                (emit m [EvError ("Process " +:+ server_name +:+ " giving up")], Ok ())
          end
      end
  end.

(** The [for] loop over the snapshot; an exception ends it. *)
Fixpoint check_each (w : world) (snapshot : list (string * process_info))
    (m : monitor) : monitor * result () :=
  match snapshot with
  | [] => (m, Ok ())
  | entry :: rest =>
      match check_process w m entry with
      | (m, Ok _) => check_each w rest m
      | (m, Raised e) => (m, Raised e)
      end
  end.

(** One pass of the [while self.running] loop: the [for] loop and the wait
    before the next pass. *)
Definition monitor_pass (w : world) (m : monitor) : monitor * result () :=
  match check_each w (processes m) m with
  | (m, Ok _) => sleep (check_interval m) m
  | (m, Raised e) => (m, Raised e)
  end.

(** [monitor_processes] for as many passes as the loop makes, each with the
    world as it is at that pass.  An exception ends the loop. *)
Fixpoint monitor_processes (ws : list world) (m : monitor)
  : monitor * result () :=
  match ws with
  | [] => (m, Ok ())
  | w :: ws' =>
      match monitor_pass w m with
      | (m, Ok _) => monitor_processes ws' m
      | (m, Raised e) => (m, Raised e)
      end
  end.

(** A step of the loop: its body for one entry, or the wait between two
    passes. *)
Inductive loop_step (m : monitor) : monitor → Prop :=
| step_check (w : world) (entry : string * process_info) :
    loop_step m (check_process w m entry).1
| step_wait : loop_step m (sleep (check_interval m) m).1.


(** *** Predicates on monitor states and traces *)

Section predicates.
Local Open Scope Z_scope.

(** The launches in a stretch of trace are all of [name]. *)
Definition launches_only (name : string) (evs : list event) : Prop :=
∀ n cmd env, EvPopen n cmd env ∈ evs → n = name.

(** What a stretch of the monitor's run may change. *)
Definition advances (m m' : monitor) : Prop :=
config m' = config m ∧ check_interval m' = check_interval m ∧
max_restarts m' = max_restarts m ∧ restart_delay m' = restart_delay m ∧
(∀ n, match restart_counts m !! n with
      | Some c => ∃ c', restart_counts m' !! n = Some c' ∧ c ≤ c'
      | None => restart_counts m' !! n = None
      end) ∧
∃ evs, trace m' = (trace m ++ evs)%list ∧
       ∀ n cmd env, EvPopen n cmd env ∈ evs →
                    ∃ c, restart_counts m !! n = Some c ∧ c < max_restarts m.

End predicates.

(** The state the specification calls GivenUp: the name is no longer
    supervised and its restart budget is used up. *)
Definition given_up (m : monitor) (name : string) : bool :=
  bool_decide (name ∉ (processes m).*1) &&
  match restart_counts m !! name with
  | Some c => (max_restarts m <=? c)%Z
  | None => false
  end.

(** *** A supervised child that keeps exiting *)

Definition demo_config : json :=
  JObj [("mcpServers",
         JObj [("test-server", JObj [("command", JStr "false")])])].

(** A world in which [Popen] hands out pid [p] and the pids in [dead] have
    exited. *)
Definition demo_world (p : nat) (dead : list nat) : world :=
  {| environ := ∅;
     poll := λ q, if bool_decide (q ∈ dead) then Some 1%Z else None;
     popen := λ _ _, Ok p;
     time := 0 |}.

Definition demo_monitor : monitor :=
  {| config := Some demo_config; processes := []; restart_counts := ∅;
     check_interval := 10; max_restarts := 1; restart_delay := 0; trace := [] |}.

Definition demo_started : monitor :=
  match start_processes (demo_world 10%nat []) demo_monitor with
  | Ok m => m
  | Raised _ => demo_monitor
  end.

(** Three passes; at each one the child launched last has exited. *)
Definition demo_passes : list world :=
  [demo_world 11%nat [10%nat]; demo_world 12%nat [11%nat];
   demo_world 13%nat [12%nat]].

(** *** Counting launches *)

(** The calls of [Popen] for [name] in a trace. *)
Fixpoint launches (name : string) (evs : list event) : nat :=
  match evs with
  | [] => 0
  | EvPopen n _ _ :: evs' =>
      (if decide (n = name) then 1 else 0) + launches name evs'
  | _ :: evs' => launches name evs'
  end.

(** The monitor as [__init__] leaves it; [config] is what [_load_config]
    read, if it could. *)
Definition new_monitor (config : option json)
    (check_interval max_restarts restart_delay : Z) : monitor :=
  {| config := config; processes := []; restart_counts := ∅;
     check_interval := check_interval;
     max_restarts := max_restarts; restart_delay := restart_delay;
     trace := [] |}.

(** The entries under ["mcpServers"], when the configuration is a
    dictionary that holds a dictionary there. *)
Definition configured_servers (cfg : option json) : list (string * json) :=
  match cfg with
  | Some (JObj members) =>
      match assoc_get "mcpServers" members with
      | Some (JObj servers) => servers
      | _ => []
      end
  | _ => []
  end.

(** No name has been launched more often than its restart count allows:
    once at the start and once for every restart counted. *)
Definition budgeted (m : monitor) : Prop :=
  ∀ n, match restart_counts m !! n with
       | Some c =>
           (0 ≤ c ≤ Z.max 0 (max_restarts m))%Z ∧
           (launches n (trace m) ≤ Z.to_nat c + 1)%nat
       | None => (launches n (trace m) ≤ 1)%nat
       end.

(** [server_config.get("disabled", False)] is true. *)
Definition disabled (server_config : json) : bool :=
  match dict_get "disabled" (JBool false) server_config with
  | Ok d => truthy d
  | Raised _ => false
  end.

(** *** Two children, one of which keeps exiting *)

Definition pair_config : json :=
  JObj [("mcpServers",
         JObj [("flaky", JObj [("command", JStr "false")]);
               ("steady", JObj [("command", JStr "serve")])])].

(** A world in which [Popen] hands out [flaky_pid] for the command [false]
    and [steady_pid] for any other, and the pids in [dead] have exited. *)
Definition pair_world (flaky_pid steady_pid : nat) (dead : list nat) : world :=
  {| environ := ∅;
     poll := λ q, if bool_decide (q ∈ dead) then Some 1%Z else None;
     popen := λ cmd _, Ok (if decide (cmd = ["false"]) then flaky_pid else steady_pid);
     time := 0 |}.

Definition pair_started : monitor :=
  match start_processes (pair_world 10 20 []) (new_monitor (Some pair_config) 10 1 0) with
  | Ok m => m
  | Raised _ => new_monitor (Some pair_config) 10 1 0
  end.

(** Two passes in which [flaky] has exited: it is restarted once and then
    given up. *)
Definition pair_given_up : monitor :=
  (monitor_processes [pair_world 11 20 [10%nat]; pair_world 12 20 [11%nat]]
     pair_started).1.

(** A later pass in which [steady] has exited. *)
Definition pair_later : list world := [pair_world 12 21 [20%nat]].

(** *** Two servers, the second one disabled *)

Definition legacy_config : json :=
  JObj [("mcpServers",
         JObj [("files", JObj [("command", JStr "serve")]);
               ("legacy", JObj [("command", JStr "old"); ("disabled", JBool true)])])].

Definition legacy_started : monitor :=
  match start_processes (demo_world 30 []) (new_monitor (Some legacy_config) 10 3 0) with
  | Ok m => m
  | Raised _ => new_monitor (Some legacy_config) 10 3 0
  end.

End ProcessMonitor.

Module HealthCheckServer.

(** What [urlopen(req, timeout=5)] does for a probe. *)
Inductive probe : Type :=
| Responded (status : Z)
| Unreachable (reason : string)     (* URLError, HTTPError *)
| Failed (reason : string).         (* any other exception *)

(** An entry of [self.mcp_servers_status]. *)
Record server_status : Type := {
  status : string;
  healthy : bool;
  message : string }.

Record server : Type := {
  config : option json;
  mcp_servers_status : list (string * server_status);
  last_check_time : Z;
  is_healthy : bool;
  check_interval : Z;
  process_monitor : option ProcessMonitor.monitor }.

Definition set_health (h : server) (results : list (string * server_status))
    (overall_healthy : bool) (now : Z) : server :=
  {| config := config h; mcp_servers_status := results;
     last_check_time := now; is_healthy := overall_healthy;
     check_interval := check_interval h;
     process_monitor := process_monitor h |}.

Definition set_unhealthy (h : server) : server :=
  {| config := config h; mcp_servers_status := mcp_servers_status h;
     last_check_time := last_check_time h; is_healthy := false;
     check_interval := check_interval h;
     process_monitor := process_monitor h |}.

Section health.
Variable py_repr : json → string.
Variable urlopen : string → probe.

(** The probe of one enabled server: its entry and whether it leaves
    [overall_healthy] alone. *)
Definition probe_url (proxy_host proxy_port : json) (server_name : string)
  : string :=
  "http://" +:+ py_str py_repr proxy_host +:+ ":"
  +:+ py_str py_repr proxy_port +:+ "/health?server=" +:+ server_name.

Definition probe_server (proxy_host proxy_port : json) (server_name : string)
  : server_status * bool :=
  match urlopen (probe_url proxy_host proxy_port server_name) with
  | Responded code =>
      if (code =? 200)%Z then
        ({| status := "healthy"; healthy := true;
            message := "Server is responding" |}, true)
      else
        ({| status := "unhealthy"; healthy := false;
            message := "Server returned status code " +:+ pretty code |}, false)
  | Unreachable reason =>
      ({| status := "unhealthy"; healthy := false;
          message := "Failed to connect to server: " +:+ reason |}, false)
  | Failed reason =>
      ({| status := "unknown"; healthy := false;
          message := "Error checking server health: " +:+ reason |}, false)
  end.

(** The [for] loop of [check_mcp_servers], with [results] and
    [overall_healthy] as its state. *)
Definition check_each (proxy_host proxy_port : json)
    (mcp_servers : list (string * json))
  : result (list (string * server_status) * bool) :=
  foldl (λ acc '(server_name, server_config),
           '(results, overall_healthy) ← acc;
           disabled ← dict_get "disabled" (JBool false) server_config;
           if truthy disabled then
             Ok (assoc_set server_name
                   {| status := "disabled"; healthy := true;
                      message := "Server is disabled" |} results,
                 overall_healthy)
           else
             let '(entry, ok) := probe_server proxy_host proxy_port server_name in
             Ok (assoc_set server_name entry results, overall_healthy && ok))
        (Ok ([], true)) mcp_servers.

(** [check_mcp_servers]; [now] is [time.time()]. *)
Definition check_mcp_servers (now : Z) (h : server)
  : result (server * list (string * server_status)) :=
  match config h with
  | None => Ok (set_unhealthy h, [])
  | Some cfg =>
      if negb (truthy cfg) then Ok (set_unhealthy h, [])
      else
        present ← py_in "mcpServers" cfg;
        if negb present then Ok (set_unhealthy h, [])
        else
          mcp_servers ← dict_get "mcpServers" (JObj []) cfg;
          proxy_config ← dict_get "proxy" (JObj []) cfg;
          proxy_port ← dict_get "port" (JNum 8000) proxy_config;
          proxy_host ← dict_get "host" (JStr "0.0.0.0") proxy_config;
          match mcp_servers with
          | JObj entries =>
              '(results, overall_healthy) ← check_each proxy_host proxy_port entries;
              Ok (set_health h results overall_healthy now, results)
          | _ => Raised AttributeError
          end
  end.

End health.

(** *** The roll-up as the specification words it *)

(** "Every enabled upstream's last probe was healthy and no supervisor entry
    is GivenUp."  A disabled upstream is recorded as healthy, so the first
    half ranges over all recorded entries. *)
Definition spec_is_healthy (h : server) : Prop :=
  (∀ name s, assoc_get name (mcp_servers_status h) = Some s → healthy s = true) ∧
  (∀ m name, process_monitor h = Some m → ProcessMonitor.given_up m name = false).

Definition set_process_monitor (h : server) (pm : option ProcessMonitor.monitor)
  : server :=
  {| config := config h; mcp_servers_status := mcp_servers_status h;
     last_check_time := last_check_time h; is_healthy := is_healthy h;
     check_interval := check_interval h; process_monitor := pm |}.

(** A sweep that finds every probe answered with 200, next to a supervisor
    that has given up on its only child. *)
Definition given_up_monitor : ProcessMonitor.monitor :=
  (ProcessMonitor.monitor_processes ProcessMonitor.demo_passes
     ProcessMonitor.demo_started).1.

Definition demo_server : server :=
  {| config := Some ProcessMonitor.demo_config; mcp_servers_status := [];
     last_check_time := 0; is_healthy := true; check_interval := 30;
     process_monitor := Some given_up_monitor |}.

Definition all_respond_200 : string → probe := λ _, Responded 200.

Definition no_repr : json → string := λ _, EmptyString.

(** *** Two servers, the second one disabled *)

Definition mixed_config : json :=
  JObj [("mcpServers",
         JObj [("files", JObj [("command", JStr "serve")]);
               ("legacy", JObj [("command", JStr "old"); ("disabled", JBool true)])])].

Definition mixed_server : server :=
  {| config := Some mixed_config; mcp_servers_status := [];
     last_check_time := 0; is_healthy := false; check_interval := 30;
     process_monitor := None |}.

(** A network on which only the probe of [files] is answered. *)
Definition files_only : string → probe := λ url,
  if endswith "=files" url then Responded 200 else Unreachable "connection refused".

End HealthCheckServer.

Module MCPServerManager.

(** A command child as the proxy reaches it through its pipes.  [respond]
    is the program the child runs: the lines it prints when it reads one
    line of input.  [stdout_lines] are printed lines nobody has read yet. *)
Record process : Type := {
  exited : bool;
  respond : string → list string;
  stdin_lines : list string;
  stdout_lines : list string }.

(** The children of this process, by pid.  A [Popen] object is a pid: the
    two dictionaries of the manager that hold it share the child. *)
Abbreviation children := (gmap nat process).

(** An entry of [self.servers]. *)
Record server_info : Type := {
  type : string;
  sconfig : json;                 (* "config" *)
  proc : option nat;              (* "process" *)
  url : json;
  headers : json;
  start_time : Z }.

Record manager : Type := {
  config : json;
  servers : list (string * server_info);
  processes : list (string * nat) }.

Inductive event : Type :=
| EvWarning (msg : string)
| EvError (msg : string)
| EvPopen (server_name : string) (cmd : list string) (env : gmap string string).

(** A call either comes back (with a value or an exception) or waits on a
    pipe that nothing will write to. *)
Inductive run (A : Type) : Type :=
| Done (r : result A)
| Blocked.
Arguments Done {A} r.
Arguments Blocked {A}.

Section manager.
Variable py_repr : json → string.
(** [json.loads]; [None] is [json.JSONDecodeError]. *)
Variable json_loads : string → option json.
(** [os.environ] *)
Variable environ : gmap string string.
(** [subprocess.Popen]: the pid and the program of the new child. *)
Variable popen :
  list string → gmap string string → result (nat * (string → list string)).

(** The body of the loop over [env_vars.items()] in
    [_start_command_server]. *)
Definition env_step (acc : gmap string string * list event)
    (entry : string * json) : gmap string string * list event :=
  let '(env, evs) := acc in
  let '(key, value) := entry in
  match value with
  | JStr s =>
      if startswith "${" s && endswith "}" s then
        let env_var_name := slice_2_m1 s in
        match environ !! env_var_name with
        | Some v => (<[key := v]> env, evs)
        | None =>
            (<[key := s]> env,
             (evs ++ [EvWarning ("Environment variable not found: " +:+ env_var_name)])%list)
        end
      else (<[key := py_str py_repr value]> env, evs)
  | _ => (<[key := py_str py_repr value]> env, evs)
  end.

(** [env = os.environ.copy()] followed by the loop. *)
Definition prepare_env (env_vars : list (string * json))
  : gmap string string * list event :=
  fold_left env_step env_vars (environ, []).

(** What one entry of [env_vars] puts into the child's environment. *)
Definition entry_value (value : json) : string :=
  match value with
  | JStr s =>
      if startswith "${" s && endswith "}" s then
        from_option id s (environ !! slice_2_m1 s)
      else s
  | _ => py_str py_repr value
  end.

(** [[command] + args] followed by [' '.join(cmd)]. *)
Definition build_cmd (command args : json) : result (list string) :=
  match command, args with
  | JStr c, JArr items =>
      match mapM (λ i, match i with JStr s => Some s | _ => None end) items with
      | Some l => Ok (c :: l)
      | None => Raised TypeError
      end
  | _, _ => Raised TypeError
  end.

Definition state : Type := manager * children * list event.

(** [_start_command_server] *)
Definition _start_command_server (now : Z) (server_name : string)
    (server_config : json) (st : state) : state * result () :=
  let '(m, os, tr) := st in
  match dict_get "command" JNull server_config,
        dict_get "args" (JArr []) server_config,
        dict_get "env" (JObj []) server_config with
  | Ok command, Ok args, Ok env_vars =>
      if negb (truthy command) then
        (st, Raised (ValueError ("No command specified for server: " +:+ server_name)))
      else
        match env_vars with
        | JObj entries =>
            let '(env, warnings) := prepare_env entries in
            let tr := (tr ++ warnings)%list in
            match build_cmd command args with
            | Ok cmd =>
                let tr := (tr ++ [EvPopen server_name cmd env])%list in
                match popen cmd env with
                | Ok (p, program) =>
                    let child := {| exited := false; respond := program;
                                    stdin_lines := []; stdout_lines := [] |} in
                    let info := {| type := "command"; sconfig := server_config;
                                   proc := Some p; url := JNull; headers := JNull;
                                   start_time := now |} in
                    (({| config := config m;
                         servers := assoc_set server_name info (servers m);
                         processes := assoc_set server_name p (processes m) |},
                      <[p := child]> os, tr), Ok ())
                | Raised e => ((m, os, tr), Raised e)
                end
            | Raised e => ((m, os, tr), Raised e)
            end
        | _ => (st, Raised AttributeError)
        end
  | Raised e, _, _ | _, Raised e, _ | _, _, Raised e => (st, Raised e)
  end.

(** [_start_sse_server] and [_start_http_server] differ in the tag only. *)
Definition register_remote (tag : string) (now : Z) (server_name : string)
    (server_config : json) (st : state) : state * result () :=
  let '(m, os, tr) := st in
  match dict_get "url" JNull server_config,
        dict_get "headers" (JObj []) server_config with
  | Ok u, Ok h =>
      if negb (truthy u) then
        (st, Raised (ValueError ("No URL specified for server: " +:+ server_name)))
      else
        let info := {| type := tag; sconfig := server_config; proc := None;
                       url := u; headers := h; start_time := now |} in
        (({| config := config m;
             servers := assoc_set server_name info (servers m);
             processes := processes m |}, os, tr), Ok ())
  | Raised e, _ | _, Raised e => (st, Raised e)
  end.

Definition _start_sse_server := register_remote "sse".
Definition _start_http_server := register_remote "streamable_http".

(** [_start_server] *)
Definition _start_server (now : Z) (server_name : string)
    (server_config : json) (st : state) : state * result () :=
  match dict_get "type" (JStr "command") server_config with
  | Raised e => (st, Raised e)
  | Ok server_type =>
      match server_type with
      | JStr "command" => _start_command_server now server_name server_config st
      | JStr "sse" => _start_sse_server now server_name server_config st
      | JStr "streamable_http" => _start_http_server now server_name server_config st
      | _ =>
          let '(m, os, tr) := st in
          ((m, os, (tr ++ [EvError ("Unknown server type for server " +:+ server_name)])%list),
           Ok ())
      end
  end.

(** [start_servers]: a server that fails to start is logged and skipped. *)
Definition start_servers (now : Z) (st : state) : result state :=
  mcp_servers ← dict_get "mcpServers" (JObj []) (config st.1.1);
  match mcp_servers with
  | JObj entries =>
      foldl (λ acc '(server_name, server_config),
               st ← acc;
               disabled ← dict_get "disabled" (JBool false) server_config;
               if truthy disabled then Ok st
               else
                 match _start_server now server_name server_config st with
                 | (st', Ok _) => Ok st'
                 | ((m, os, tr), Raised _) =>
                     Ok (m, os, (tr ++ [EvError ("Failed to start server " +:+ server_name)])%list)
                 end)
            (Ok st) entries
  | _ => Raised AttributeError
  end.

(** *** The pipes *)

(** [process.stdin.write(line); process.stdin.flush()]: a child that has
    exited has closed the read end of the pipe. *)
Definition stdin_write (p : nat) (line : string) (os : children)
  : children * result () :=
  match os !! p with
  | None => (os, Raised BrokenPipeError)
  | Some child =>
      if exited child then (os, Raised BrokenPipeError)
      else
        (<[p := {| exited := false; respond := respond child;
                   stdin_lines := (stdin_lines child ++ [line])%list;
                   stdout_lines := (stdout_lines child ++ respond child line)%list |}]> os,
         Ok ())
  end.

(** [process.stdout.readline()]: the oldest unread line; at end of file
    the empty string; when the child is alive and silent the call waits. *)
Definition stdout_readline (p : nat) (os : children) : children * run string :=
  match os !! p with
  | None => (os, Done (Ok ""))
  | Some child =>
      match stdout_lines child with
      | line :: rest =>
          (<[p := {| exited := exited child; respond := respond child;
                     stdin_lines := stdin_lines child;
                     stdout_lines := rest |}]> os,
           Done (Ok line))
      | [] => (os, if exited child then Done (Ok "") else Blocked)
      end
  end.

(** *** Requests *)

(** The envelope of [_call_command_tool]; [now_ms] is
    [int(time.time() * 1000)]. *)
Definition call_request (server_name : string) (tool_name arguments : json)
    (now_ms : Z) : json :=
  JObj [("jsonrpc", JStr "2.0");
        ("id", JStr (server_name +:+ "_" +:+ py_str py_repr tool_name +:+ "_"
                     +:+ pretty now_ms));
        ("method", JStr "tools/call");
        ("params", JObj [("name", tool_name); ("arguments", arguments)])].

(** The envelope of [_list_command_tools]. *)
Definition list_request (server_name : string) (now_ms : Z) : json :=
  JObj [("jsonrpc", JStr "2.0");
        ("id", JStr (server_name +:+ "_list_tools_" +:+ pretty now_ms));
        ("method", JStr "tools/list")].

(** What the [try] block does with the line it read, up to the check for
    an ["error"] member. *)
Definition parse_response (response_line : string) : result json :=
  if String.eqb response_line "" then Raised NoResponse
  else
    match json_loads (strip response_line) with
    | None => Raised JSONDecodeError
    | Some response =>
        has_error ← py_in "error" response;
        if negb has_error then Ok response
        else
          match response with
          | JObj members =>
              Raised (MCPServerError (from_option id JNull (assoc_get "error" members)))
          | _ => Raised TypeError
          end
    end.

(** The first half of the [try] block: the request goes out. *)
Definition send_request (p : nat) (request : json) (os : children)
  : children * result () :=
  stdin_write p (JsonText.json_dumps request +:+ newline) os.

(** The second half: one line comes back and [finish] picks the result. *)
Definition receive_response {A} (finish : json → result A) (p : nat)
    (os : children) : children * run A :=
  match stdout_readline p os with
  | (os', Done r) => (os', Done (response_line ← r; response ← parse_response response_line; finish response))
  | (os', Blocked) => (os', Blocked)
  end.

Definition exchange {A} (finish : json → result A) (p : nat) (request : json)
    (os : children) : children * run A :=
  match send_request p request os with
  | (os', Ok _) => receive_response finish p os'
  | (os', Raised e) => (os', Done (Raised e))
  end.

(** [response.get("result", {})] *)
Definition call_result (response : json) : result json :=
  dict_get "result" (JObj []) response.

(** [response.get("result", {}).get("tools", [])] *)
Definition list_result (response : json) : result json :=
  r ← dict_get "result" (JObj []) response; dict_get "tools" (JArr []) r.

Definition command_process (m : manager) (server_name : string) : result nat :=
  info ← assoc_item server_name (servers m);
  match proc info with
  | Some p => Ok p
  | None => Raised (KeyError "process")
  end.

(** [_call_command_tool]: the exception is logged and raised again. *)
Definition _call_command_tool (m : manager) (server_name : string)
    (tool_name arguments : json) (now_ms : Z) (os : children)
  : children * run json :=
  match command_process m server_name with
  | Raised e => (os, Done (Raised e))
  | Ok p =>
      exchange call_result p (call_request server_name tool_name arguments now_ms) os
  end.

(** [_list_command_tools]: any exception is logged and answered [[]]. *)
Definition _list_command_tools (m : manager) (server_name : string)
    (now_ms : Z) (os : children) : children * run json :=
  match command_process m server_name with
  | Raised e => (os, Done (Raised e))
  | Ok p =>
      match exchange list_result p (list_request server_name now_ms) os with
      | (os', Done (Ok tools)) => (os', Done (Ok tools))
      | (os', Done (Raised _)) => (os', Done (Ok (JArr [])))
      | (os', Blocked) => (os', Blocked)
      end
  end.

(** The remote transports post the envelope; the exchange itself is the
    network's. *)
Variable urlopen : json → json → json → result string.

Definition remote_exchange {A} (finish : json → result A) (info : server_info)
    (request : json) : result A :=
  body ← urlopen (url info) (headers info) request;
  match json_loads body with
  | None => Raised JSONDecodeError
  | Some response =>
      has_error ← py_in "error" response;
      if negb has_error then finish response
      else
        match response with
        | JObj members =>
            Raised (MCPServerError (from_option id JNull (assoc_get "error" members)))
        | _ => Raised TypeError
        end
  end.

(** [call_tool] *)
Definition call_tool (m : manager) (server_name : string)
    (tool_name arguments : json) (now_ms : Z) (os : children)
  : children * run json :=
  match assoc_get server_name (servers m) with
  | None => (os, Done (Raised (ValueError ("Server not found: " +:+ server_name))))
  | Some info =>
      if String.eqb (type info) "command" then
        _call_command_tool m server_name tool_name arguments now_ms os
      else if String.eqb (type info) "sse" || String.eqb (type info) "streamable_http" then
        (os, Done (remote_exchange call_result info
                     (call_request server_name tool_name arguments now_ms)))
      else (os, Done (Raised (ValueError ("Unknown server type: " +:+ type info))))
  end.

(** [list_tools] *)
Definition list_tools (m : manager) (server_name : string) (now_ms : Z)
    (os : children) : children * run json :=
  match assoc_get server_name (servers m) with
  | None => (os, Done (Raised (ValueError ("Server not found: " +:+ server_name))))
  | Some info =>
      if String.eqb (type info) "command" then
        _list_command_tools m server_name now_ms os
      else if String.eqb (type info) "sse" || String.eqb (type info) "streamable_http" then
        (os, Done (Ok (match remote_exchange list_result info
                               (list_request server_name now_ms) with
                       | Ok tools => tools
                       | Raised _ => JArr []
                       end)))
      else (os, Done (Raised (ValueError ("Unknown server type: " +:+ type info))))
  end.

(** [get_server_status]; [now] is [time.time()]. *)
Definition server_status (now : Z) (os : children) (info : server_info) : json :=
  let '(is_running, pid) :=
    if String.eqb (type info) "command" then
      match proc info with
      | Some p =>
          (JBool (match os !! p with Some child => negb (exited child) | None => false end),
           JNum (Z.of_nat p))
      | None => (JNull, JNull)
      end
    else (JBool true, JNull) in
  JObj [("type", JStr (type info));
        ("running", is_running);
        ("uptime", JNum (now - start_time info));
        ("pid", pid);
        ("config", sconfig info)].

Definition get_server_status (m : manager) (now : Z) (os : children) : json :=
  JObj (map (λ '(server_name, info), (server_name, server_status now os info))
            (servers m)).
End manager.


(** [MCPServerManager(config)] *)
Definition new_manager (config : json) : manager :=
  {| config := config; servers := []; processes := [] |}.

(** Every entry of [self.servers] has one of the three types; an entry of
    type ["command"] holds its child, which [self.processes] holds under
    the same name. *)
Definition well_typed (m : manager) : Prop :=
  ∀ name info, assoc_get name (servers m) = Some info →
    (type info = "command" ∧
     ∃ p, proc info = Some p ∧ assoc_get name (processes m) = Some p)
    ∨ (proc info = None ∧ (type info = "sse" ∨ type info = "streamable_http")).

End MCPServerManager.

Module MCPProxyHandler.
Import MCPServerManager.

Record response : Type := {
  status_code : Z;
  body : json }.

(** [_send_json_response(data)] *)
Definition _send_json_response (data : json) : response :=
  {| status_code := 200; body := data |}.

(** [_send_error_response(status_code, message)] *)
Definition _send_error_response (code : Z) (message : string) : response :=
  {| status_code := code;
     body := JObj [("error", JObj [("code", JNum code); ("message", JStr message)])] |}.

(** [s.split('/')[0]] *)
Fixpoint until_slash (s : string) : string :=
  match s with
  | EmptyString => EmptyString
  | String c rest =>
      if Ascii.eqb c "/" then EmptyString else String c (until_slash rest)
  end.

(** [self.path[1:].split('/')[0]], when the path starts with a slash and has
    more than one character. *)
Definition server_of_path (path : string) : option string :=
  match path with
  | String "/"%char (String c rest) => Some (until_slash (String c rest))
  | _ => None
  end.


Section handler.
Variable py_repr : json → string.
Variable json_loads : string → option json.
Variable urlopen : json → json → json → result string.
(** [str(e)] *)
Variable exn_str : exn → string.

(** [do_POST]; [now_ms] is the clock reading the call will take. *)
Definition do_POST (m : manager) (path request_body : string) (now_ms : Z)
    (os : children) : children * run response :=
  match server_of_path path with
  | None => (os, Done (Ok (_send_error_response 404 "Not found")))
  | Some server_name =>
      match assoc_get server_name (servers m) with
      | None =>
          (os, Done (Ok (_send_error_response 404 ("Server not found: " +:+ server_name))))
      | Some _ =>
          let failed (e : exn) : response :=
            match e with
            | JSONDecodeError => _send_error_response 400 "Invalid JSON in request body"
            | _ => _send_error_response 500 ("Error calling tool: " +:+ exn_str e)
            end in
          match json_loads request_body with
          | None => (os, Done (Ok (failed JSONDecodeError)))
          | Some request_data =>
              match dict_get "tool" JNull request_data,
                    dict_get "arguments" (JObj []) request_data with
              | Ok tool_name, Ok arguments =>
                  if negb (truthy tool_name) then
                    (os, Done (Ok (_send_error_response 400 "Missing 'tool' parameter")))
                  else
                    match call_tool py_repr json_loads urlopen m server_name
                            tool_name arguments now_ms os with
                    | (os', Done (Ok result)) =>
                        (os', Done (Ok (_send_json_response
                                          (JObj [("server", JStr server_name);
                                                 ("tool", tool_name);
                                                 ("result", result)]))))
                    | (os', Done (Raised e)) => (os', Done (Ok (failed e)))
                    | (os', Blocked) => (os', Blocked)
                    end
              | Raised e, _ | _, Raised e => (os, Done (Ok (failed e)))
              end
          end
      end
  end.

(** [do_GET]; [now] is [time.time()]. *)
Definition do_GET (m : manager) (path : string) (now now_ms : Z)
    (os : children) : children * run response :=
  if String.eqb path "/" then
    (os, Done (Ok (_send_json_response
                     (JObj [("name", JStr "MCP Proxy Server");
                            ("version", JStr "1.0.0");
                            ("servers", JArr (map (λ kv, JStr kv.1) (servers m)));
                            ("endpoints",
                             JArr (map (λ kv, JStr ("/" +:+ kv.1)) (servers m)))]))))
  else if String.eqb path "/status" then
    (os, Done (Ok (_send_json_response (get_server_status m now os))))
  else
    match server_of_path path with
    | None => (os, Done (Ok (_send_error_response 404 "Not found")))
    | Some server_name =>
        match assoc_get server_name (servers m) with
        | None =>
            (os, Done (Ok (_send_error_response 404 ("Server not found: " +:+ server_name))))
        | Some _ =>
            match list_tools json_loads urlopen m server_name now_ms os with
            | (os', Done (Ok tools)) =>
                (os', Done (Ok (_send_json_response
                                  (JObj [("server", JStr server_name); ("tools", tools)]))))
            | (os', Done (Raised e)) =>
                (os', Done (Ok (_send_error_response 500
                                  ("Error listing tools: " +:+ exn_str e))))
            | (os', Blocked) => (os', Blocked)
            end
        end
    end.
End handler.

End MCPProxyHandler.

(** ** The scenarios of the specification, as inputs *)

Module Scenario.
Import MCPServerManager MCPProxyHandler.

(** [{"mcpServers":{"echo":{"command":"cat","disabled":false}}}] *)
Definition echo_config : json :=
  JObj [("mcpServers",
         JObj [("echo", JObj [("command", JStr "cat"); ("disabled", JBool false)])])].

(** The program [cat]: every line read is printed back. *)
Definition cat : string → list string := λ line, [line].

Definition popen_cat
  : list string → gmap string string → result (nat * (string → list string)) :=
  λ _ _, Ok (100, cat).

Definition no_repr : json → string := λ _, EmptyString.
Definition no_network : json → json → json → result string := λ _ _ _, Raised OSError.
Definition exn_name : exn → string := λ e,
  match e with
  | BrokenPipeError => "[Errno 32] Broken pipe"
  | NoResponse => "No response from MCP server"
  | _ => "error"
  end.

Definition initial : state :=
  ({| config := echo_config; servers := []; processes := [] |}, ∅, []).

(** The proxy after [start_servers]. *)
Definition started : state :=
  match start_servers no_repr ∅ popen_cat 0 initial with
  | Ok st => st
  | Raised _ => initial
  end.

Definition echo_manager : manager := started.1.1.
Definition echo_children : children := started.1.2.


(** [{"tool":"noop","arguments":{}}] *)
Definition noop_body : json := JObj [("tool", JStr "noop"); ("arguments", JObj [])].

(** The clock reading of the scenarios, in milliseconds. *)
Definition now_ms : Z := 1700000000000.

(** The envelope of a call of [noop] on [echo] at clock reading [now_ms]. *)
Definition noop_request (now_ms : Z) : json :=
  call_request no_repr "echo" (JStr "noop") (JObj []) now_ms.

(** [json.loads] on the texts these scenarios exchange: the request body,
    and the envelopes [cat] sends back, with or without their newline. *)
Definition loads_at (times : list Z) (text : string) : option json :=
  if String.eqb text (JsonText.json_dumps noop_body) then Some noop_body
  else
    head (omap (λ t, if String.eqb (strip text) (JsonText.json_dumps (noop_request t))
                     then Some (noop_request t) else None) times).





(** *** An enabled upstream and a disabled one *)

Definition two_config : json :=
  JObj [("mcpServers",
         JObj [("echo", JObj [("command", JStr "cat")]);
               ("legacy", JObj [("command", JStr "old"); ("disabled", JBool true)])])].

Definition two_started : state :=
  match start_servers no_repr ∅ popen_cat 0 (new_manager two_config, ∅, []) with
  | Ok st => st
  | Raised _ => (new_manager two_config, ∅, [])
  end.

(** *** A child that answers with text that is not JSON *)



(** *** A child's environment *)

(** The process environment: [API_KEY] is set already, [UNSET] is not. *)
Definition child_environ : gmap string string :=
  <["TK" := "secret"]> (<["API_KEY" := "old"]> (<["HOME" := "/root"]> ∅)).

(** A server's [env]: a reference to a set variable under a key the process
    environment has, a reference to a variable that is not set, a plain
    string and a number. *)
Definition child_env_vars : list (string * json) :=
  [("API_KEY", JStr "${TK}"); ("TOKEN", JStr "${UNSET}");
   ("MODE", JStr "fast"); ("PORT", JNum 8080)].

Definition child_config : list (string * json) :=
  [("command", JStr "serve"); ("env", JObj child_env_vars)].

Definition child_world : ProcessMonitor.world :=
  {| ProcessMonitor.environ := child_environ;
     ProcessMonitor.poll := λ _, None;
     ProcessMonitor.popen := λ _ _, Ok 7%nat;
     ProcessMonitor.time := 0 |}.

End Scenario.

(** ** Handler threads inside [_call_command_tool]

    [ThreadingTCPServer] runs every request on a thread of its own.  Between
    the write to the child's stdin and the read from its stdout the code
    takes no lock, so another thread may run there; each of the two pipe
    operations is taken as one step. *)

Module Threads.
Import MCPServerManager.

(** Where a thread stands in the [try] block. *)
Inductive pc : Type :=
| Sending
| Receiving
| Finished (r : result json).

Record thread : Type := {
  tool_name : json;
  arguments : json;
  clock : Z;                      (* int(time.time() * 1000) of this call *)
  at_pc : pc }.

Definition move (t : thread) (to : pc) : thread :=
  {| tool_name := tool_name t; arguments := arguments t; clock := clock t;
     at_pc := to |}.

Section threads.
Variable py_repr : json → string.
Variable json_loads : string → option json.
(** The upstream the threads call, and its child. *)
Variable server_name : string.
Variable p : nat.

Definition request_of (t : thread) : json :=
  call_request py_repr server_name (tool_name t) (arguments t) (clock t).

(** One step of a thread; [None] when it has none to take: it has
    finished, or it waits for a line. *)
Definition step (t : thread) (os : children) : option (thread * children) :=
  match at_pc t with
  | Sending =>
      match send_request p (request_of t) os with
      | (os', Ok _) => Some (move t Receiving, os')
      | (os', Raised e) => Some (move t (Finished (Raised e)), os')
      end
  | Receiving =>
      match receive_response json_loads call_result p os with
      | (os', Done r) => Some (move t (Finished r), os')
      | (_, Blocked) => None
      end
  | Finished _ => None
  end.

(** The threads run as the scheduler picks them. *)
Fixpoint run_schedule (schedule : list nat) (ts : list thread) (os : children)
  : list thread * children :=
  match schedule with
  | [] => (ts, os)
  | i :: schedule' =>
      match ts !! i with
      | Some t =>
          match step t os with
          | Some (t', os') => run_schedule schedule' (<[i := t']> ts) os'
          | None => run_schedule schedule' ts os
          end
      | None => run_schedule schedule' ts os
      end
  end.

(** Calls that do not overlap: each thread of [order] takes its two steps
    before the next one starts. *)
Definition one_after_another (order : list nat) : list nat :=
  order ≫= λ i, [i; i].

(** What one call gets when the line it reads is [line]. *)
Definition outcome_of_line (line : string) : result json :=
  response ← parse_response json_loads line; call_result response.

(** The line a thread writes. *)
Definition request_line (t : thread) : string :=
  JsonText.json_dumps (request_of t) +:+ newline.

(** A child that is alive, has nothing unread on its stdout and prints
    [reply l], one line, for every line [l] it reads. *)
Definition idle_one_line_child (reply : string → string) (child : process) : Prop :=
  exited child = false ∧ stdout_lines child = [] ∧ ∀ l, respond child l = [reply l].

(** Such a child after it has read [lines] and its answers were read. *)
Definition served (child : process) (lines : list string) : process :=
  {| exited := false; respond := respond child;
     stdin_lines := (stdin_lines child ++ lines)%list; stdout_lines := [] |}.
End threads.

(** *** Two overlapping calls *)

(** A child that answers every request with a result holding the request
    itself: the line it prints for a line it reads. *)
Definition reflector_reply (line : string) : string :=
  String "{"%char (JsonText.encode_string "result") +:+ ": " +:+ strip line +:+ "}"
  +:+ newline.

Definition reflector : string → list string := λ line, [reflector_reply line].

Definition reflected (request : json) : json := JObj [("result", request)].

Definition thread_a : thread :=
  {| tool_name := JStr "a"; arguments := JObj []; clock := 1; at_pc := Sending |}.
Definition thread_b : thread :=
  {| tool_name := JStr "b"; arguments := JObj []; clock := 2; at_pc := Sending |}.

(** [json.loads] on the two lines the reflector prints for them. *)
Definition loads_reflected (text : string) : option json :=
  head (omap (λ t, let r := reflected (request_of Scenario.no_repr "echo" t) in
                   if String.eqb (strip text) (JsonText.json_dumps r)
                   then Some r else None) [thread_a; thread_b]).

Definition reflector_child : children :=
  {[ 100%nat := {| exited := false; respond := reflector;
                   stdin_lines := []; stdout_lines := [] |} ]}.

End Threads.
(** ** config_handler.py with object identity

    [ConfigHandler.substitute_env_vars] above works on trees.  Here
    dictionaries and lists are objects in a heap, reached through
    references, so that whether a call changes an object it was given can
    be stated. *)

Module ConfigHeap.

(** A Python value: [None], a [bool], an [int], a [str], or a reference to
    an object. *)
Inductive value : Type :=
| VNone
| VBool (b : bool)
| VInt (n : Z)
| VStr (s : string)
| VRef (l : nat).

(** A dictionary (keyed by strings, in insertion order), a list, or an
    object of another type, which [json.dumps] does not serialize. *)
Inductive object : Type :=
| ODict (members : list (string * value))
| OList (items : list value)
| OOther.

Definition heap : Type := gmap nat object.

Inductive raised : Type :=
| ConfigErr (e : ConfigHandler.ConfigError)
| Exn (e : exn)
| RecursionError.

Inductive outcome (A : Type) : Type :=
| Return (a : A)
| Raise (e : raised).
Arguments Return {A} a.
Arguments Raise {A} e.

(** [json.dumps(v)], as the document it writes.  [markers] holds the
    containers being serialized, [limit] is the nesting the interpreter
    allows. *)
Fixpoint dump (limit : nat) (markers : gset nat) (h : heap) (v : value)
  : outcome json :=
  match v with
  | VNone => Return JNull
  | VBool b => Return (JBool b)
  | VInt n => Return (JNum n)
  | VStr s => Return (JStr s)
  | VRef l =>
      match limit with
      | O => Raise RecursionError
      | S limit' =>
          if decide (l ∈ markers)
          then Raise (Exn (ValueError "Circular reference detected"))
          else
            match h !! l with
            | Some (ODict members) =>
                match
                  (fix each (ms : list (string * value))
                     : outcome (list (string * json)) :=
                     match ms with
                     | [] => Return []
                     | (k, x) :: ms' =>
                         match dump limit' ({[l]} ∪ markers) h x with
                         | Raise e => Raise e
                         | Return x' =>
                             match each ms' with
                             | Raise e => Raise e
                             | Return r => Return ((k, x') :: r)
                             end
                         end
                     end) members
                with
                | Raise e => Raise e
                | Return members' => Return (JObj members')
                end
            | Some (OList items) =>
                match
                  (fix each (xs : list value) : outcome (list json) :=
                     match xs with
                     | [] => Return []
                     | x :: xs' =>
                         match dump limit' ({[l]} ∪ markers) h x with
                         | Raise e => Raise e
                         | Return x' =>
                             match each xs' with
                             | Raise e => Raise e
                             | Return r => Return (x' :: r)
                             end
                         end
                     end) items
                with
                | Raise e => Raise e
                | Return items' => Return (JArr items')
                end
            | Some OOther | None => Raise (Exn TypeError)
            end
        end
  end.

(** A new object: it gets a location no object has. *)
Definition alloc (o : object) (h : heap) : nat * heap :=
  let l := fresh (dom h) in (l, <[l := o]> h).

(** [json.loads] of a document: every array and object of the document
    becomes a new list or dictionary. *)
Fixpoint load (j : json) (h : heap) : value * heap :=
  match j with
  | JNull => (VNone, h)
  | JBool b => (VBool b, h)
  | JNum n => (VInt n, h)
  | JStr s => (VStr s, h)
  | JArr items =>
      let '(items', h1) :=
        (fix each (l : list json) (h : heap) : list value * heap :=
           match l with
           | [] => ([], h)
           | item :: l' =>
               let '(v, h1) := load item h in
               let '(vs, h2) := each l' h1 in
               (v :: vs, h2)
           end) items h in
      let '(l, h2) := alloc (OList items') h1 in
      (VRef l, h2)
  | JObj members =>
      let '(members', h1) :=
        (fix each (l : list (string * json)) (h : heap)
           : list (string * value) * heap :=
           match l with
           | [] => ([], h)
           | (k, x) :: l' =>
               let '(v, h1) := load x h in
               let '(vs, h2) := each l' h1 in
               ((k, v) :: vs, h2)
           end) members h in
      let '(l, h2) :=
        alloc (ODict (fold_left (λ d kv, assoc_set kv.1 kv.2 d) members' [])) h1 in
      (VRef l, h2)
  end.

Section substitution.
(** [os.environ] *)
Variable environ : gmap string string.
(** The nesting [json.dumps] and [json.loads] allow, and the depth of
    calls the interpreter allows [process_value]. *)
Variable json_limit call_limit : nat.

(** [process_value]: a dictionary or list comprehension builds a new
    object; the state is the heap and the set [missing_vars]. *)
Fixpoint process_value (limit : nat) (v : value) (st : heap * gset string)
  : (heap * gset string) * outcome value :=
  match v with
  | VStr s =>
      let '(result, missing) := ConfigHandler.process_str environ s st.2 in
      ((st.1, missing), Return (VStr result))
  | VRef l =>
      match limit with
      | O => (st, Raise RecursionError)
      | S limit' =>
          match st.1 !! l with
          | Some (ODict members) =>
              match
                (fix each (ms : list (string * value)) (st : heap * gset string)
                   : (heap * gset string) * outcome (list (string * value)) :=
                   match ms with
                   | [] => (st, Return [])
                   | (k, x) :: ms' =>
                       match process_value limit' x st with
                       | (st1, Raise e) => (st1, Raise e)
                       | (st1, Return x') =>
                           match each ms' st1 with
                           | (st2, Raise e) => (st2, Raise e)
                           | (st2, Return r) => (st2, Return ((k, x') :: r))
                           end
                       end
                   end) members st
              with
              | (st1, Raise e) => (st1, Raise e)
              | (st1, Return members') =>
                  let '(l', h') := alloc (ODict members') st1.1 in
                  ((h', st1.2), Return (VRef l'))
              end
          | Some (OList items) =>
              match
                (fix each (xs : list value) (st : heap * gset string)
                   : (heap * gset string) * outcome (list value) :=
                   match xs with
                   | [] => (st, Return [])
                   | x :: xs' =>
                       match process_value limit' x st with
                       | (st1, Raise e) => (st1, Raise e)
                       | (st1, Return x') =>
                           match each xs' st1 with
                           | (st2, Raise e) => (st2, Raise e)
                           | (st2, Return r) => (st2, Return (x' :: r))
                           end
                       end
                   end) items st
              with
              | (st1, Raise e) => (st1, Raise e)
              | (st1, Return items') =>
                  let '(l', h') := alloc (OList items') st1.1 in
                  ((h', st1.2), Return (VRef l'))
              end
          | Some OOther | None => (st, Return v)
          end
      end
  | _ => (st, Return v)
  end.

(** [substitute_env_vars(self, config=None)] on the heap [h];
    [self_config] is [self.config].  The method assigns no attribute of
    [self]. *)
Definition substitute_env_vars (self_config config : value) (h : heap)
  : heap * outcome value :=
  let config := match config with VNone => self_config | _ => config end in
  match config with
  | VNone => (h, Raise (ConfigErr ConfigHandler.NoConfigurationLoaded))
  | _ =>
      match dump json_limit ∅ h config with
      | Raise e => (h, Raise e)
      | Return text =>
          let '(processed_config, h1) := load text h in
          match process_value call_limit processed_config (h1, ∅) with
          | ((h2, _), Raise e) => (h2, Raise e)
          | ((h2, missing_vars), Return processed_config) =>
              if decide (missing_vars = ∅)
              then (h2, Return processed_config)
              else (h2, Raise (ConfigErr (ConfigHandler.MissingEnvVars missing_vars)))
          end
      end
  end.
End substitution.

(** *** A configuration in the heap *)

(** [{"mcpServers": {"a": {"args": ["${HOME}", "${UNSET}"]}}}] *)
Definition demo_heap : heap :=
  <[0%nat := ODict [("mcpServers", VRef 1)]]>
  (<[1%nat := ODict [("a", VRef 2)]]>
  (<[2%nat := ODict [("args", VRef 3)]]>
  (<[3%nat := OList [VStr "${HOME}"; VStr "${UNSET}"]]> ∅))).

Definition demo_environ : gmap string string := <["HOME" := "/root"]> ∅.

End ConfigHeap.
(** * Facts about the sources *)

(** ** Insertion-ordered dictionaries *)

Section assoc_facts.
Context {A : Type}.
Implicit Types (d : list (string * A)) (k n : string).

Lemma assoc_get_Some_iff k d : is_Some (assoc_get k d) ↔ k ∈ d.*1.
Proof.
  induction d as [|[k' v] d IH]; simpl.
  - split; [by intros [? ?]|by intros ?%elem_of_nil].
  - rewrite elem_of_cons. destruct (decide (k' = k)) as [->|Hne].
    + split; [by left|by eexists].
    + rewrite IH. naive_solver.
Qed.

Lemma elem_of_assoc_del k n d :
  NoDup d.*1 → n ∈ (assoc_del k d).*1 ↔ n ∈ d.*1 ∧ n ≠ k.
Proof.
  induction d as [|[k' v] d IH]; simpl; intros Hnd.
  - rewrite elem_of_nil. naive_solver.
  - apply NoDup_cons in Hnd as [Hnotin Hnd].
    destruct (decide (k' = k)) as [->|Hne]; simpl.
    + rewrite elem_of_cons. split; [|naive_solver].
      intros Hin. split; [by right|]. intros ->. done.
    + rewrite !elem_of_cons, IH by done. naive_solver.
Qed.

Lemma NoDup_assoc_del k d : NoDup d.*1 → NoDup (assoc_del k d).*1.
Proof.
  induction d as [|[k' v] d IH]; simpl; intros Hnd; [done|].
  apply NoDup_cons in Hnd as [Hnotin Hnd].
  destruct (decide (k' = k)); simpl; [done|].
  apply NoDup_cons. split; [|by apply IH].
  rewrite elem_of_assoc_del by done. naive_solver.
Qed.

Lemma elem_of_assoc_set k n (v : A) d :
  n ∈ (assoc_set k v d).*1 ↔ n = k ∨ n ∈ d.*1.
Proof.
  induction d as [|[k' x] d IH]; simpl.
  - rewrite elem_of_cons, elem_of_nil. naive_solver.
  - destruct (decide (k' = k)) as [->|Hne]; simpl.
    + rewrite !elem_of_cons. naive_solver.
    + rewrite !elem_of_cons, IH. naive_solver.
Qed.

Lemma NoDup_assoc_set k (v : A) d : NoDup d.*1 → NoDup (assoc_set k v d).*1.
Proof.
  induction d as [|[k' x] d IH]; simpl; intros Hnd.
  - apply NoDup_singleton.
  - apply NoDup_cons in Hnd as [Hnotin Hnd].
    destruct (decide (k' = k)) as [->|Hne]; simpl.
    + by apply NoDup_cons.
    + apply NoDup_cons. split; [|by apply IH].
      rewrite elem_of_assoc_set. naive_solver.
Qed.
End assoc_facts.

(** ** process_monitor.py *)

Section monitor_facts.
Import ProcessMonitor.
Local Open Scope Z_scope.

(** The warning an entry leaves in the log, if any. *)
Lemma env_step_eq environ acc key value :
env_step environ acc (key, value) =
  (<[key := entry_value environ value]> acc.1,
   (acc.2 ++
    match value with
    | JStr s =>
        if startswith "${" s && endswith "}" s then
          match environ !! slice_2_m1 s with
          | Some _ => []
          | None => [EvWarning ("Environment variable not found: " +:+ slice_2_m1 s)]
          end
        else []
    | _ => []
    end)%list).
Proof.
destruct acc as [env evs]. unfold env_step, entry_value. simpl.
destruct value; simpl; rewrite ?app_nil_r; try done.
destruct (startswith "${" s && endswith "}" s); rewrite ?app_nil_r; [|done].
destruct (environ !! slice_2_m1 s); simpl; by rewrite ?app_nil_r.
Qed.

Lemma prepare_env_no_launch environ env_vars n cmd env :
EvPopen n cmd env ∉ (prepare_env environ env_vars).2.
Proof.
unfold prepare_env.
assert (H : ∀ l (acc : gmap string json * list event),
           EvPopen n cmd env ∉ acc.2 →
           EvPopen n cmd env ∉ (fold_left (env_step environ) l acc).2).
{ induction l as [|[k v] l IH]; intros acc Hacc; simpl; [done|].
  apply IH. rewrite env_step_eq. simpl. rewrite elem_of_app.
  intros [?|Hin]; [done|]. destruct v; try by apply elem_of_nil in Hin.
  destruct (startswith "${" s && endswith "}" s); [|by apply elem_of_nil in Hin].
  destruct (environ !! slice_2_m1 s); [by apply elem_of_nil in Hin|].
  by apply list_elem_of_singleton in Hin. }
apply H. simpl. apply not_elem_of_nil.
Qed.

Lemma start_process_spec w name sc m :
let m' := (_start_process w name sc m).1 in
config m' = config m ∧ check_interval m' = check_interval m ∧
max_restarts m' = max_restarts m ∧ restart_delay m' = restart_delay m ∧
(∀ n, n ≠ name → restart_counts m' !! n = restart_counts m !! n) ∧
restart_counts m' !! name =
  match restart_counts m !! name with
  | Some c => Some c
  | None => if (_start_process w name sc m).2 then Some 0 else None
  end ∧
∃ evs, trace m' = (trace m ++ evs)%list ∧ launches_only name evs.
Proof.
unfold _start_process.
assert (Hfail : ∀ m0 evs0 msg, trace m0 = (trace m ++ evs0)%list → launches_only name evs0 →
   config m0 = config m → check_interval m0 = check_interval m →
   max_restarts m0 = max_restarts m → restart_delay m0 = restart_delay m →
   restart_counts m0 = restart_counts m →
   let m' := emit m0 [EvError msg] in
   config m' = config m ∧ check_interval m' = check_interval m ∧
   max_restarts m' = max_restarts m ∧ restart_delay m' = restart_delay m ∧
   (∀ n, n ≠ name → restart_counts m' !! n = restart_counts m !! n) ∧
   restart_counts m' !! name =
     match restart_counts m !! name with Some c => Some c | None => None end ∧
   ∃ evs, trace m' = (trace m ++ evs)%list ∧ launches_only name evs).
{ intros m0 evs0 msg Ht Hl Hc Hi Hm Hd Hr. simpl. rewrite Hr, Ht. repeat split; try done.
  - by destruct (restart_counts m !! name).
  - exists (evs0 ++ [EvError msg])%list. split; [by rewrite app_assoc|].
    unfold launches_only in *. intros n cmd env.
    rewrite elem_of_app, list_elem_of_singleton. naive_solver. }
assert (Hm0 : trace m = (trace m ++ [])%list) by by rewrite app_nil_r.
assert (Hnil : launches_only name []) by (intros ??? H; by apply elem_of_nil in H).
destruct (dict_get "command" JNull sc) as [command|]; [|by apply Hfail with (evs0 := [])].
destruct (dict_get "args" (JArr []) sc) as [args|]; [|by apply Hfail with (evs0 := [])].
destruct (dict_get "env" (JObj []) sc) as [env_vars|]; [|by apply Hfail with (evs0 := [])].
destruct (negb (truthy command)); [by apply Hfail with (evs0 := [])|].
destruct env_vars as [| | | | |entries]; try by apply Hfail with (evs0 := []).
pose proof (prepare_env_no_launch (environ w) entries) as Hprep.
destruct (prepare_env (environ w) entries) as [env warnings]. simpl in Hprep.
assert (Hw : launches_only name warnings) by (intros n cmd e H; by apply Hprep in H).
destruct (build_cmd command args) as [cmd|]; [|by apply Hfail with (evs0 := warnings)].
assert (Hl : launches_only name (warnings ++ [EvPopen name cmd env])).
{ unfold launches_only. intros n c e. rewrite elem_of_app, list_elem_of_singleton. intros [H|H]; [by apply Hw in H|congruence]. }
destruct (if env_all_str env then popen w cmd env else Raised TypeError) as [p|].
- simpl. destruct (restart_counts m !! name) eqn:E; simpl;
    (repeat split; try done;
     [..| exists (warnings ++ [EvPopen name cmd env])%list; split;
          [by rewrite app_assoc | done]]).
  + intros n Hn. by rewrite lookup_insert_ne.
  + by rewrite lookup_insert_eq.
- apply Hfail with (evs0 := (warnings ++ [EvPopen name cmd env])%list); try done.
  simpl. by rewrite app_assoc.
Qed.

Lemma advances_refl m : advances m m.
Proof.
repeat split; try done.
- intros n. destruct (restart_counts m !! n) as [c|]; [|done]. exists c. split; [done|lia].
- exists []. split; [by rewrite app_nil_r|]. intros ??? H. by apply elem_of_nil in H.
Qed.

Lemma advances_trans m1 m2 m3 : advances m1 m2 → advances m2 m3 → advances m1 m3.
Proof.
intros (Hc1 & Hi1 & Hm1 & Hd1 & Hr1 & evs1 & Ht1 & Hl1)
       (Hc2 & Hi2 & Hm2 & Hd2 & Hr2 & evs2 & Ht2 & Hl2).
repeat split; try congruence.
- intros n. specialize (Hr1 n). specialize (Hr2 n).
  destruct (restart_counts m1 !! n) as [c|].
  + destruct Hr1 as (c' & E & Hle). rewrite E in Hr2. destruct Hr2 as (c'' & E' & Hle').
    exists c''. split; [done|lia].
  + by rewrite Hr1 in Hr2.
- exists (evs1 ++ evs2)%list. split; [by rewrite Ht2, Ht1, app_assoc|].
  intros n cmd env. rewrite elem_of_app. intros [H|H]; [by eapply Hl1|].
  apply Hl2 in H as (c2 & E2 & Hlt). specialize (Hr1 n).
  destruct (restart_counts m1 !! n) as [c|]; [|congruence].
  destruct Hr1 as (c' & E & Hle). exists c. split; [done|]. rewrite Hm1 in Hlt.
  assert (c' = c2) by congruence. lia.
Qed.

Lemma emit_advances m evs :
(∀ n cmd env, EvPopen n cmd env ∉ evs) → advances m (emit m evs).
Proof.
intros H. repeat split; try done.
- intros n. simpl. destruct (restart_counts m !! n) as [c|]; [|done]. exists c. split; [done|lia].
- exists evs. split; [done|]. intros n cmd env Hin. by apply H in Hin.
Qed.

Lemma sleep_advances seconds m : advances m (sleep seconds m).1.
Proof.
unfold sleep. destruct (seconds <? 0); [apply advances_refl|].
apply emit_advances. by intros n cmd env ?%list_elem_of_singleton.
Qed.

(** The restart branch after the count: it leaves the counts alone and
  launches nothing but the named server. *)
Lemma restart_spec w name m c :
restart_counts m !! name = Some c →
let m' := (restart w name m).1 in
config m' = config m ∧ check_interval m' = check_interval m ∧
max_restarts m' = max_restarts m ∧ restart_delay m' = restart_delay m ∧
(∀ n, restart_counts m' !! n = restart_counts m !! n) ∧
∃ evs, trace m' = (trace m ++ evs)%list ∧ launches_only name evs.
Proof.
intros Hc. unfold restart, sleep.
assert (Hsame : ∀ evs, launches_only name evs →
  let m' := emit m evs in
  config m' = config m ∧ check_interval m' = check_interval m ∧
  max_restarts m' = max_restarts m ∧ restart_delay m' = restart_delay m ∧
  (∀ n, restart_counts m' !! n = restart_counts m !! n) ∧
  ∃ evs, trace m' = (trace m ++ evs)%list ∧ launches_only name evs).
{ intros evs Hevs. repeat split; try done. by exists evs. }
assert (Hnil : launches_only name []) by (by intros ??? ?%elem_of_nil).
assert (Hsleep : launches_only name [EvSleep (restart_delay m)])
  by (by intros ??? ?%list_elem_of_singleton).
destruct (restart_delay m <? 0); cbn [fst].
{ repeat split; try done. exists []. split; [by rewrite app_nil_r|done]. }
cbn [config emit].
destruct (config m) as [cfg|] eqn:Ecfg; cbn [fst]; [|by apply Hsame].
destruct (dict_get "mcpServers" (JObj []) cfg) as [servers|];
  cbn [mbind result_bind fst]; [|by apply Hsame].
destruct (dict_get name JNull servers) as [sc|]; cbn [fst]; [|by apply Hsame].
destruct (truthy sc); cbn [fst].
- pose proof (start_process_spec w name sc (emit m [EvSleep (restart_delay m)]))
    as (Hcfg & Hi & Hmax & Hd & Hne & Heq & evs & Ht & Hl).
  cbn [config check_interval max_restarts restart_delay restart_counts emit]
    in Hcfg, Hi, Hmax, Hd, Heq, Hne.
  rewrite Hc in Heq.
  split; [congruence|]. do 3 (split; [done|]). split.
  + intros n. destruct (decide (n = name)) as [->|Hn]; [by rewrite Heq|by apply Hne].
  + exists ([EvSleep (restart_delay m)] ++ evs)%list.
    split; [by rewrite Ht; cbn [trace emit]; rewrite <- app_assoc|].
    intros n cmd env [?%list_elem_of_singleton|Hin]%elem_of_app; [done|by eapply Hl].
- do 5 (split; [done|]).
  exists [EvSleep (restart_delay m);
          EvError ("Server configuration not found for " +:+ name)].
  split; [by cbn [trace emit]; rewrite <- app_assoc|].
  intros n cmd env Hin. by repeat (apply elem_of_cons in Hin as [?|Hin]; [done|]);
    apply elem_of_nil in Hin.
Qed.

(** The loop body advances the monitor, also when it ends in an
  exception. *)
Lemma check_process_advances w m entry : advances m (check_process w m entry).1.
Proof.
destruct entry as [name info]. unfold check_process.
destruct (poll w (pid info)) as [code|]; [|apply advances_refl].
assert (Hexit : ∀ n cmd env,
  EvPopen n cmd env ∉ [EvWarning ("Process " +:+ name +:+ " exited")])
  by (by intros ??? ?%list_elem_of_singleton).
cbn [processes emit].
destruct (assoc_item name (processes m)) as [x|]; cbn [fst];
  [|by apply emit_advances].
cbn [restart_counts set_processes emit].
destruct (restart_counts m !! name) as [count|] eqn:Ecount; cbn [fst].
2:{ eapply advances_trans; [by apply emit_advances|].
    repeat split; try done.
    - intros n. cbn. destruct (restart_counts m !! n) as [c|]; [|done].
      exists c. split; [done|lia].
    - exists []. split; [by cbn; rewrite app_nil_r|]. by intros ??? ?%elem_of_nil. }
cbn [max_restarts set_processes emit].
destruct (Z.ltb_spec count (max_restarts m)) as [Hlt|Hge].
- set (m1 := set_restart_counts _ _).
  assert (E1 : restart_counts m1 !! name = Some (count + 1))
    by (unfold m1; cbn; by rewrite lookup_insert_eq).
  pose proof (restart_spec w name m1 (count + 1) E1)
    as (Hcfg & Hi & Hmax & Hd & Hcounts & evs & Ht & Hl).
  repeat split; try done.
  + intros n. rewrite Hcounts. unfold m1. cbn.
    destruct (decide (n = name)) as [->|Hn].
    * rewrite Ecount, lookup_insert_eq. exists (count + 1). split; [done|lia].
    * rewrite lookup_insert_ne by done.
      destruct (restart_counts m !! n) as [c|]; [|done]. exists c. split; [done|lia].
  + exists ([EvWarning ("Process " +:+ name +:+ " exited")] ++ evs)%list.
    split; [by rewrite Ht; unfold m1; cbn; rewrite <- app_assoc|].
    intros n cmd env [?%list_elem_of_singleton|Hin]%elem_of_app; [done|].
    apply Hl in Hin as ->. by exists count.
- repeat split; try done.
  + intros n. cbn. destruct (restart_counts m !! n) as [c|]; [|done].
    exists c. split; [done|lia].
  + exists [EvWarning ("Process " +:+ name +:+ " exited");
            EvError ("Process " +:+ name +:+ " giving up")].
    split; [by cbn; rewrite <- app_assoc|].
    intros n cmd env Hin. by repeat (apply elem_of_cons in Hin as [?|Hin]; [done|]);
      apply elem_of_nil in Hin.
Qed.

Lemma check_each_advances w snapshot m : advances m (check_each w snapshot m).1.
Proof.
revert m. induction snapshot as [|entry snapshot IH]; intros m; cbn [check_each].
- apply advances_refl.
- pose proof (check_process_advances w m entry) as H.
  destruct (check_process w m entry) as [m1 [[]|e]]; [|done].
  eapply advances_trans; [exact H|apply IH].
Qed.

Lemma monitor_pass_advances w m : advances m (monitor_pass w m).1.
Proof.
unfold monitor_pass. pose proof (check_each_advances w (processes m) m) as H.
destruct (check_each w (processes m) m) as [m1 [[]|e]]; [|done].
eapply advances_trans; [exact H|apply sleep_advances].
Qed.

Lemma monitor_processes_advances ws m : advances m (monitor_processes ws m).1.
Proof.
revert m. induction ws as [|w ws IH]; intros m; cbn [monitor_processes].
- apply advances_refl.
- pose proof (monitor_pass_advances w m) as H.
  destruct (monitor_pass w m) as [m1 [[]|e]]; [|done].
  eapply advances_trans; [exact H|apply IH].
Qed.

Lemma loop_steps_advance m m' : rtc loop_step m m' → advances m m'.
Proof.
induction 1 as [m|m m1 m2 Hstep _ IH]; [apply advances_refl|].
eapply advances_trans; [|exact IH].
destruct Hstep; [apply check_process_advances|apply sleep_advances].
Qed.

(** A run of the loop is a sequence of its steps. *)
Lemma check_each_steps w snapshot m : rtc loop_step m (check_each w snapshot m).1.
Proof.
revert m. induction snapshot as [|entry snapshot IH]; intros m; cbn [check_each]; [done|].
pose proof (step_check m w entry) as H.
destruct (check_process w m entry) as [m1 [[]|e]]; cbn [fst] in *.
- eapply rtc_l; [exact H|apply IH].
- by apply rtc_once.
Qed.

Lemma monitor_pass_steps w m : rtc loop_step m (monitor_pass w m).1.
Proof.
unfold monitor_pass. pose proof (check_each_steps w (processes m) m) as H.
destruct (check_each w (processes m) m) as [m1 [[]|e]]; cbn [fst] in *; [|done].
eapply rtc_r; [exact H|apply step_wait].
Qed.

Lemma monitor_processes_steps ws m : rtc loop_step m (monitor_processes ws m).1.
Proof.
revert m. induction ws as [|w ws IH]; intros m; cbn [monitor_processes]; [done|].
pose proof (monitor_pass_steps w m) as H.
destruct (monitor_pass w m) as [m1 [[]|e]]; cbn [fst] in *; [|done].
by etrans; [exact H|apply IH].
Qed.

End monitor_facts.

Section C4.
Import ProcessMonitor.
Local Open Scope Z_scope.




(** The scenario of the supervisor test: with [max_restarts = 1] a child that
  keeps exiting is restarted once and then dropped. *)
Example demo_gives_up :
processes (monitor_processes demo_passes demo_started).1 = [] ∧
restart_counts (monitor_processes demo_passes demo_started).1 !! "test-server" = Some 1 ∧
(monitor_processes demo_passes demo_started).2 = Ok ().
Proof. by vm_compute. Qed.
End C4.

(** ** health_check.py *)

Section health_facts.
Import HealthCheckServer.
Variable py_repr : json → string.
Variable urlopen : string → probe.

Lemma check_each_spec proxy_host proxy_port entries results overall :
check_each py_repr urlopen proxy_host proxy_port entries = Ok (results, overall) →
(overall = true ↔
 ∀ name sc d, (name, sc) ∈ entries →
              dict_get "disabled" (JBool false) sc = Ok d → truthy d = false →
              urlopen (probe_url py_repr proxy_host proxy_port name) = Responded 200).
Proof.
unfold check_each.
assert (Hgen : ∀ l acc_r acc_ok,
  foldl (λ acc '(server_name, server_config),
           '(results, overall_healthy) ← acc;
           disabled ← dict_get "disabled" (JBool false) server_config;
           if truthy disabled then
             Ok (assoc_set server_name
                   {| status := "disabled"; healthy := true;
                      message := "Server is disabled" |} results,
                 overall_healthy)
           else
             let '(entry, ok) := probe_server py_repr urlopen proxy_host proxy_port server_name in
             Ok (assoc_set server_name entry results, overall_healthy && ok))
        (Ok (acc_r, acc_ok)) l = Ok (results, overall) →
  (overall = true ↔
   acc_ok = true ∧
   ∀ name sc d, (name, sc) ∈ l →
                dict_get "disabled" (JBool false) sc = Ok d → truthy d = false →
                urlopen (probe_url py_repr proxy_host proxy_port name) = Responded 200)).
{ induction l as [|[name sc] l IH]; intros acc_r acc_ok.
  - intros [= <- <-]. split; [|by intros [? _]]. intros ->. split; [done|].
    by intros ??? ?%elem_of_nil.
  - cbn [foldl mbind result_bind].
    destruct (dict_get "disabled" (JBool false) sc) as [d|] eqn:Ed; cbn [mbind result_bind].
    + destruct (truthy d) eqn:Et.
      * intros H. rewrite (IH _ _ H). split; intros [Hok Hall]; (split; [done|]).
        -- intros n s d' [[= -> ->]|Hin]%elem_of_cons Hd Ht; [congruence|]. by eapply Hall.
        -- intros n s d' Hin. apply Hall. by right.
      * unfold probe_server.
        destruct (urlopen (probe_url py_repr proxy_host proxy_port name)) as [code| |] eqn:Eu;
          [destruct (Z.eqb_spec code 200) as [->|Hne]|..]; cbn [mbind result_bind];
          intros H; rewrite (IH _ _ H).
        -- rewrite andb_true_r. split; intros [Hok Hall]; (split; [done|]).
           ++ intros n s d' [[= -> ->]|Hin]%elem_of_cons Hd Ht; [done|]. by eapply Hall.
           ++ intros n s d' Hin. apply Hall. by right.
        -- rewrite andb_false_r. split; [by intros [? _]|]. intros [_ Hall].
           specialize (Hall name sc d (list_elem_of_here _ _) Ed Et). congruence.
        -- rewrite andb_false_r. split; [by intros [? _]|]. intros [_ Hall].
           specialize (Hall name sc d (list_elem_of_here _ _) Ed Et). congruence.
        -- rewrite andb_false_r. split; [by intros [? _]|]. intros [_ Hall].
           specialize (Hall name sc d (list_elem_of_here _ _) Ed Et). congruence.
    + intros H. exfalso. clear -H. induction l as [|[n s] l IHl]; [done|]. by apply IHl. }
intros H. rewrite (Hgen _ _ _ H). naive_solver.
Qed.
End health_facts.

Section health_claim.
Import HealthCheckServer.

(** C2 (as amended). After a probe sweep that completes, [is_healthy] holds
  exactly when the configuration is a dictionary with an ["mcpServers"]
  dictionary and every enabled upstream's probe was answered with status
  200; the supervisor's state does not enter: the sweep gives the same
  flag and the same results whatever [process_monitor] holds. *)
Theorem is_healthy_after_sweep (py_repr : json → string) (urlopen : string → probe)
  (now : Z) (h h' : server) (results : list (string * server_status)) :
check_mcp_servers py_repr urlopen now h = Ok (h', results) →
(∀ pm, check_mcp_servers py_repr urlopen now (set_process_monitor h pm)
       = Ok (set_process_monitor h' pm, results)) ∧
(is_healthy h' = true ↔
 ∃ members entries proxy,
   config h = Some (JObj members) ∧
   assoc_get "mcpServers" members = Some (JObj entries) ∧
   from_option id (JObj []) (assoc_get "proxy" members) = JObj proxy ∧
   ∀ name sc d,
     (name, sc) ∈ entries →
     dict_get "disabled" (JBool false) sc = Ok d → truthy d = false →
     urlopen (probe_url py_repr
                (from_option id (JStr "0.0.0.0") (assoc_get "host" proxy))
                (from_option id (JNum 8000) (assoc_get "port" proxy)) name)
     = Responded 200).
Proof.
unfold check_mcp_servers. cbn [config set_process_monitor].
destruct (config h) as [cfg|] eqn:Ecfg.
2:{ intros [= <- <-]. split; [done|]. split; [done|]. by intros (? & ? & ? & ? & _). }
destruct (truthy cfg) eqn:Etruthy; cbn [negb].
2:{ intros [= <- <-]. split; [done|]. split; [done|].
    intros (members & entries & ? & [= ->] & Hget & _).
    destruct members; [done|]. done. }
destruct (py_in "mcpServers" cfg) as [present|] eqn:Ein; cbn [mbind result_bind]; [|done].
destruct present; cbn [negb].
2:{ intros [= <- <-]. split; [done|]. split; [done|].
    intros (members & entries & ? & [= ->] & Hget & _).
    simpl in Ein. rewrite Hget in Ein. by rewrite bool_decide_eq_true_2 in Ein. }
destruct cfg as [| | | | |members]; cbn [dict_get mbind result_bind]; try done.
destruct (from_option id (JObj []) (assoc_get "proxy" members))
  as [| | | | |proxy] eqn:Eproxy; cbn [dict_get mbind result_bind]; try done.
destruct (from_option id (JObj []) (assoc_get "mcpServers" members))
  as [| | | | |entries] eqn:Eentries; try done.
destruct (check_each py_repr urlopen _ _ entries) as [[rs ok]|] eqn:Eeach;
  cbn [mbind result_bind]; [|done].
intros [= <- <-]. split; [done|]. cbn [is_healthy set_health].
rewrite (check_each_spec _ _ _ _ _ _ _ Eeach).
assert (Hget : assoc_get "mcpServers" members = Some (JObj entries)).
{ simpl in Ein. injection Ein as Ein. apply bool_decide_eq_true in Ein as [x Hx].
  rewrite Hx in Eentries. simpl in Eentries. by subst. }
split.
- intros Hall. by exists members, entries, proxy.
- intros (members' & entries' & proxy' & [= <-] & Hget' & Hproxy' & Hall).
  assert (entries' = entries) as -> by congruence.
  assert (proxy' = proxy) as -> by congruence. done.
Qed.

Lemma is_healthy_after_sweep_witness :
(∀ pm, check_mcp_servers no_repr all_respond_200 100 (set_process_monitor demo_server pm)
       = Ok (set_process_monitor
               (set_health demo_server
                  [("test-server",
                    {| status := "healthy"; healthy := true;
                       message := "Server is responding" |})] true 100) pm,
             [("test-server",
               {| status := "healthy"; healthy := true;
                  message := "Server is responding" |})])) ∧
(is_healthy (set_health demo_server
               [("test-server",
                 {| status := "healthy"; healthy := true;
                    message := "Server is responding" |})] true 100) = true ↔
 ∃ members entries proxy,
   config demo_server = Some (JObj members) ∧
   assoc_get "mcpServers" members = Some (JObj entries) ∧
   from_option id (JObj []) (assoc_get "proxy" members) = JObj proxy ∧
   ∀ name sc d,
     (name, sc) ∈ entries →
     dict_get "disabled" (JBool false) sc = Ok d → truthy d = false →
     all_respond_200 (probe_url no_repr
                (from_option id (JStr "0.0.0.0") (assoc_get "host" proxy))
                (from_option id (JNum 8000) (assoc_get "port" proxy)) name)
     = Responded 200).
Proof.
apply (is_healthy_after_sweep no_repr all_respond_200 100 demo_server).
reflexivity.
Defined.

(** C2, counterexample.  Every probe of the sweep is answered with 200
  while the supervisor has given up on ["test-server"]: the flag is true
  although the roll-up the claim describes is false. *)
Lemma is_healthy_despite_given_up :
∃ h' results,
  check_mcp_servers no_repr all_respond_200 100 demo_server = Ok (h', results) ∧
  is_healthy h' = true ∧ ¬ spec_is_healthy h'.
Proof.
eexists _, _. split; [reflexivity|]. split; [reflexivity|].
intros [_ Hsup]. specialize (Hsup given_up_monitor "test-server" eq_refl).
vm_compute in Hsup. discriminate.
Qed.
End health_claim.

(** ** Environment of a launched child *)

Section token_facts.
Lemma endswith_app p s : endswith p (s +:+ p) = true.
Proof.
  induction s as [|c s IH]; simpl.
  - destruct p; simpl; [done|]. by rewrite Ascii.eqb_refl, String.eqb_refl.
  - rewrite IH. apply orb_true_r.
Qed.

Lemma token_startswith name : startswith "${" (token name) = true.
Proof. unfold startswith, token. simpl. by destruct name. Qed.

Lemma token_endswith name : endswith "}" (token name) = true.
Proof.
  unfold token. change ("${" +:+ name +:+ "}") with (String "$" (String "{" (name +:+ "}"))).
  cbn [endswith]. rewrite endswith_app. by rewrite !orb_true_r.
Qed.

Lemma substring_app_l s t : String.substring 0 (String.length s) (s +:+ t) = s.
Proof. induction s as [|c s IH]; simpl; [by destruct t|by rewrite IH]. Qed.

Lemma length_append s t :
  String.length (s +:+ t) = String.length s + String.length t.
Proof. induction s as [|c s IH]; simpl; [done|by rewrite IH]. Qed.

Lemma token_slice name : slice_2_m1 (token name) = name.
Proof.
  unfold slice_2_m1, token.
  change ("${" +:+ name +:+ "}") with (String "$" (String "{" (name +:+ "}"))).
  cbn [String.length String.substring].
  replace (S (S (String.length (name +:+ "}"))) - 3) with (String.length name).
  - apply substring_app_l.
  - rewrite length_append. simpl. lia.
Qed.
Lemma endswith_inv p s : endswith p s = true → ∃ mid, s = mid +:+ p.
Proof.
  induction s as [|c s IH]; cbn [endswith].
  - rewrite orb_false_r. intros ->%String.eqb_eq. by exists "".
  - intros [->%String.eqb_eq|[mid ->]%IH]%orb_true_iff; [by exists ""|].
    by exists (String c mid).
Qed.

(** A value that starts with [${] and ends with [}] is the reference to
    the name between them. *)
Lemma reference_is_token s :
  startswith "${" s && endswith "}" s = true → s = token (slice_2_m1 s).
Proof.
  intros [Hstart Hend]%andb_true_iff.
  apply String.prefix_correct in Hstart.
  destruct s as [|a [|b rest]]; try done.
  cbn [String.length String.substring] in Hstart. injection Hstart as -> -> _.
  cbn [endswith] in Hend.
  change (String.eqb "}" (String "$" (String "{" rest))) with false in Hend.
  change (String.eqb "}" (String "{" rest)) with false in Hend.
  cbn [orb] in Hend. apply endswith_inv in Hend as [mid ->].
  change (String "$" (String "{" (mid +:+ "}"))) with (token mid).
  by rewrite token_slice.
Qed.
End token_facts.

Section overlay.
Context {V E : Type}.
Variable f : json → V.
Variable w : json → list E.
Variable step : gmap string V * list E → string * json → gmap string V * list E.
Hypothesis step_eq : ∀ acc k v,
  step acc (k, v) = (<[k := f v]> acc.1, (acc.2 ++ w v)%list).

(** A loop of dictionary assignments over entries with distinct keys. *)
Lemma overlay_spec (l : list (string * json)) acc :
  NoDup l.*1 →
  (∀ k, k ∉ l.*1 → (fold_left step l acc).1 !! k = acc.1 !! k) ∧
  (∀ k v, (k, v) ∈ l → (fold_left step l acc).1 !! k = Some (f v)) ∧
  (∀ e, e ∈ (fold_left step l acc).2 ↔ e ∈ acc.2 ∨ ∃ k v, (k, v) ∈ l ∧ e ∈ w v).
Proof.
  revert acc. induction l as [|[k v] l IH]; intros acc Hnd; simpl.
  - split; [done|]. split; [by intros ?? ?%elem_of_nil|].
    intros e. split; [by left|]. intros [?|(? & ? & ?%elem_of_nil & _)]; done.
  - apply NoDup_cons in Hnd as [Hk Hnd].
    destruct (IH (step acc (k, v)) Hnd) as (Hout & Hin & Hev).
    rewrite step_eq in Hout, Hin, Hev |- *. simpl in *.
    split; [|split].
    + intros k' Hk'. apply not_elem_of_cons in Hk' as [Hne Hk'].
      rewrite Hout by done. by rewrite lookup_insert_ne.
    + intros k' v' [[= -> ->]|Hin']%elem_of_cons.
      * rewrite Hout by done. by rewrite lookup_insert_eq.
      * by apply Hin.
    + intros e. rewrite Hev, elem_of_app. split.
      * intros [[?|?]|(k' & v' & ? & ?)]; [by left|right..].
        -- exists k, v. split; [by left|done].
        -- exists k', v'. split; [by right|done].
      * intros [?|(k' & v' & [[= -> ->]|?]%elem_of_cons & ?)]; [by left; left|by left; right|].
        right. by exists k', v'.
Qed.
End overlay.

Section launch.
Variable py_repr : json → string.
Variable environ : gmap string string.

(** With a command and arguments that are strings, [_start_command_server]
    calls [Popen] with the prepared environment and fails only if [Popen]
    does. *)
Lemma start_command_server_launches popen now name members command cmd env_vars st :
  from_option id JNull (assoc_get "command" members) = command →
  truthy command = true →
  MCPServerManager.build_cmd command
    (from_option id (JArr []) (assoc_get "args" members)) = Ok cmd →
  from_option id (JObj []) (assoc_get "env" members) = JObj env_vars →
  let env := (MCPServerManager.prepare_env py_repr environ env_vars).1 in
  let r := MCPServerManager._start_command_server py_repr environ popen now name
             (JObj members) st in
  r.2 = (popen cmd env ≫= λ _, Ok ()) ∧
  MCPServerManager.EvPopen name cmd env ∈ r.1.2.
Proof.
  intros Hc Ht Hcmd Henv. destruct st as [[m os] tr].
  unfold MCPServerManager._start_command_server. cbn [dict_get].
  rewrite Hc, Ht, Henv. cbn [negb].
  destruct (MCPServerManager.prepare_env py_repr environ env_vars) as [env warnings].
  rewrite Hcmd. cbn [fst].
  destruct (popen cmd env) as [[p program]|e]; cbn [fst snd mbind result_bind];
    (split; [done|]); rewrite elem_of_app, list_elem_of_singleton; by right.
Qed.

(** The same for the supervisor's [_start_process], whose [Popen] also
    refuses an environment holding a value that is not a string. *)
Lemma start_process_launches w name members command cmd env_vars m :
  ProcessMonitor.environ w = environ →
  from_option id JNull (assoc_get "command" members) = command →
  truthy command = true →
  ProcessMonitor.build_cmd command
    (from_option id (JArr []) (assoc_get "args" members)) = Some cmd →
  from_option id (JObj []) (assoc_get "env" members) = JObj env_vars →
  let env := (ProcessMonitor.prepare_env environ env_vars).1 in
  let r := ProcessMonitor._start_process w name (JObj members) m in
  r.2 = match (if ProcessMonitor.env_all_str env
               then ProcessMonitor.popen w cmd env else Raised TypeError) with
        | Ok _ => true
        | Raised _ => false
        end ∧
  ProcessMonitor.EvPopen name cmd env ∈ ProcessMonitor.trace r.1.
Proof.
  intros Hw Hc Ht Hcmd Henv.
  unfold ProcessMonitor._start_process. cbn [dict_get].
  rewrite Hc, Ht, Henv, Hw. cbn [negb].
  destruct (ProcessMonitor.prepare_env environ env_vars) as [env warnings].
  rewrite Hcmd. cbn [fst].
  destruct (if ProcessMonitor.env_all_str env
            then ProcessMonitor.popen w cmd env else Raised TypeError) as [p|e].
  - split; [done|]. cbn [fst].
    destruct (ProcessMonitor.restart_counts _ !! name); simpl;
      rewrite !elem_of_app, list_elem_of_singleton; naive_solver.
  - split; [done|]. simpl.
    rewrite !elem_of_app, !list_elem_of_singleton. naive_solver.
Qed.
End launch.

Section child_env.
Variable py_repr : json → string.
Variable environ : gmap string string.

Lemma proxy_env_step_eq acc key value :
  MCPServerManager.env_step py_repr environ acc (key, value) =
    (<[key := MCPServerManager.entry_value py_repr environ value]> acc.1,
     (acc.2 ++
      match value with
      | JStr s =>
          if startswith "${" s && endswith "}" s then
            match environ !! slice_2_m1 s with
            | Some _ => []
            | None => [MCPServerManager.EvWarning
                         ("Environment variable not found: " +:+ slice_2_m1 s)]
            end
          else []
      | _ => []
      end)%list).
Proof.
  destruct acc as [env evs].
  unfold MCPServerManager.env_step, MCPServerManager.entry_value. simpl.
  destruct value; simpl; rewrite ?app_nil_r; try done.
  destruct (startswith "${" s && endswith "}" s); rewrite ?app_nil_r; [|done].
  destruct (environ !! slice_2_m1 s); simpl; by rewrite ?app_nil_r.
Qed.

Lemma token_is_reference name :
  startswith "${" (token name) && endswith "}" (token name) = true.
Proof. by rewrite token_startswith, token_endswith. Qed.

(** The supervisor passes a value that is not a string on as it is. *)
Lemma prepare_env_keeps_non_string entries k v :
  NoDup entries.*1 → (k, v) ∈ entries → (∀ s, v ≠ JStr s) →
  (ProcessMonitor.prepare_env environ entries).1 !! k = Some v.
Proof.
  intros Hnd Hin Hv. unfold ProcessMonitor.prepare_env.
  destruct (overlay_spec _ _ _ (env_step_eq environ) entries
              (JStr <$> environ, []) Hnd) as (_ & Hset & _).
  rewrite (Hset k v Hin). unfold ProcessMonitor.entry_value.
  destruct v; try done. by destruct (Hv s).
Qed.

Lemma env_all_str_false (env : gmap string json) k v :
  env !! k = Some v → (∀ s, v ≠ JStr s) → ProcessMonitor.env_all_str env = false.
Proof.
  intros Hk Hv. unfold ProcessMonitor.env_all_str. apply not_true_iff_false.
  rewrite forallb_forall. intros Hall.
  specialize (Hall (k, v)). cbn [snd] in Hall.
  assert (In (k, v) (map_to_list env)) as Hin.
  { apply list_elem_of_In. by apply elem_of_map_to_list. }
  specialize (Hall Hin). destruct v; try done. by destruct (Hv s).
Qed.

(** When every entry is a string, so is every value of the environment the
    supervisor prepares. *)
Lemma prepare_env_all_str entries :
  NoDup entries.*1 → (∀ k v, (k, v) ∈ entries → ∃ s, v = JStr s) →
  ProcessMonitor.env_all_str (ProcessMonitor.prepare_env environ entries).1 = true.
Proof.
  intros Hnd Hstr. unfold ProcessMonitor.env_all_str, ProcessMonitor.prepare_env.
  destruct (overlay_spec _ _ _ (env_step_eq environ) entries
              (JStr <$> environ, []) Hnd) as (Hout & Hset & _).
  apply forallb_forall. intros [k x] Hin%list_elem_of_In%elem_of_map_to_list.
  cbn [snd]. destruct (decide (k ∈ entries.*1)) as [Hk|Hk].
  - apply list_elem_of_fmap in Hk as ([k' v] & -> & Hv). cbn [fst] in Hin.
    rewrite (Hset _ _ Hv) in Hin. injection Hin as <-.
    destruct (Hstr _ _ Hv) as [s ->]. unfold ProcessMonitor.entry_value.
    destruct (startswith "${" s && endswith "}" s); [|done].
    by destruct (environ !! slice_2_m1 s).
  - rewrite (Hout k Hk) in Hin. cbn [fst] in Hin. rewrite lookup_fmap in Hin.
    destruct (environ !! k); by simplify_eq/=.
Qed.

(** C7. The environment handed to [Popen], by the proxy as by the
    supervisor, is the process environment overlaid by the entries of the
    server's [env] dictionary.  A key the dictionary does not name keeps
    the value of the process environment.  A string value replaces it,
    also when the process environment has the key.  A string that starts
    with [${] and ends with [}] is a reference [${NAME}]: it is replaced by
    the value of [NAME] in the process environment when that is set; when
    it is not, the text [${NAME}] itself is passed on and a warning is
    logged, and these are the only warnings.  For a value that is not a
    string the proxy passes on [str(value)] and the supervisor the value
    itself.  Given a command and arguments that are strings, the proxy
    calls [Popen] with this environment and its launch fails only if
    [Popen] does; so does the supervisor when every entry is a string,
    while an entry that is not a string makes its [Popen] fail: the
    supervisor answers [False] and launches no child. *)
Theorem child_environment_overlay (env_vars : list (string * json)) :
  NoDup env_vars.*1 →
  let proxy := MCPServerManager.prepare_env py_repr environ env_vars in
  let supervisor := ProcessMonitor.prepare_env environ env_vars in
  (∀ k, k ∉ env_vars.*1 →
        proxy.1 !! k = environ !! k ∧ supervisor.1 !! k = JStr <$> environ !! k) ∧
  (∀ k s, (k, JStr s) ∈ env_vars →
          startswith "${" s && endswith "}" s = false →
          proxy.1 !! k = Some s ∧ supervisor.1 !! k = Some (JStr s)) ∧
  (∀ k s, (k, JStr s) ∈ env_vars →
     startswith "${" s && endswith "}" s = true →
     ∃ name, s = token name ∧
       match environ !! name with
       | Some v => proxy.1 !! k = Some v ∧ supervisor.1 !! k = Some (JStr v)
       | None =>
           proxy.1 !! k = Some (token name) ∧
           supervisor.1 !! k = Some (JStr (token name)) ∧
           MCPServerManager.EvWarning ("Environment variable not found: " +:+ name)
             ∈ proxy.2 ∧
           ProcessMonitor.EvWarning ("Environment variable not found: " +:+ name)
             ∈ supervisor.2
       end) ∧
  (∀ k v, (k, v) ∈ env_vars → (∀ s, v ≠ JStr s) →
          proxy.1 !! k = Some (py_str py_repr v) ∧ supervisor.1 !! k = Some v) ∧
  (∀ e, e ∈ proxy.2 →
        ∃ k name, (k, JStr (token name)) ∈ env_vars ∧ environ !! name = None ∧
                  e = MCPServerManager.EvWarning
                        ("Environment variable not found: " +:+ name)) ∧
  (∀ e, e ∈ supervisor.2 →
        ∃ k name, (k, JStr (token name)) ∈ env_vars ∧ environ !! name = None ∧
                  e = ProcessMonitor.EvWarning
                        ("Environment variable not found: " +:+ name)) ∧
  (∀ popen now name members cmd st,
     truthy (from_option id JNull (assoc_get "command" members)) = true →
     MCPServerManager.build_cmd (from_option id JNull (assoc_get "command" members))
       (from_option id (JArr []) (assoc_get "args" members)) = Ok cmd →
     from_option id (JObj []) (assoc_get "env" members) = JObj env_vars →
     let r := MCPServerManager._start_command_server py_repr environ popen now name
                (JObj members) st in
     r.2 = (popen cmd proxy.1 ≫= λ _, Ok ()) ∧
     MCPServerManager.EvPopen name cmd proxy.1 ∈ r.1.2) ∧
  (∀ w name members cmd m,
     ProcessMonitor.environ w = environ →
     truthy (from_option id JNull (assoc_get "command" members)) = true →
     ProcessMonitor.build_cmd (from_option id JNull (assoc_get "command" members))
       (from_option id (JArr []) (assoc_get "args" members)) = Some cmd →
     from_option id (JObj []) (assoc_get "env" members) = JObj env_vars →
     let r := ProcessMonitor._start_process w name (JObj members) m in
     ProcessMonitor.EvPopen name cmd supervisor.1 ∈ ProcessMonitor.trace r.1 ∧
     ((∀ k v, (k, v) ∈ env_vars → ∃ s, v = JStr s) →
      r.2 = match ProcessMonitor.popen w cmd supervisor.1 with
            | Ok _ => true
            | Raised _ => false
            end) ∧
     (∀ k v, (k, v) ∈ env_vars → (∀ s, v ≠ JStr s) →
             r.2 = false ∧
             ProcessMonitor.processes r.1 = ProcessMonitor.processes m)).
Proof.
  intros Hnd proxy supervisor.
  assert (Hproxy_launch :
    ∀ popen now name members cmd st,
       truthy (from_option id JNull (assoc_get "command" members)) = true →
       MCPServerManager.build_cmd (from_option id JNull (assoc_get "command" members))
         (from_option id (JArr []) (assoc_get "args" members)) = Ok cmd →
       from_option id (JObj []) (assoc_get "env" members) = JObj env_vars →
       let r := MCPServerManager._start_command_server py_repr environ popen now name
                  (JObj members) st in
       r.2 = (popen cmd proxy.1 ≫= λ _, Ok ()) ∧
       MCPServerManager.EvPopen name cmd proxy.1 ∈ r.1.2).
  { intros. by eapply start_command_server_launches. }
  assert (Hsupervisor_launch :
    ∀ w name members cmd m,
       ProcessMonitor.environ w = environ →
       truthy (from_option id JNull (assoc_get "command" members)) = true →
       ProcessMonitor.build_cmd (from_option id JNull (assoc_get "command" members))
         (from_option id (JArr []) (assoc_get "args" members)) = Some cmd →
       from_option id (JObj []) (assoc_get "env" members) = JObj env_vars →
       let r := ProcessMonitor._start_process w name (JObj members) m in
       ProcessMonitor.EvPopen name cmd supervisor.1 ∈ ProcessMonitor.trace r.1 ∧
       ((∀ k v, (k, v) ∈ env_vars → ∃ s, v = JStr s) →
        r.2 = match ProcessMonitor.popen w cmd supervisor.1 with
              | Ok _ => true
              | Raised _ => false
              end) ∧
       (∀ k v, (k, v) ∈ env_vars → (∀ s, v ≠ JStr s) →
               r.2 = false ∧
               ProcessMonitor.processes r.1 = ProcessMonitor.processes m)).
  { intros w name members cmd m Hw Ht Hcmd Henv.
    destruct (start_process_launches py_repr environ w name members _ cmd env_vars m
                Hw eq_refl Ht Hcmd Henv) as [Hr Hin].
    cbv zeta. split; [done|]. split.
    - intros Hstr. rewrite Hr. fold supervisor.
      subst supervisor. by rewrite (prepare_env_all_str env_vars Hnd Hstr).
    - intros k v Hkv Hv.
      pose proof (prepare_env_keeps_non_string env_vars k v Hnd Hkv Hv) as Hk.
      split.
      + rewrite Hr. by rewrite (env_all_str_false _ k v Hk Hv).
      + revert Hk. unfold ProcessMonitor._start_process. cbn [dict_get].
        rewrite Ht, Henv, Hw. cbn [negb].
        destruct (ProcessMonitor.prepare_env environ env_vars) as [env warnings].
        rewrite Hcmd. cbn [fst]. intros Hk.
        by rewrite (env_all_str_false env k v Hk Hv). }
  revert Hproxy_launch Hsupervisor_launch. subst proxy supervisor.
  unfold MCPServerManager.prepare_env, ProcessMonitor.prepare_env.
  intros Hproxy_launch Hsupervisor_launch.
  destruct (overlay_spec _ _ _ proxy_env_step_eq env_vars (environ, []) Hnd)
    as (Pout & Pin & Pev).
  destruct (overlay_spec _ _ _ (env_step_eq environ) env_vars
              (JStr <$> environ, []) Hnd) as (Sout & Sin & Sev).
  simpl in Pout, Sout.
  repeat apply conj; [| | | | | |apply Hproxy_launch|apply Hsupervisor_launch].
  - intros k Hk. rewrite Pout, Sout by done. by rewrite lookup_fmap.
  - intros k s Hin Hplain. rewrite (Pin _ _ Hin), (Sin _ _ Hin).
    unfold MCPServerManager.entry_value, ProcessMonitor.entry_value.
    by rewrite Hplain.
  - intros k s Hin Href. exists (slice_2_m1 s).
    split; [by apply reference_is_token|].
    rewrite (Pin _ _ Hin), (Sin _ _ Hin).
    unfold MCPServerManager.entry_value, ProcessMonitor.entry_value.
    rewrite Href, <- (reference_is_token s Href).
    destruct (environ !! slice_2_m1 s) as [v|] eqn:E; simpl; [done|].
    split; [done|]. split; [done|]. split.
    + apply Pev. right. exists k, (JStr s). split; [done|].
      rewrite Href, E. by apply list_elem_of_singleton.
    + apply Sev. right. exists k, (JStr s). split; [done|].
      rewrite Href, E. by apply list_elem_of_singleton.
  - intros k v Hin Hv. rewrite (Pin _ _ Hin), (Sin _ _ Hin).
    unfold MCPServerManager.entry_value, ProcessMonitor.entry_value.
    destruct v; try done. by destruct (Hv s).
  - intros e [?%elem_of_nil|(k & v & Hin & He)]%Pev; [done|].
    destruct v as [| | |s| |]; try by apply elem_of_nil in He.
    destruct (startswith "${" s && endswith "}" s) eqn:Href;
      [|by apply elem_of_nil in He].
    destruct (environ !! slice_2_m1 s) eqn:E; [by apply elem_of_nil in He|].
    apply list_elem_of_singleton in He as ->.
    exists k, (slice_2_m1 s). by rewrite <- (reference_is_token s Href).
  - intros e [?%elem_of_nil|(k & v & Hin & He)]%Sev; [done|].
    destruct v as [| | |s| |]; try by apply elem_of_nil in He.
    destruct (startswith "${" s && endswith "}" s) eqn:Href;
      [|by apply elem_of_nil in He].
    destruct (environ !! slice_2_m1 s) eqn:E; [by apply elem_of_nil in He|].
    apply list_elem_of_singleton in He as ->.
    exists k, (slice_2_m1 s). by rewrite <- (reference_is_token s Href).
Qed.
End child_env.

(** A server whose [env] holds a reference to a set variable under a key
    the process environment already has, a reference to a variable that is
    not set, a plain string and a number. *)
Lemma child_environment_overlay_witness :
  let proxy := MCPServerManager.prepare_env (λ _, "") Scenario.child_environ
                 Scenario.child_env_vars in
  let supervisor := ProcessMonitor.prepare_env Scenario.child_environ
                      Scenario.child_env_vars in
  NoDup Scenario.child_env_vars.*1 ∧
  (proxy.1 !! "HOME" = Some "/root" ∧ supervisor.1 !! "HOME" = Some (JStr "/root")) ∧
  (Scenario.child_environ !! "API_KEY" = Some "old" ∧
   proxy.1 !! "API_KEY" = Some "secret" ∧
   supervisor.1 !! "API_KEY" = Some (JStr "secret")) ∧
  (proxy.1 !! "TOKEN" = Some "${UNSET}" ∧
   supervisor.1 !! "TOKEN" = Some (JStr "${UNSET}") ∧
   MCPServerManager.EvWarning "Environment variable not found: UNSET" ∈ proxy.2 ∧
   ProcessMonitor.EvWarning "Environment variable not found: UNSET" ∈ supervisor.2) ∧
  (proxy.1 !! "MODE" = Some "fast" ∧ supervisor.1 !! "MODE" = Some (JStr "fast")) ∧
  (proxy.1 !! "PORT" = Some "8080" ∧ supervisor.1 !! "PORT" = Some (JNum 8080)) ∧
  (ProcessMonitor._start_process Scenario.child_world "files"
     (JObj Scenario.child_config) ProcessMonitor.demo_monitor).2 = false.
Proof.
  assert (Hnd : NoDup Scenario.child_env_vars.*1) by (by apply (bool_decide_unpack _)).
  pose proof (child_environment_overlay (λ _, "") Scenario.child_environ
                Scenario.child_env_vars Hnd)
    as (Hout & Hplain & Href & Hother & _ & _ & _ & Hlaunch).
  cbv zeta. split; [exact Hnd|].
  split; [|split; [|split; [|split; [|split]]]].
  - destruct (Hout "HOME") as [-> ->]; [|done].
    intros Hin. by repeat (apply elem_of_cons in Hin as [?|Hin]; [done|]);
      apply elem_of_nil in Hin.
  - split; [done|].
    assert (Hin : ("API_KEY", JStr "${TK}") ∈ Scenario.child_env_vars) by (by left).
    destruct (Href _ _ Hin eq_refl) as (name & Hname & H).
    apply (f_equal slice_2_m1) in Hname. rewrite token_slice in Hname. subst name.
    exact H.
  - assert (Hin : ("TOKEN", JStr "${UNSET}") ∈ Scenario.child_env_vars)
      by (by right; left).
    destruct (Href _ _ Hin eq_refl) as (name & Hname & H).
    apply (f_equal slice_2_m1) in Hname. rewrite token_slice in Hname. subst name.
    exact H.
  - apply (Hplain "MODE" "fast"); [by do 2 right; left|done].
  - apply (Hother "PORT" (JNum 8080)); [by do 3 right; left|done].
  - destruct (Hlaunch Scenario.child_world "files" Scenario.child_config ["serve"]
                ProcessMonitor.demo_monitor) as (_ & _ & Hfail);
      [reflexivity..|].
    apply (Hfail "PORT" (JNum 8080)); [by do 3 right; left|done].
Defined.

Example api_key_set :
  (MCPServerManager.prepare_env (λ _, "") {["TK" := "secret"]}
     [("API_KEY", JStr "${TK}")]).1 !! "API_KEY" = Some "secret".
Proof. vm_compute. reflexivity. Qed.

Example api_key_unset :
  let r := MCPServerManager.prepare_env (λ _, "") ∅ [("API_KEY", JStr "${TK}")] in
  r.1 !! "API_KEY" = Some "${TK}" ∧
  r.2 = [MCPServerManager.EvWarning "Environment variable not found: TK"].
Proof. vm_compute. done. Qed.

(** ** mcp_proxy.py: a child that has exited *)

Section exited_child.
Import MCPServerManager MCPProxyHandler.
Variable py_repr : json → string.
Variable json_loads : string → option json.
Variable urlopen : json → json → json → result string.
Variable exn_str : exn → string.

Lemma command_process_of m server_name info p :
  assoc_get server_name (servers m) = Some info → proc info = Some p →
  command_process m server_name = Ok p.
Proof.
  intros Hget Hp. unfold command_process, assoc_item. rewrite Hget. simpl. by rewrite Hp.
Qed.

End exited_child.

Section exited_child_scenario.
Import MCPServerManager MCPProxyHandler Scenario.


End exited_child_scenario.

(** ** mcp_proxy.py: one tool call through [POST /{name}] *)

Section post_call.
Import MCPServerManager MCPProxyHandler.
Variable py_repr : json → string.
Variable json_loads : string → option json.
Variable urlopen : json → json → json → result string.
Variable exn_str : exn → string.

(** C5 (as amended). A [POST /{name}] with body [{tool, arguments}] to a
    running command upstream writes to the child's stdin exactly one line:
    [json.dumps] of the envelope
    [{jsonrpc: "2.0", id: "{name}_{tool}_{ms}", method: "tools/call",
      params: {name: tool, arguments: arguments}}]
    and a newline, where [ms] is the clock in whole milliseconds.  The id
    carries the tool's name, not the method's, and is a function of the
    upstream, the tool and the millisecond.  When the child answers with a
    line holding a JSON object without an ["error"] member, the response
    is status 200 with body [{server, tool, result}], [result] being the
    reply's ["result"] member, or [{}] when there is none. *)
Theorem post_writes_envelope_and_returns_result (m : manager)
    (server_name path request_body : string) (info : server_info) (p : nat)
    (child : process) (os : children) (request_data reply : list (string * json))
    (now_ms : Z) (reply_line : string) (more : list string) :
  let tool_name := from_option id JNull (assoc_get "tool" request_data) in
  let arguments := from_option id (JObj []) (assoc_get "arguments" request_data) in
  let envelope :=
    JObj [("jsonrpc", JStr "2.0");
          ("id", JStr (server_name +:+ "_" +:+ py_str py_repr tool_name +:+ "_"
                       +:+ pretty now_ms));
          ("method", JStr "tools/call");
          ("params", JObj [("name", tool_name); ("arguments", arguments)])] in
  server_of_path path = Some server_name →
  assoc_get server_name (servers m) = Some info →
  type info = "command" → proc info = Some p →
  os !! p = Some child → exited child = false → stdout_lines child = [] →
  json_loads request_body = Some (JObj request_data) →
  truthy tool_name = true →
  respond child (JsonText.json_dumps envelope +:+ newline) = reply_line :: more →
  reply_line ≠ "" →
  json_loads (strip reply_line) = Some (JObj reply) →
  assoc_get "error" reply = None →
  do_POST py_repr json_loads urlopen exn_str m path request_body now_ms os
  = (<[p := {| exited := false; respond := respond child;
               stdin_lines :=
                 (stdin_lines child ++ [JsonText.json_dumps envelope +:+ newline])%list;
               stdout_lines := more |}]> os,
     Done (Ok (_send_json_response
                 (JObj [("server", JStr server_name);
                        ("tool", tool_name);
                        ("result", from_option id (JObj []) (assoc_get "result" reply))])))).
Proof.
  intros tool_name arguments envelope Hpath Hget Htype Hproc Hos Halive Hquiet
    Hbody Htruthy Hrespond Hline Hreply Herror.
  unfold do_POST. rewrite Hpath, Hget, Hbody. cbn [dict_get].
  fold tool_name arguments. rewrite Htruthy. cbn [negb].
  unfold call_tool. rewrite Hget, Htype. cbn [String.eqb Ascii.eqb Bool.eqb].
  unfold _call_command_tool. rewrite (command_process_of _ _ _ _ Hget Hproc).
  unfold exchange, send_request, stdin_write. rewrite Hos, Halive.
  change (call_request py_repr server_name tool_name arguments now_ms) with envelope.
  unfold receive_response, stdout_readline. rewrite lookup_insert_eq.
  cbn [stdout_lines]. rewrite Hquiet, Hrespond. cbn [app].
  cbn [exited respond stdin_lines mbind result_bind].
  unfold parse_response. apply String.eqb_neq in Hline. rewrite Hline, Hreply.
  cbn [py_in mbind result_bind]. rewrite Herror.
  rewrite bool_decide_eq_false_2 by (by intros [? ?]).
  cbn [negb call_result dict_get]. by rewrite insert_insert_eq.
Qed.
End post_call.

Section post_call_scenario.
Import MCPServerManager MCPProxyHandler Scenario.

Lemma post_writes_envelope_and_returns_result_witness :
  do_POST no_repr (loads_at [now_ms]) no_network exn_name echo_manager "/echo"
    (JsonText.json_dumps noop_body) now_ms echo_children
  = (<[100%nat := {| exited := false; respond := cat;
                     stdin_lines :=
                       [JsonText.json_dumps
                          (JObj [("jsonrpc", JStr "2.0");
                                 ("id", JStr "echo_noop_1700000000000");
                                 ("method", JStr "tools/call");
                                 ("params", JObj [("name", JStr "noop");
                                                  ("arguments", JObj [])])])
                        +:+ newline];
                     stdout_lines := [] |}]> echo_children,
     Done (Ok (_send_json_response
                 (JObj [("server", JStr "echo"); ("tool", JStr "noop");
                        ("result", JObj [])])))).
Proof.
  apply (post_writes_envelope_and_returns_result no_repr (loads_at [now_ms])
           no_network exn_name echo_manager "echo" "/echo"
           (JsonText.json_dumps noop_body)
           {| type := "command";
              sconfig := JObj [("command", JStr "cat"); ("disabled", JBool false)];
              proc := Some 100%nat; url := JNull; headers := JNull; start_time := 0 |}
           100%nat
           {| exited := false; respond := cat; stdin_lines := []; stdout_lines := [] |}
           echo_children
           [("tool", JStr "noop"); ("arguments", JObj [])]
           [("jsonrpc", JStr "2.0");
            ("id", JStr "echo_noop_1700000000000");
            ("method", JStr "tools/call");
            ("params", JObj [("name", JStr "noop"); ("arguments", JObj [])])]
           now_ms
           (JsonText.json_dumps (noop_request now_ms) +:+ newline) []);
    try reflexivity; try discriminate.
Defined.

(** C5, counterexample.  In the scenario of the claim the id written to
    the child is [echo_noop_1700000000000]: it names the tool, and no text
    [fresh] makes it [echo_tools/call_fresh].  A second call of the tool in
    the same millisecond writes the same id again. *)
Lemma post_id_names_the_tool_and_repeats :
  let post := do_POST no_repr (loads_at [now_ms]) no_network exn_name echo_manager
                "/echo" (JsonText.json_dumps noop_body) now_ms in
  let written := JsonText.json_dumps (noop_request now_ms) +:+ newline in
  (stdin_lines <$> (post (post echo_children).1).1 !! 100%nat) = Some [written; written] ∧
  json_get "id" (noop_request now_ms) = Some (JStr "echo_noop_1700000000000") ∧
  ¬ ∃ fresh, json_get "id" (noop_request now_ms)
             = Some (JStr ("echo_tools/call_" +:+ fresh)).
Proof.
  split; [vm_compute; reflexivity|]. split; [vm_compute; reflexivity|].
  intros [fresh H]. vm_compute in H. discriminate.
Qed.
End post_call_scenario.
Section registration.
Import MCPServerManager.
Variable py_repr : json → string.
Variable environ : gmap string string.
Variable popen :
  list string → gmap string string → result (nat * (string → list string)).

Lemma assoc_get_set {A} key k (v : A) d :
  assoc_get key (assoc_set k v d) = if decide (k = key) then Some v else assoc_get key d.
Proof.
  induction d as [|[k' x] d IH]; simpl.
  - done.
  - destruct (decide (k' = k)) as [->|Hne]; simpl.
    + by destruct (decide (k = key)).
    + destruct (decide (k' = key)) as [->|Hne']; [by rewrite decide_False|done].
Qed.

End registration.

(** ** mcp_proxy.py: [GET /status] *)

Section status.
Import MCPServerManager MCPProxyHandler.
Variable json_loads : string → option json.
Variable urlopen : json → json → json → result string.
Variable exn_str : exn → string.


End status.


(** ** mcp_proxy.py: concurrent calls on one child *)

Section threads_facts.
Import MCPServerManager Threads.
Variable py_repr : json → string.
Variable json_loads : string → option json.
Variable server_name : string.
Variable p : nat.

#[local] Abbreviation step := (step py_repr json_loads server_name p).
#[local] Abbreviation run_schedule := (run_schedule py_repr json_loads server_name p).
#[local] Abbreviation request_of := (request_of py_repr server_name).
#[local] Abbreviation request_line := (request_line py_repr server_name).

(** A thread that takes its steps alone does what [_call_command_tool]
    does. *)
Lemma thread_alone_is_call_command_tool m t os :
  command_process m server_name = Ok p → at_pc t = Sending →
  _call_command_tool py_repr json_loads m server_name (tool_name t) (arguments t)
    (clock t) os
  = match step t os with
    | Some (t1, os1) =>
        match at_pc t1 with
        | Finished r => (os1, Done r)
        | _ =>
            match step t1 os1 with
            | Some (t2, os2) =>
                (os2, match at_pc t2 with Finished r => Done r | _ => Blocked end)
            | None => (os1, Blocked)
            end
        end
    | None => (os, Blocked)
    end.
Proof.
  intros Hp Hat. unfold _call_command_tool, exchange, Threads.step. rewrite Hp, Hat.
  fold (request_of t).
  destruct (send_request p (request_of t) os) as [os1 [u|e]]; cbn [at_pc move]; [|done].
  destruct (receive_response json_loads call_result p os1) as [os2 [r|]] eqn:E; [done|].
  f_equal. revert E. unfold receive_response, stdout_readline.
  destruct (os1 !! p) as [child|]; [|done].
  destruct (stdout_lines child); [|done]. destruct (exited child); [done|]. by intros [= ->].
Qed.

Variable reply : string → string.

Lemma served_idle child lines :
  idle_one_line_child reply child → idle_one_line_child reply (served child lines).
Proof. intros (? & ? & ?). done. Qed.

Lemma two_steps t os child :
  at_pc t = Sending → os !! p = Some child → idle_one_line_child reply child →
  ∃ os1,
    step t os = Some (move t Receiving, os1) ∧
    step (move t Receiving) os1
    = Some (move t (Finished (outcome_of_line json_loads (reply (request_line t)))),
            <[p := served child [request_line t]]> os).
Proof.
  intros Hat Hos (Halive & Hquiet & Hone).
  unfold Threads.step. rewrite Hat. unfold send_request, stdin_write.
  rewrite Hos, Halive. eexists. split; [reflexivity|].
  cbn [at_pc move]. unfold receive_response, stdout_readline.
  rewrite lookup_insert_eq. cbn [stdout_lines exited respond stdin_lines].
  rewrite Hquiet, Hone. cbn [app mbind result_bind].
  rewrite insert_insert_eq. reflexivity.
Qed.

Lemma run_two_steps i rest ts os t child :
  ts !! i = Some t → at_pc t = Sending → os !! p = Some child →
  idle_one_line_child reply child →
  run_schedule (i :: i :: rest) ts os
  = run_schedule rest
      (<[i := move t (Finished (outcome_of_line json_loads (reply (request_line t))))]> ts)
      (<[p := served child [request_line t]]> os).
Proof.
  intros Hts Hat Hos Hidle.
  destruct (two_steps t os child Hat Hos Hidle) as (os1 & H1 & H2).
  cbn [Threads.run_schedule]. rewrite Hts, H1.
  rewrite list_lookup_insert_eq by (by eapply lookup_lt_Some).
  rewrite H2. by rewrite list_insert_insert_eq.
Qed.

(** Steps of other threads leave a thread as it is. *)
Lemma run_schedule_other i schedule ts os x :
  i ∉ schedule → ts !! i = Some x → (run_schedule schedule ts os).1 !! i = Some x.
Proof.
  revert ts os. induction schedule as [|k schedule IH]; intros ts os Hk Hx; [done|].
  apply not_elem_of_cons in Hk as [Hne Hk]. cbn [Threads.run_schedule].
  destruct (ts !! k) as [tk|]; [|by apply IH].
  destruct (step tk os) as [[tk' os']|]; [|by apply IH].
  apply IH; [done|]. by rewrite list_lookup_insert_ne.
Qed.

Lemma not_in_one_after_another i order : i ∉ order → i ∉ one_after_another order.
Proof.
  intros Hi Hin. unfold one_after_another in Hin.
  apply list_elem_of_bind in Hin as (k & Hk & Hin).
  apply elem_of_cons in Hk as [->|Hk]; [done|].
  apply elem_of_cons in Hk as [->|Hk]; [done|]. by apply elem_of_nil in Hk.
Qed.

(** C1 (as amended). The driver takes no lock.  When the calls on one
    command upstream do not overlap, each taking its write and its read
    before the next one starts, a child that prints one line per request
    reads the N requests in the order of the calls, and every call gets the
    line printed for its own request. *)
Theorem calls_one_after_another_are_paired (order : list nat) (ts : list thread)
    (os : children) (child : process) :
  NoDup order →
  (∀ i, i ∈ order → ∃ t, ts !! i = Some t ∧ at_pc t = Sending) →
  os !! p = Some child → idle_one_line_child reply child →
  let r := run_schedule (one_after_another order) ts os in
  (∀ i t, i ∈ order → ts !! i = Some t →
          r.1 !! i = Some (move t (Finished (outcome_of_line json_loads
                                               (reply (request_line t)))))) ∧
  r.2 !! p = Some (served child (omap (λ i, request_line <$> ts !! i) order)).
Proof.
  revert ts os child.
  induction order as [|i order IH]; intros ts os child Hnd Hall Hos Hidle.
  - simpl. split; [by intros ?? ?%elem_of_nil|].
    rewrite Hos. f_equal. unfold served. destruct Hidle as (Ha & Hq & _).
    destruct child; simpl in *. by rewrite app_nil_r, Ha, Hq.
  - apply NoDup_cons in Hnd as [Hi Hnd].
    destruct (Hall i) as (t & Hts & Hat); [by left|].
    change (one_after_another (i :: order)) with (i :: i :: one_after_another order).
    cbv zeta. rewrite (run_two_steps i _ ts os t child Hts Hat Hos Hidle).
    set (ts' := <[i := _]> ts). set (os' := <[p := _]> os).
    assert (Hother : ∀ j, j ≠ i → ts' !! j = ts !! j)
      by (intros j Hj; unfold ts'; by rewrite list_lookup_insert_ne).
    destruct (IH ts' os' (served child [request_line t])) as [Hres Hchild].
    + done.
    + intros j Hj. destruct (Hall j) as (tj & Htj & Hatj); [by right|].
      exists tj. split; [|done]. rewrite Hother; [done|]. by intros ->.
    + unfold os'. by rewrite lookup_insert_eq.
    + by apply served_idle.
    + split.
      * intros j tj [->|Hj]%elem_of_cons Htj.
        -- assert (tj = t) as -> by congruence.
           apply run_schedule_other; [by apply not_in_one_after_another|].
           unfold ts'. apply list_lookup_insert_eq. by eapply lookup_lt_Some.
        -- rewrite <- (Hother j) in Htj by (by intros ->). by apply Hres.
      * rewrite Hchild. f_equal. unfold served. cbn [stdin_lines respond].
        f_equal. rewrite <- app_assoc. f_equal. cbn [omap list_omap].
        rewrite Hts. cbn [fmap option_fmap option_map app]. f_equal.
        clear -Hi Hother. induction order as [|j order IHo]; [done|].
        apply not_elem_of_cons in Hi as [Hne Hi]. cbn [omap list_omap].
        rewrite Hother by done. by rewrite IHo.
Qed.
End threads_facts.

Section threads_scenario.
Import MCPServerManager Threads.

Lemma calls_one_after_another_are_paired_witness :
  let r := run_schedule Scenario.no_repr loads_reflected "echo" 100
             (one_after_another [0; 1]%nat) [thread_a; thread_b] reflector_child in
  (∀ i t, i ∈ [0; 1]%nat → [thread_a; thread_b] !! i = Some t →
          r.1 !! i
          = Some (move t (Finished (outcome_of_line loads_reflected
                                      (reflector_reply
                                         (request_line Scenario.no_repr "echo" t)))))) ∧
  r.2 !! 100%nat
  = Some (served {| exited := false; respond := reflector;
                    stdin_lines := []; stdout_lines := [] |}
            (omap (λ i, request_line Scenario.no_repr "echo"
                          <$> [thread_a; thread_b] !! i) [0; 1]%nat)).
Proof.
  apply (calls_one_after_another_are_paired Scenario.no_repr loads_reflected "echo"
           100%nat reflector_reply [0; 1]%nat [thread_a; thread_b] reflector_child
           {| exited := false; respond := reflector;
              stdin_lines := []; stdout_lines := [] |}).
  - apply NoDup_cons. split; [|apply NoDup_singleton].
    intros H. apply list_elem_of_singleton in H. discriminate.
  - intros i Hi. apply elem_of_cons in Hi as [->|Hi];
      [exists thread_a; split; reflexivity|].
    apply list_elem_of_singleton in Hi as ->. exists thread_b. split; reflexivity.
  - reflexivity.
  - repeat split; reflexivity.
Defined.

(** C1, counterexample.  Two handler threads call tools [a] and [b] on the
    same child.  Thread [a] writes, thread [b] writes, thread [b] reads,
    thread [a] reads: both calls succeed, the child has read the requests
    in order, and each caller holds the reply to the other's request. *)
Lemma overlapping_calls_swap_replies :
  let r := run_schedule Scenario.no_repr loads_reflected "echo" 100
             [0; 1; 1; 0]%nat [thread_a; thread_b] reflector_child in
  at_pc <$> r.1 !! 0%nat
    = Some (Finished (Ok (request_of Scenario.no_repr "echo" thread_b))) ∧
  at_pc <$> r.1 !! 1%nat
    = Some (Finished (Ok (request_of Scenario.no_repr "echo" thread_a))) ∧
  at_pc <$> r.1 !! 1%nat
    ≠ Some (Finished (outcome_of_line loads_reflected
                        (reflector_reply (request_line Scenario.no_repr "echo" thread_b)))).
Proof.
  split; [vm_compute; reflexivity|]. split; [vm_compute; reflexivity|].
  intros H. vm_compute in H. discriminate.
Qed.
End threads_scenario.
(** ** config_handler.py: substitution of environment variables *)

Section string_facts.
Import ConfigHandler.

Lemma append_cons c (a b : string) : String c a +:+ b = String c (a +:+ b).
Proof. reflexivity. Qed.

Lemma append_assoc (a b c : string) : (a +:+ b) +:+ c = a +:+ (b +:+ c).
Proof.
  induction a as [|x a IH]; [done|]. rewrite !append_cons. by rewrite IH.
Qed.

Lemma append_nil_r (a : string) : a +:+ "" = a.
Proof. induction a as [|x a IH]; [done|]. rewrite append_cons. by rewrite IH. Qed.

Lemma dollar_free_append a b :
  dollar_free (a +:+ b) = dollar_free a && dollar_free b.
Proof.
  induction a as [|x a IH]; [done|]. rewrite append_cons. cbn [dollar_free].
  by rewrite IH, andb_assoc.
Qed.

(** The text of a token, character by character. *)
Lemma token_unfold name : token name = String "$" (String "{" (name +:+ "}")).
Proof. reflexivity. Qed.

(** A character other than the dollar sign starts no token. *)
Lemma match_token_other c rest :
  Ascii.eqb c "$" = false → match_token (String c rest) = None.
Proof.
  intros Hc. unfold match_token.
  destruct c as [[] [] [] [] [] [] [] []]; done.
Qed.

Lemma startswith_token_other name c rest :
  Ascii.eqb c "$" = false → startswith (token name) (String c rest) = false.
Proof.
  intros Hc. unfold startswith. rewrite token_unfold. cbn [String.prefix].
  destruct (ascii_dec "$" c) as [<-|]; done.
Qed.

Lemma name_char_not_dollar c : is_name_char c = true → Ascii.eqb c "$" = false.
Proof. destruct c as [[] [] [] [] [] [] [] []]; done. Qed.

Lemma name_char_not_brace c : is_name_char c = true → c ≠ "}"%char.
Proof. by intros H ->. Qed.

Lemma name_chars_dollar_free name :
  name_chars name = true → dollar_free name = true.
Proof.
  induction name as [|c name IH]; [done|]. cbn [name_chars dollar_free].
  intros [Hc Hn]%andb_true_iff. by rewrite (name_char_not_dollar c Hc), IH.
Qed.

(** The inside of a token, from the brace on, holds no dollar sign. *)
Lemma token_tail_dollar_free name :
  name_chars name = true → dollar_free (String "{" (name +:+ "}")) = true.
Proof.
  intros H. cbn [dollar_free]. rewrite dollar_free_append.
  by rewrite (name_chars_dollar_free _ H).
Qed.

(** *** The pattern on a token *)

Lemma span_name_name name rest :
  name_chars name = true →
  span_name (name +:+ String "}" rest) = (name, String "}" rest).
Proof.
  induction name as [|c name IH]; [done|]. cbn [name_chars].
  intros [Hc Hn]%andb_true_iff. rewrite append_cons. cbn [span_name].
  by rewrite Hc, (IH Hn).
Qed.

Lemma match_token_token name rest :
  valid_name name = true → match_token (token name +:+ rest) = Some name.
Proof.
  intros [Hne Hn]%andb_true_iff. rewrite token_unfold, !append_cons.
  cbn [match_token]. rewrite append_assoc, append_cons.
  rewrite (span_name_name _ _ Hn). by destruct name.
Qed.

Lemma prefix_name n m rest :
  name_chars n = true → name_chars m = true →
  String.prefix (n +:+ "}") (m +:+ String "}" rest) = true → n = m.
Proof.
  revert m. induction n as [|c n IH]; intros m Hn Hm.
  - destruct m as [|d m]; [done|]. rewrite append_cons.
    change ("" +:+ "}") with (String "}" ""). cbn [String.prefix].
    cbn [name_chars] in Hm. apply andb_true_iff in Hm as [Hd _].
    destruct (ascii_dec "}" d) as [<-|]; done.
  - cbn [name_chars] in Hn. apply andb_true_iff in Hn as [Hc Hn].
    destruct m as [|d m].
    + rewrite append_cons. change ("" +:+ String "}" rest) with (String "}" rest).
      cbn [String.prefix]. destruct (ascii_dec c "}") as [->|]; done.
    + cbn [name_chars] in Hm. apply andb_true_iff in Hm as [Hd Hm].
      rewrite !append_cons. cbn [String.prefix].
      destruct (ascii_dec c d) as [->|]; [|done].
      intros H. by rewrite (IH m Hn Hm H).
Qed.

Lemma prefix_append a b : String.prefix a (a +:+ b) = true.
Proof.
  induction a as [|x a IH]; [by destruct b|]. rewrite append_cons.
  cbn [String.prefix]. destruct (ascii_dec x x); [done|congruence].
Qed.

Lemma startswith_token n m rest :
  name_chars n = true → name_chars m = true →
  startswith (token n) (token m +:+ rest) = bool_decide (n = m).
Proof.
  intros Hn Hm. unfold startswith. case_bool_decide as E.
  - subst. apply prefix_append.
  - apply not_true_is_false. intros H. apply E.
    rewrite !token_unfold, !append_cons in H. cbn [String.prefix] in H.
    destruct (ascii_dec "$" "$"); [|done]. destruct (ascii_dec "{" "{"); [|done].
    rewrite append_assoc, append_cons in H. by apply (prefix_name n m rest).
Qed.

(** *** Scanning text without a dollar sign *)

Lemma findall_from_text t rest :
  dollar_free t = true → findall_from 0 (t +:+ rest) = findall_from 0 rest.
Proof.
  induction t as [|c t IH]; [done|]. cbn [dollar_free].
  intros [Hc Ht]%andb_true_iff. apply negb_true_iff in Hc.
  rewrite append_cons. cbn [findall_from].
  by rewrite (match_token_other _ _ Hc), (IH Ht).
Qed.

Lemma replace_from_text name new t rest :
  dollar_free t = true →
  replace_from (token name) new 0 (t +:+ rest)
  = t +:+ replace_from (token name) new 0 rest.
Proof.
  induction t as [|c t IH]; [done|]. cbn [dollar_free].
  intros [Hc Ht]%andb_true_iff. apply negb_true_iff in Hc.
  rewrite !append_cons. cbn [replace_from].
  by rewrite (startswith_token_other _ _ _ Hc), (IH Ht).
Qed.

Section expand_facts.
Variable environ : gmap string string.

Lemma expand_from_text t rest :
  dollar_free t = true →
  expand_from environ 0 (t +:+ rest) = t +:+ expand_from environ 0 rest.
Proof.
  induction t as [|c t IH]; [done|]. cbn [dollar_free].
  intros [Hc Ht]%andb_true_iff. apply negb_true_iff in Hc.
  rewrite !append_cons. cbn [expand_from].
  by rewrite (match_token_other _ _ Hc), (IH Ht).
Qed.

Lemma expand_from_skip a rest :
  expand_from environ (String.length a) (a +:+ rest) = expand_from environ 0 rest.
Proof. induction a as [|c a IH]; [done|]. by rewrite append_cons. Qed.
End expand_facts.

(** *** Skipping what a match has consumed *)

Lemma findall_from_skip a rest :
  findall_from (String.length a) (a +:+ rest) = findall_from 0 rest.
Proof. induction a as [|c a IH]; [done|]. by rewrite append_cons. Qed.

Lemma replace_from_skip old new a rest :
  replace_from old new (String.length a) (a +:+ rest)
  = replace_from old new 0 rest.
Proof. induction a as [|c a IH]; [done|]. by rewrite append_cons. Qed.

Lemma token_tail_length name :
  String.length (String "{" (name +:+ "}")) = String.length name + 2.
Proof. cbn [String.length]. rewrite length_append. simpl. lia. Qed.

(** A string that holds no dollar sign holds no token. *)
Lemma findall_dollar_free s : dollar_free s = true → findall s = [].
Proof.
  intros H. unfold findall. rewrite <- (append_nil_r s).
  by rewrite findall_from_text.
Qed.
End string_facts.

Section segment_facts.
Import ConfigHandler.
Variable environ : gmap string string.

Lemma render_cons g segments :
  render (g :: segments) = render_segment g +:+ render segments.
Proof. reflexivity. Qed.

Lemma findall_from_token name rest :
  valid_name name = true →
  findall_from 0 (token name +:+ rest) = name :: findall_from 0 rest.
Proof.
  intros Hv. pose proof (match_token_token name rest Hv) as Hm.
  rewrite token_unfold, append_cons in *. cbn [findall_from]. rewrite Hm.
  f_equal. rewrite <- token_tail_length. apply findall_from_skip.
Qed.

Lemma token_length name : String.length (token name) - 1 = String.length name + 2.
Proof.
  rewrite token_unfold. cbn [String.length]. rewrite length_append. simpl. lia.
Qed.

(** Replacing the token of [n] in a string that starts with the token of
    [m]. *)
Lemma replace_from_token n new m rest :
  name_chars n = true → name_chars m = true →
  replace_from (token n) new 0 (token m +:+ rest)
  = (if decide (n = m) then new else token m)
    +:+ replace_from (token n) new 0 rest.
Proof.
  intros Hn Hm.
  change (replace_from (token n) new 0 (token m +:+ rest))
    with (if startswith (token n) (token m +:+ rest)
          then new +:+ replace_from (token n) new (String.length (token n) - 1)
                         (String "{" (m +:+ "}") +:+ rest)
          else String "$" (replace_from (token n) new 0
                             (String "{" (m +:+ "}") +:+ rest))).
  rewrite (startswith_token n m rest Hn Hm). case_bool_decide as E.
  - subst m. rewrite decide_True by done. f_equal.
    rewrite token_length, <- token_tail_length. apply replace_from_skip.
  - rewrite decide_False by done.
    by rewrite (replace_from_text _ _ _ _ (token_tail_dollar_free m Hm)).
Qed.

Lemma expand_from_token name rest :
  valid_name name = true →
  expand_from environ 0 (token name +:+ rest)
  = from_option id (token name) (environ !! name)
    +:+ expand_from environ 0 rest.
Proof.
  intros Hv. pose proof (match_token_token name rest Hv) as Hm.
  apply andb_true_iff in Hv as [_ Hn].
  change (expand_from environ 0 (token name +:+ rest))
    with (match match_token (token name +:+ rest) with
          | Some name' =>
              match environ !! name' with
              | Some env_value =>
                  env_value +:+ expand_from environ (String.length name' + 2)
                                  (String "{" (name +:+ "}") +:+ rest)
              | None => String "$" (expand_from environ 0
                                      (String "{" (name +:+ "}") +:+ rest))
              end
          | None => String "$" (expand_from environ 0
                                  (String "{" (name +:+ "}") +:+ rest))
          end).
  rewrite Hm. destruct (environ !! name) as [v|]; cbn [from_option id].
  - f_equal. rewrite <- token_tail_length. apply expand_from_skip.
  - by rewrite (expand_from_text _ _ _ (token_tail_dollar_free name Hn)).
Qed.

Lemma findall_render segments :
  forallb plain_segment segments = true →
  findall (render segments) = refs segments.
Proof.
  unfold findall. induction segments as [|[t|n] segments IH]; [done|..];
    cbn [forallb plain_segment]; intros [Hg Hs]%andb_true_iff;
    rewrite render_cons; cbn [render_segment].
  - rewrite (findall_from_text _ _ Hg). by apply IH.
  - rewrite (findall_from_token _ _ Hg), (IH Hs). done.
Qed.

Lemma expand_render segments :
  forallb plain_segment segments = true →
  expand environ (render segments) = resolved environ segments.
Proof.
  unfold expand. induction segments as [|[t|n] segments IH]; [done|..];
    cbn [forallb plain_segment]; intros [Hg Hs]%andb_true_iff;
    rewrite render_cons; cbn [render_segment resolved foldr].
  - rewrite (expand_from_text _ _ _ Hg). f_equal. by apply IH.
  - rewrite (expand_from_token _ _ Hg). f_equal. by apply IH.
Qed.

Lemma replace_settle n new seen segments :
  forallb plain_segment segments = true →
  settled environ seen → environ !! n = Some new → name_chars n = true →
  replace (token n) new (render (settle environ seen segments))
  = render (settle environ (n :: seen) segments).
Proof.
  intros Hp Hseen Hn Hchars. unfold replace.
  induction segments as [|[t|m] segments IH]; [done|..];
    cbn [forallb plain_segment] in Hp; apply andb_true_iff in Hp as [Hg Hs];
    cbn [settle map]; rewrite !render_cons; fold (settle environ seen segments);
    fold (settle environ (n :: seen) segments).
  - cbn [render_segment]. rewrite (replace_from_text _ _ _ _ Hg). f_equal. by apply IH.
  - apply andb_true_iff in Hg as [_ Hm].
    destruct (decide (m ∈ seen)) as [Hin|Hout].
    + rewrite (decide_True (P := m ∈ n :: seen)) by (by right).
      destruct (Hseen m Hin) as (w & -> & Hw). cbn [from_option render_segment].
      rewrite (replace_from_text _ _ _ _ Hw). f_equal. by apply IH.
    + cbn [render_segment]. rewrite (replace_from_token _ _ _ _ Hchars Hm).
      rewrite (IH Hs). f_equal. destruct (decide (n = m)) as [->|Hne].
      * rewrite decide_True by (by left). by rewrite Hn.
      * rewrite decide_False; [done|]. by intros [?|?]%elem_of_cons.
Qed.

Lemma replace_each_settle names seen segments :
  forallb plain_segment segments = true →
  settled environ seen → settled environ names → Forall (λ n, name_chars n = true) names →
  fold_left
    (λ result var_name,
       match environ !! var_name with
       | None => result
       | Some env_value => replace (token var_name) env_value result
       end) names (render (settle environ seen segments))
  = render (settle environ (reverse names ++ seen) segments).
Proof.
  intros Hp. revert seen.
  induction names as [|n names IH]; intros seen Hseen Hnames Hchars; [done|].
  apply Forall_cons in Hchars as [Hn Hchars]. cbn [fold_left].
  destruct (Hnames n) as (v & Hv & Hfree); [by left|]. rewrite Hv.
  rewrite (replace_settle n v seen segments Hp Hseen Hv Hn).
  rewrite IH; [|intros m [->|?]%elem_of_cons; eauto|intros m ?; apply Hnames; by right|done].
  by rewrite reverse_cons, <- app_assoc.
Qed.

Lemma settle_nil segments : settle environ [] segments = segments.
Proof.
  unfold settle. induction segments as [|[t|m] segments IH]; [done|..];
    cbn [map]; rewrite IH; [done|].
  rewrite decide_False; [done|]. by intros ?%elem_of_nil.
Qed.

Lemma render_settle seen segments :
  (∀ name, name ∈ refs segments → name ∈ seen) →
  render (settle environ seen segments) = resolved environ segments.
Proof.
  induction segments as [|[t|m] segments IH]; intros Hin; [done|..];
    cbn [settle map]; fold (settle environ seen segments);
    rewrite render_cons; cbn [resolved foldr]; fold (resolved environ segments).
  - f_equal. by apply IH.
  - rewrite decide_True by (apply Hin; by left). rewrite IH.
    + by destruct (environ !! m).
    + intros name ?. apply Hin. by right.
Qed.

Lemma refs_name_chars segments :
  forallb plain_segment segments = true →
  Forall (λ n, name_chars n = true) (refs segments).
Proof.
  induction segments as [|[t|m] segments IH]; [by constructor|..];
    cbn [forallb plain_segment]; intros [Hg Hs]%andb_true_iff.
  - by apply IH.
  - apply andb_true_iff in Hg as [_ Hm]. apply Forall_cons. split; [done|by apply IH].
Qed.

(** On a tidy string the loop of replacements is the one-pass expansion. *)
Lemma replace_each_tidy s :
  tidy environ s → replace_each environ s = expand environ s.
Proof.
  intros (segments & -> & Hp & Hset). unfold replace_each.
  rewrite (findall_render _ Hp), (expand_render _ Hp).
  rewrite <- (settle_nil segments) at 2.
  rewrite replace_each_settle; [|done|by intros ? ?%elem_of_nil|done|by apply refs_name_chars].
  apply render_settle. intros name Hin. apply elem_of_app. left.
  by apply elem_of_reverse.
Qed.

(** A tidy string refers to variables that are set only. *)
Lemma tidy_names_set s name :
  tidy environ s → name ∈ findall s → is_Some (environ !! name).
Proof.
  intros (segments & -> & Hp & Hset). rewrite (findall_render _ Hp).
  intros Hin. destruct (Hset name Hin) as (v & -> & _). by eexists.
Qed.

(** The expansion of a tidy string holds no dollar sign. *)
Lemma expand_tidy_dollar_free s :
  tidy environ s → dollar_free (expand environ s) = true.
Proof.
  intros (segments & -> & Hp & Hset). rewrite (expand_render _ Hp).
  induction segments as [|[t|m] segments IH]; [done|..];
    cbn [forallb plain_segment] in Hp; apply andb_true_iff in Hp as [Hg Hs];
    cbn [resolved foldr]; fold (resolved environ segments);
    rewrite dollar_free_append.
  - rewrite Hg. cbn [andb]. apply IH; [done|].
    intros name Hin. by apply Hset.
  - destruct (Hset m) as (v & -> & Hv); [by left|]. cbn [from_option id].
    rewrite Hv. cbn [andb]. apply IH; [done|].
    intros name Hin. apply Hset. by right.
Qed.
End segment_facts.

Section substitution_facts.
Import ConfigHandler.
Variable environ : gmap string string.

Lemma filter_unset_empty :
  filter (λ name, environ !! name = None) (∅ : gset string) = ∅.
Proof. apply set_eq. intros x. set_unfold. naive_solver. Qed.

(** The loop over [matches], split into what it computes and what it
    records. *)
Lemma process_fold names (result : string) (missing : gset string) :
  fold_left
    (λ '(result, missing) var_name,
       match environ !! var_name with
       | None => (result, {[var_name]} ∪ missing)
       | Some env_value => (replace (token var_name) env_value result, missing)
       end) names (result, missing)
  = (fold_left
       (λ result var_name,
          match environ !! var_name with
          | None => result
          | Some env_value => replace (token var_name) env_value result
          end) names result,
     missing ∪ filter (λ name, environ !! name = None) (list_to_set names)).
Proof.
  revert result missing. induction names as [|n names IH]; intros result missing.
  - cbn [fold_left list_to_set]. by rewrite filter_unset_empty, (right_id_L ∅ (∪)).
  - cbn [fold_left]. destruct (environ !! n) as [v|] eqn:E; rewrite IH; f_equal.
    + apply set_eq. intros x. set_unfold. naive_solver.
    + apply set_eq. intros x. set_unfold. naive_solver.
Qed.

Lemma process_str_spec s missing :
  process_str environ s missing
  = (replace_each environ s, missing ∪ unresolved environ (JStr s)).
Proof. apply process_fold. Qed.

Lemma unresolved_arr_nil : unresolved environ (JArr []) = ∅.
Proof. apply filter_unset_empty. Qed.

Lemma unresolved_obj_nil : unresolved environ (JObj []) = ∅.
Proof. apply filter_unset_empty. Qed.

Lemma unresolved_arr_cons item items :
  unresolved environ (JArr (item :: items))
  = unresolved environ item ∪ unresolved environ (JArr items).
Proof.
  unfold unresolved. cbn [names_in map]. rewrite union_list_cons.
  apply set_eq. intros x. set_unfold. naive_solver.
Qed.

Lemma unresolved_obj_cons k v members :
  unresolved environ (JObj ((k, v) :: members))
  = unresolved environ v ∪ unresolved environ (JObj members).
Proof.
  unfold unresolved. cbn [names_in map]. rewrite union_list_cons.
  apply set_eq. intros x. set_unfold. naive_solver.
Qed.

(** [process_value] rewrites every string value and records every name
    that is not set. *)
Lemma process_value_spec j missing :
  process_value environ j missing
  = (map_strings (replace_each environ) j, missing ∪ unresolved environ j).
Proof.
  revert missing. induction j as [| | | |items IH|members IH] using json_ind;
    intros missing.
  - cbn [process_value map_strings]. f_equal. unfold unresolved. cbn [names_in].
    by rewrite filter_unset_empty, (right_id_L ∅ (∪)).
  - cbn [process_value map_strings]. f_equal. unfold unresolved. cbn [names_in].
    by rewrite filter_unset_empty, (right_id_L ∅ (∪)).
  - cbn [process_value map_strings]. f_equal. unfold unresolved. cbn [names_in].
    by rewrite filter_unset_empty, (right_id_L ∅ (∪)).
  - cbn [process_value map_strings]. by rewrite process_str_spec.
  - cbn [process_value map_strings].
    enough ((fix each (l : list json) (m : gset string) :=
               match l with
               | [] => ([], m)
               | item :: l' =>
                   let '(item', m1) := process_value environ item m in
                   let '(l'', m2) := each l' m1 in
                   (item' :: l'', m2)
               end) items missing
            = (map (map_strings (replace_each environ)) items,
               missing ∪ unresolved environ (JArr items))) as -> by done.
    revert missing. induction IH as [|item items Hitem _ IHitems]; intros missing.
    + by rewrite unresolved_arr_nil, (right_id_L ∅ (∪)).
    + rewrite Hitem, IHitems. cbn [map]. f_equal.
      by rewrite unresolved_arr_cons, (assoc_L (∪)).
  - cbn [process_value map_strings].
    enough ((fix each (l : list (string * json)) (m : gset string) :=
               match l with
               | [] => ([], m)
               | (k, v) :: l' =>
                   let '(v', m1) := process_value environ v m in
                   let '(l'', m2) := each l' m1 in
                   ((k, v') :: l'', m2)
               end) members missing
            = (map (λ kv, (kv.1, map_strings (replace_each environ) kv.2)) members,
               missing ∪ unresolved environ (JObj members))) as -> by done.
    revert missing. induction IH as [|[k v] members Hv _ IHmembers]; intros missing.
    + by rewrite unresolved_obj_nil, (right_id_L ∅ (∪)).
    + cbn [snd] in Hv. rewrite Hv, IHmembers. cbn [map fst snd]. f_equal.
      by rewrite unresolved_obj_cons, (assoc_L (∪)).
Qed.

(** What [substitute_env_vars] returns or raises, for a configuration. *)
Lemma substitute_env_vars_spec self_config config :
  substitute_env_vars environ self_config (Some config)
  = if decide (unresolved environ config = ∅)
    then inl (map_strings (replace_each environ) config)
    else inr (MissingEnvVars (unresolved environ config)).
Proof.
  unfold substitute_env_vars. rewrite process_value_spec.
  rewrite (left_id_L ∅ (∪)). done.
Qed.

Lemma map_strings_ext f g j :
  all_strings (λ s, f s = g s) j → map_strings f j = map_strings g j.
Proof.
  induction j as [| | | |items IH|members IH] using json_ind; try done.
  - cbn. by intros ->.
  - cbn [all_strings map_strings]. intros H. f_equal.
    induction IH as [|item items Hitem _ IHitems]; [done|].
    destruct H as [H1 H2]. cbn [map]. by rewrite (Hitem H1), (IHitems H2).
  - cbn [all_strings map_strings]. intros H. f_equal.
    induction IH as [|[k v] members Hv _ IHmembers]; [done|].
    destruct H as [H1 H2]. cbn [map fst snd] in *. by rewrite (Hv H1), (IHmembers H2).
Qed.

Lemma map_strings_id f j :
  all_strings (λ s, f s = s) j → map_strings f j = j.
Proof.
  induction j as [| | | |items IH|members IH] using json_ind; try done.
  - cbn. by intros ->.
  - cbn [all_strings map_strings]. intros H. f_equal.
    induction IH as [|item items Hitem _ IHitems]; [done|].
    destruct H as [H1 H2]. cbn [map]. by rewrite (Hitem H1), (IHitems H2).
  - cbn [all_strings map_strings]. intros H. f_equal.
    induction IH as [|[k v] members Hv _ IHmembers]; [done|].
    destruct H as [H1 H2]. cbn [map fst snd] in *. by rewrite (Hv H1), (IHmembers H2).
Qed.

Lemma all_strings_impl (P Q : string → Prop) j :
  (∀ s, P s → Q s) → all_strings P j → all_strings Q j.
Proof.
  intros HPQ. induction j as [| | | |items IH|members IH] using json_ind; try done.
  - cbn. apply HPQ.
  - cbn [all_strings]. induction IH as [|item items Hitem _ IHitems]; [done|].
    cbn [foldr]. intros [H1 H2]. split; [by apply Hitem|by apply IHitems].
  - cbn [all_strings]. induction IH as [|[k v] members Hv _ IHmembers]; [done|].
    cbn [foldr]. intros [H1 H2]. split; [by apply Hv|by apply IHmembers].
Qed.

Lemma all_strings_map f (P : string → Prop) j :
  all_strings (λ s, P (f s)) j → all_strings P (map_strings f j).
Proof.
  induction j as [| | | |items IH|members IH] using json_ind; try done.
  - cbn [all_strings map_strings]. induction IH as [|item items Hitem _ IHitems]; [done|].
    cbn [foldr map]. intros [H1 H2]. split; [by apply Hitem|by apply IHitems].
  - cbn [all_strings map_strings]. induction IH as [|[k v] members Hv _ IHmembers]; [done|].
    cbn [foldr map]. intros [H1 H2]. split; [by apply Hv|by apply IHmembers].
Qed.

(** A configuration whose strings refer to set variables only has no
    unresolved name. *)
Lemma unresolved_empty j :
  all_strings (λ s, ∀ name, name ∈ findall s → is_Some (environ !! name)) j →
  unresolved environ j = ∅.
Proof.
  induction j as [| | | |items IH|members IH] using json_ind;
    try (intros _; unfold unresolved; cbn [names_in]; apply filter_unset_empty).
  - cbn [all_strings]. intros H. unfold unresolved. cbn [names_in].
    apply set_eq. intros x. set_unfold. split; [|done].
    intros [Hnone Hin]. destruct (H x Hin) as [v Hv]. congruence.
  - cbn [all_strings]. induction IH as [|item items Hitem _ IHitems].
    + intros _. apply unresolved_arr_nil.
    + cbn [foldr]. intros [H1 H2]. rewrite unresolved_arr_cons.
      by rewrite (Hitem H1), (IHitems H2), (left_id_L ∅ (∪)).
  - cbn [all_strings]. induction IH as [|[k v] members Hv _ IHmembers].
    + intros _. apply unresolved_obj_nil.
    + cbn [foldr snd] in *. intros [H1 H2]. rewrite unresolved_obj_cons.
      by rewrite (Hv H1), (IHmembers H2), (left_id_L ∅ (∪)).
Qed.

Lemma replace_each_dollar_free s :
  dollar_free s = true → replace_each environ s = s.
Proof. intros H. unfold replace_each. by rewrite (findall_dollar_free s H). Qed.

(** On a tidy configuration substitution succeeds with the one-pass
    expansion of every string. *)
Lemma substitute_tidy self_config config :
  all_strings (tidy environ) config →
  substitute_env_vars environ self_config (Some config)
  = inl (map_strings (expand environ) config).
Proof.
  intros Htidy. rewrite substitute_env_vars_spec.
  rewrite decide_True.
  - f_equal. apply map_strings_ext. revert Htidy. apply all_strings_impl.
    apply replace_each_tidy.
  - apply unresolved_empty. revert Htidy. apply all_strings_impl.
    intros s Hs name. by apply tidy_names_set.
Qed.

(** A configuration without a dollar sign is returned as it is. *)
Lemma substitute_dollar_free self_config config :
  all_strings (λ s, dollar_free s = true) config →
  substitute_env_vars environ self_config (Some config) = inl config.
Proof.
  intros Hfree. rewrite substitute_env_vars_spec.
  rewrite decide_True.
  - f_equal. apply map_strings_id. revert Hfree. apply all_strings_impl.
    apply replace_each_dollar_free.
  - apply unresolved_empty. revert Hfree. apply all_strings_impl.
    intros s Hs name. rewrite (findall_dollar_free s Hs). by intros ?%elem_of_nil.
Qed.
End substitution_facts.

Section substitution_claims.
Import ConfigHandler.

Lemma example_config_tidy : all_strings (tidy example_environ) example_config.
Proof.
  cbn [all_strings example_config foldr snd]. repeat split.
  - exists [Text "serve"]. split; [done|]. split; [done|].
    by intros name ?%elem_of_nil.
  - exists [Text "--root="; Ref "HOME"; Text "/data"]. split; [done|]. split; [done|].
    intros name ->%list_elem_of_singleton. by exists "/root".
  - exists [Ref "PORT"]. split; [done|]. split; [done|].
    intros name ->%list_elem_of_singleton. by exists "8080".
Qed.

(** X3.  [substitute_env_vars] works on the configuration passed or,
    without one, on the stored one.  It fails exactly when a token in one of the
    string values, at any depth, names a variable that is not set, and the
    [ConfigError] then carries the set of all such names; nothing is
    returned with it. *)
Theorem substitution_reports_every_unset_name
    (environ : gmap string string) (self_config arg : option json) (config : json) :
  from_option Some self_config arg = Some config →
  (unresolved environ config ≠ ∅ →
   substitute_env_vars environ self_config arg
   = inr (MissingEnvVars (unresolved environ config))) ∧
  (unresolved environ config = ∅ →
   ∃ out, substitute_env_vars environ self_config arg = inl out).
Proof.
  intros Hconfig.
  assert (substitute_env_vars environ self_config arg
          = substitute_env_vars environ self_config (Some config)) as ->.
  { unfold substitute_env_vars. destruct arg as [c|]; cbn in Hconfig.
    - by injection Hconfig as ->.
    - by rewrite Hconfig. }
  rewrite substitute_env_vars_spec. split; intros H.
  - by rewrite decide_False.
  - rewrite decide_True by done. by eexists.
Qed.

Lemma substitution_reports_every_unset_name_witness :
  substitute_env_vars ∅ (Some example_config) None
  = inr (MissingEnvVars {["HOME"; "PORT"]}).
Proof.
  assert (Hun : unresolved ∅ example_config = {["HOME"; "PORT"]}).
  { apply (bool_decide_unpack _). by vm_compute. }
  destruct (substitution_reports_every_unset_name ∅ (Some example_config) None
              example_config eq_refl) as [Hfail _].
  rewrite <- Hun. apply Hfail. rewrite Hun.
  intros H. apply (f_equal (λ X : gset string, bool_decide ("HOME" ∈ X))) in H.
  by vm_compute in H.
Defined.

(** X13.  On a configuration whose strings are made of text without a
    dollar sign and of tokens of variables whose values hold no dollar
    sign, substitution returns every string with each token replaced by the
    value of its variable. *)
Theorem substitution_expands_plain_documents
    (environ : gmap string string) (self_config : option json) (config : json) :
  all_strings (tidy environ) config →
  substitute_env_vars environ self_config (Some config)
  = inl (map_strings (expand environ) config).
Proof. apply substitute_tidy. Qed.

Lemma substitution_expands_plain_documents_witness :
  all_strings (tidy example_environ) example_config
  ∧ substitute_env_vars example_environ None (Some example_config)
    = inl (JObj [("mcpServers",
                  JObj [("files",
                         JObj [("command", JStr "serve");
                               ("args", JArr [JStr "--root=/root/data"; JStr "8080"]);
                               ("disabled", JBool false)])])]).
Proof.
  split; [exact example_config_tidy|].
  rewrite (substitution_expands_plain_documents example_environ None example_config
             example_config_tidy).
  by vm_compute.
Defined.

(** C6.  With [A] set to the token of [B] and [B] to [x], the configuration
    [{"url": "${A}${B}"}] does not come back with each token replaced by
    the value of its variable, which is [${B}x]: the loop replaces the
    tokens of one name after the other in the whole text, the text inserted
    for [${A}] is scanned again, and the result is [xx].  The result depends
    on the order of the tokens: [${B}${A}] becomes [x${B}]. *)
Lemma substitution_expands_inserted_tokens :
  substitute_env_vars nested_environ None (Some (JObj [("url", JStr "${A}${B}")]))
  = inl (JObj [("url", JStr "xx")])
  ∧ map_strings (expand nested_environ) (JObj [("url", JStr "${A}${B}")])
    = JObj [("url", JStr "${B}x")]
  ∧ substitute_env_vars nested_environ None (Some (JObj [("url", JStr "${B}${A}")]))
    = inl (JObj [("url", JStr "x${B}")])
  ∧ map_strings (expand nested_environ) (JObj [("url", JStr "${B}${A}")])
    = JObj [("url", JStr "x${B}")].
Proof.
  split; [|split; [reflexivity|split; [|reflexivity]]].
  - rewrite substitute_env_vars_spec. by vm_compute.
  - rewrite substitute_env_vars_spec. by vm_compute.
Qed.

(** A string without a token is left as it is. *)
Lemma replace_each_no_token environ s : findall s = [] → replace_each environ s = s.
Proof. intros H. unfold replace_each. by rewrite H. Qed.

(** C9 (as amended).  On an env-complete document (every token in it names
    a variable that is set) substitution succeeds; and when no string of
    its output holds a token, substitution applied to that output returns
    it unchanged.  When a string of the output holds a token of a variable
    that is not set, the second application raises instead. *)
Theorem substitution_idempotent_when_no_token_is_left
    (environ : gmap string string) (self_config : option json) (doc : json) :
  unresolved environ doc = ∅ →
  ∃ out,
    substitute_env_vars environ self_config (Some doc) = inl out ∧
    (all_strings (λ s, findall s = []) out →
     substitute_env_vars environ self_config (Some out) = inl out) ∧
    (unresolved environ out ≠ ∅ →
     substitute_env_vars environ self_config (Some out)
     = inr (MissingEnvVars (unresolved environ out))).
Proof.
  intros Hcomplete. exists (map_strings (replace_each environ) doc).
  split; [by rewrite substitute_env_vars_spec, decide_True|]. split.
  - intros Hnone. rewrite substitute_env_vars_spec, decide_True.
    + f_equal. apply map_strings_id. revert Hnone. apply all_strings_impl.
      apply replace_each_no_token.
    + apply unresolved_empty. revert Hnone. apply all_strings_impl.
      intros s -> name. by intros ?%elem_of_nil.
  - intros Hleft. by rewrite substitute_env_vars_spec, decide_False.
Qed.

(** A document with dollar signs outside tokens and a variable whose value
    holds dollar signs. *)
Lemma substitution_idempotent_when_no_token_is_left_witness :
  unresolved dollar_environ dollar_config = ∅ ∧
  substitute_env_vars dollar_environ None (Some dollar_config)
  = inl (JObj [("command", JStr "echo $PATH /root");
               ("password", JStr "pa$$w0rd");
               ("pattern", JStr "^x$")]) ∧
  substitute_env_vars dollar_environ None
    (Some (JObj [("command", JStr "echo $PATH /root");
                 ("password", JStr "pa$$w0rd");
                 ("pattern", JStr "^x$")]))
  = inl (JObj [("command", JStr "echo $PATH /root");
               ("password", JStr "pa$$w0rd");
               ("pattern", JStr "^x$")]).
Proof.
  assert (Hcomplete : unresolved dollar_environ dollar_config = ∅).
  { apply (bool_decide_unpack _). by vm_compute. }
  destruct (substitution_idempotent_when_no_token_is_left dollar_environ None
              dollar_config Hcomplete) as (out & Hout & Hsame & _).
  assert (out = JObj [("command", JStr "echo $PATH /root");
                      ("password", JStr "pa$$w0rd");
                      ("pattern", JStr "^x$")]) as ->.
  { rewrite substitute_env_vars_spec in Hout. vm_compute in Hout. by injection Hout as <-. }
  split; [exact Hcomplete|]. split; [exact Hout|].
  apply Hsame. cbn [all_strings foldr snd]. repeat split; reflexivity.
Defined.

(** C9, counterexample.  Every token of the document refers to a variable
    that is set, and the second application changes the output of the
    first. *)
Lemma substitution_twice_differs :
  unresolved nested_environ (JObj [("url", JStr "${A}")]) = ∅
  ∧ substitute_env_vars nested_environ None (Some (JObj [("url", JStr "${A}")]))
    = inl (JObj [("url", JStr "${B}")])
  ∧ substitute_env_vars nested_environ None (Some (JObj [("url", JStr "${B}")]))
    = inl (JObj [("url", JStr "x")]).
Proof.
  split; [|split].
  - apply (bool_decide_unpack _). by vm_compute.
  - rewrite substitute_env_vars_spec. by vm_compute.
  - rewrite substitute_env_vars_spec. by vm_compute.
Qed.
End substitution_claims.
(** ** config_handler.py: the objects a substitution is given *)

Section heap_facts.
Import ConfigHeap.

Lemma alloc_subseteq o h : h ⊆ (alloc o h).2.
Proof.
  unfold alloc. cbn [snd]. apply insert_subseteq.
  apply not_elem_of_dom. apply is_fresh.
Qed.

Lemma alloc_fresh o h : h !! (alloc o h).1 = None.
Proof. unfold alloc. cbn [fst]. apply not_elem_of_dom. apply is_fresh. Qed.

(** [json.loads] only adds objects. *)
Lemma load_subseteq j h : h ⊆ (load j h).2.
Proof.
  revert h. induction j as [| | | |items IH|members IH] using json_ind;
    intros h; try done.
  - cbn [load].
    assert (∀ h, h ⊆ ((fix each (l : list json) (h : heap) : list value * heap :=
                         match l with
                         | [] => ([], h)
                         | item :: l' =>
                             let '(v, h1) := load item h in
                             let '(vs, h2) := each l' h1 in
                             (v :: vs, h2)
                         end) items h).2) as Heach.
    { induction IH as [|item items Hitem _ IHitems]; intros h0; [done|].
      specialize (Hitem h0). destruct (load item h0) as [v h1].
      specialize (IHitems h1).
      destruct ((fix each (l : list json) (h : heap) : list value * heap :=
                   match l with
                   | [] => ([], h)
                   | item :: l' =>
                       let '(v, h1) := load item h in
                       let '(vs, h2) := each l' h1 in
                       (v :: vs, h2)
                   end) items h1) as [vs h2].
      cbn [snd] in *. by etrans. }
    specialize (Heach h). destruct (_ items h) as [vs h1].
    pose proof (alloc_subseteq (OList vs) h1) as Ha.
    destruct (alloc (OList vs) h1) as [l h2]. cbn [snd] in *. by etrans.
  - cbn [load].
    assert (∀ h, h ⊆ ((fix each (l : list (string * json)) (h : heap)
                         : list (string * value) * heap :=
                         match l with
                         | [] => ([], h)
                         | (k, x) :: l' =>
                             let '(v, h1) := load x h in
                             let '(vs, h2) := each l' h1 in
                             ((k, v) :: vs, h2)
                         end) members h).2) as Heach.
    { induction IH as [|[k x] members Hx _ IHmembers]; intros h0; [done|].
      cbn [snd] in Hx. specialize (Hx h0). destruct (load x h0) as [v h1].
      specialize (IHmembers h1).
      destruct ((fix each (l : list (string * json)) (h : heap)
                   : list (string * value) * heap :=
                   match l with
                   | [] => ([], h)
                   | (k, x) :: l' =>
                       let '(v, h1) := load x h in
                       let '(vs, h2) := each l' h1 in
                       ((k, v) :: vs, h2)
                   end) members h1) as [vs h2].
      cbn [snd] in *. by etrans. }
    specialize (Heach h). destruct (_ members h) as [vs h1].
    match goal with
    | |- context [alloc ?o h1] =>
        pose proof (alloc_subseteq o h1) as Ha; destruct (alloc o h1) as [l h2]
    end.
    cbn [snd] in *. by etrans.
Qed.

Section process.
Variable environ : gmap string string.

(** [process_value] only adds objects, whether it returns or raises. *)
Lemma process_value_subseteq limit v st :
  st.1 ⊆ (process_value environ limit v st).1.1.
Proof.
  revert v st. induction limit as [|limit IH]; intros v st.
  - destruct v; cbn [process_value]; try done.
    by destruct (ConfigHandler.process_str environ s st.2).
  - destruct v as [| | |s|l]; cbn [process_value]; try done.
    + by destruct (ConfigHandler.process_str environ s st.2).
    + destruct (st.1 !! l) as [[members|items|]|]; try done.
      * assert (∀ st, st.1 ⊆
          ((fix each (ms : list (string * value)) (st : heap * gset string)
              : (heap * gset string) * outcome (list (string * value)) :=
              match ms with
              | [] => (st, Return [])
              | (k, x) :: ms' =>
                  match process_value environ limit x st with
                  | (st1, Raise e) => (st1, Raise e)
                  | (st1, Return x') =>
                      match each ms' st1 with
                      | (st2, Raise e) => (st2, Raise e)
                      | (st2, Return r) => (st2, Return ((k, x') :: r))
                      end
                  end
              end) members st).1.1) as Heach.
        { induction members as [|[k x] members IHm]; intros st0; [done|].
          pose proof (IH x st0) as Hx.
          destruct (process_value environ limit x st0) as [st1 [x'|e]]; [|done].
          specialize (IHm st1). destruct (_ members st1) as [st2 [r|e]];
            cbn [fst] in *; by etrans. }
        specialize (Heach st). destruct (_ members st) as [st1 [members'|e]]; [|done].
        pose proof (alloc_subseteq (ODict members') st1.1) as Ha.
        destruct (alloc (ODict members') st1.1) as [l' h']. cbn [fst snd] in *.
        by etrans.
      * assert (∀ st, st.1 ⊆
          ((fix each (xs : list value) (st : heap * gset string)
              : (heap * gset string) * outcome (list value) :=
              match xs with
              | [] => (st, Return [])
              | x :: xs' =>
                  match process_value environ limit x st with
                  | (st1, Raise e) => (st1, Raise e)
                  | (st1, Return x') =>
                      match each xs' st1 with
                      | (st2, Raise e) => (st2, Raise e)
                      | (st2, Return r) => (st2, Return (x' :: r))
                      end
                  end
              end) items st).1.1) as Heach.
        { induction items as [|x items IHm]; intros st0; [done|].
          pose proof (IH x st0) as Hx.
          destruct (process_value environ limit x st0) as [st1 [x'|e]]; [|done].
          specialize (IHm st1). destruct (_ items st1) as [st2 [r|e]];
            cbn [fst] in *; by etrans. }
        specialize (Heach st). destruct (_ items st) as [st1 [items'|e]]; [|done].
        pose proof (alloc_subseteq (OList items') st1.1) as Ha.
        destruct (alloc (OList items') st1.1) as [l' h']. cbn [fst snd] in *.
        by etrans.
Qed.
End process.

(** What [json.dumps] writes for a value depends on the objects present
    only: more objects change nothing. *)
Lemma dump_weaken limit markers h h' v j :
  h ⊆ h' → dump limit markers h v = Return j → dump limit markers h' v = Return j.
Proof.
  intros Hsub. revert markers v j.
  induction limit as [|limit IH]; intros markers v j.
  - by destruct v.
  - destruct v as [| | | |l]; try done. cbn [dump].
    destruct (decide (l ∈ markers)); [done|].
    destruct (h !! l) as [o|] eqn:E; [|done].
    assert (h' !! l = Some o) as -> by exact (lookup_weaken _ _ _ _ E Hsub).
    clear E. destruct o as [members|items|]; [| |done].
    + assert (∀ r,
        (fix each (ms : list (string * value)) : outcome (list (string * json)) :=
           match ms with
           | [] => Return []
           | (k, x) :: ms' =>
               match dump limit ({[l]} ∪ markers) h x with
               | Raise e => Raise e
               | Return x' =>
                   match each ms' with
                   | Raise e => Raise e
                   | Return r => Return ((k, x') :: r)
                   end
               end
           end) members = Return r →
        (fix each (ms : list (string * value)) : outcome (list (string * json)) :=
           match ms with
           | [] => Return []
           | (k, x) :: ms' =>
               match dump limit ({[l]} ∪ markers) h' x with
               | Raise e => Raise e
               | Return x' =>
                   match each ms' with
                   | Raise e => Raise e
                   | Return r => Return ((k, x') :: r)
                   end
               end
           end) members = Return r) as Heach.
      { induction members as [|[k x] members IHm]; intros r; [done|].
        destruct (dump limit ({[l]} ∪ markers) h x) as [x'|e] eqn:Ex; [|done].
        rewrite (IH _ _ _ Ex).
        destruct (_ members) as [r'|e] eqn:Er in |- *; [|done].
        by rewrite (IHm r' Er). }
      destruct (_ members) as [r|e] eqn:Er in |- *; [|done].
      by rewrite (Heach r Er).
    + assert (∀ r,
        (fix each (xs : list value) : outcome (list json) :=
           match xs with
           | [] => Return []
           | x :: xs' =>
               match dump limit ({[l]} ∪ markers) h x with
               | Raise e => Raise e
               | Return x' =>
                   match each xs' with
                   | Raise e => Raise e
                   | Return r => Return (x' :: r)
                   end
               end
           end) items = Return r →
        (fix each (xs : list value) : outcome (list json) :=
           match xs with
           | [] => Return []
           | x :: xs' =>
               match dump limit ({[l]} ∪ markers) h' x with
               | Raise e => Raise e
               | Return x' =>
                   match each xs' with
                   | Raise e => Raise e
                   | Return r => Return (x' :: r)
                   end
               end
           end) items = Return r) as Heach.
      { induction items as [|x items IHm]; intros r; [done|].
        destruct (dump limit ({[l]} ∪ markers) h x) as [x'|e] eqn:Ex; [|done].
        rewrite (IH _ _ _ Ex).
        destruct (_ items) as [r'|e] eqn:Er in |- *; [|done].
        by rewrite (IHm r' Er). }
      destruct (_ items) as [r|e] eqn:Er in |- *; [|done].
      by rewrite (Heach r Er).
Qed.

(** The heap after [substitute_env_vars] extends the heap before. *)
Lemma substitute_env_vars_subseteq environ json_limit call_limit
    self_config config h :
  h ⊆ (substitute_env_vars environ json_limit call_limit self_config config h).1.
Proof.
  unfold substitute_env_vars.
  set (c := match config with VNone => self_config | _ => config end).
  assert (h ⊆ (match dump json_limit ∅ h c with
               | Raise e => (h, Raise e)
               | Return text =>
                   let '(processed_config, h1) := load text h in
                   match process_value environ call_limit processed_config (h1, ∅) with
                   | ((h2, _), Raise e) => (h2, Raise e)
                   | ((h2, missing_vars), Return processed_config) =>
                       if decide (missing_vars = ∅)
                       then (h2, Return processed_config)
                       else (h2, Raise (ConfigErr
                                          (ConfigHandler.MissingEnvVars missing_vars)))
                   end
               end).1) as Hmain.
  { destruct (dump json_limit ∅ h c) as [text|e]; [|done].
    pose proof (load_subseteq text h) as Hl. destruct (load text h) as [p h1].
    pose proof (process_value_subseteq environ call_limit p (h1, ∅)) as Hp.
    destruct (process_value environ call_limit p (h1, ∅)) as [[h2 m] [p'|e]];
      cbn [fst snd] in *.
    - destruct (decide (m = ∅)); cbn [fst]; by etrans.
    - by etrans. }
  by destruct c.
Qed.
End heap_facts.

(** C10.  Whatever [substitute_env_vars] is given and whether it returns or
    raises ([ConfigError] for missing variables included), every object
    that existed before the call is the same after it: the dictionaries and
    lists of the configuration passed in and of the stored configuration are
    not changed, so each of them serializes to the same document as
    before. *)
Theorem substitute_env_vars_leaves_its_input
    (environ : gmap string string) (json_limit call_limit : nat)
    (self_config config : ConfigHeap.value) (h : ConfigHeap.heap) :
  let after :=
    (ConfigHeap.substitute_env_vars environ json_limit call_limit
       self_config config h).1 in
  (∀ l o, h !! l = Some o → after !! l = Some o) ∧
  (∀ limit v j,
     ConfigHeap.dump limit ∅ h v = ConfigHeap.Return j →
     ConfigHeap.dump limit ∅ after v = ConfigHeap.Return j).
Proof.
  intros after.
  pose proof (substitute_env_vars_subseteq environ json_limit call_limit
                self_config config h) as Hsub.
  split.
  - intros l o Hl. by apply (lookup_weaken _ _ _ _ Hl Hsub).
  - intros limit v j. by apply dump_weaken.
Qed.

(** A call that returns, and a call that raises [ConfigError] for the
    variable that is not set; the four objects of the configuration are
    the same after both. *)
Example demo_call_returns :
  ∃ h' l,
    ConfigHeap.substitute_env_vars
      (<["UNSET" := "now set"]> ConfigHeap.demo_environ) 10 10
      ConfigHeap.VNone (ConfigHeap.VRef 0) ConfigHeap.demo_heap
    = (h', ConfigHeap.Return (ConfigHeap.VRef l))
    ∧ ConfigHeap.demo_heap !! l = None
    ∧ ConfigHeap.dump 10 ∅ h' (ConfigHeap.VRef l)
      = ConfigHeap.Return
          (JObj [("mcpServers",
                  JObj [("a", JObj [("args", JArr [JStr "/root"; JStr "now set"])])])])
    ∧ ConfigHeap.dump 10 ∅ h' (ConfigHeap.VRef 0)
      = ConfigHeap.dump 10 ∅ ConfigHeap.demo_heap (ConfigHeap.VRef 0).
Proof. eexists _, _. split; [by vm_compute|]. by vm_compute. Qed.

Example demo_call_raises :
  ∃ h',
    ConfigHeap.substitute_env_vars ConfigHeap.demo_environ 10 10
      (ConfigHeap.VRef 0) ConfigHeap.VNone ConfigHeap.demo_heap
    = (h', ConfigHeap.Raise
             (ConfigHeap.ConfigErr (ConfigHandler.MissingEnvVars {["UNSET"]})))
    ∧ ConfigHeap.dump 10 ∅ h' (ConfigHeap.VRef 0)
      = ConfigHeap.dump 10 ∅ ConfigHeap.demo_heap (ConfigHeap.VRef 0).
Proof. eexists. split; [by vm_compute|]. by vm_compute. Qed.
(** ** process_monitor.py: how often a process is launched *)

Section launch_count.
Import ProcessMonitor.
Local Open Scope Z_scope.

Lemma launches_app name evs1 evs2 :
  launches name (evs1 ++ evs2) = (launches name evs1 + launches name evs2)%nat.
Proof.
  induction evs1 as [|ev evs1 IH]; [done|].
  destruct ev; cbn [app launches]; rewrite IH; lia.
Qed.

Lemma launches_none name evs :
  (∀ n cmd env, EvPopen n cmd env ∉ evs) → launches name evs = 0%nat.
Proof.
  induction evs as [|ev evs IH]; intros H; [done|].
  assert (launches name evs = 0%nat) as IH'.
  { apply IH. intros n cmd env Hin. apply (H n cmd env). by right. }
  destruct ev; cbn [launches]; try done.
  exfalso. eapply H. by left.
Qed.

Lemma launches_other name n evs :
  launches_only name evs → n ≠ name → launches n evs = 0%nat.
Proof.
  intros Honly Hn. induction evs as [|ev evs IH]; [done|].
  assert (launches n evs = 0%nat) as IH'.
  { apply IH. intros ??? Hin. eapply Honly. by right. }
  destruct ev as [| |n' cmd env|]; cbn [launches]; try done.
  rewrite decide_False; [done|]. intros ->. apply Hn.
  eapply Honly. by left.
Qed.

(** [_start_process] calls [Popen] at most once, and for its own name. *)
Lemma start_process_launches_count w name sc m :
  ∃ evs, trace (_start_process w name sc m).1 = (trace m ++ evs)%list ∧
         launches_only name evs ∧ (launches name evs ≤ 1)%nat.
Proof.
  unfold _start_process.
  assert (Hquiet : ∀ evs msg,
            (∀ n cmd env, EvPopen n cmd env ∉ evs) →
            ∃ evs', (trace m ++ evs ++ [EvError msg])%list = (trace m ++ evs')%list ∧
                    launches_only name evs' ∧ (launches name evs' ≤ 1)%nat).
  { intros evs msg H. exists (evs ++ [EvError msg])%list. split; [done|]. split.
    - intros n cmd env [Hin|Hin]%elem_of_app; [by apply H in Hin|].
      by apply list_elem_of_singleton in Hin.
    - rewrite launches_app, (launches_none _ _ H). cbn. lia. }
  assert (Hnil : ∀ n cmd env, EvPopen n cmd env ∉ ([] : list event))
    by (intros ????%elem_of_nil; done).
  destruct (dict_get "command" JNull sc) as [command|]; [|by apply (Hquiet [])].
  destruct (dict_get "args" (JArr []) sc) as [args|]; [|by apply (Hquiet [])].
  destruct (dict_get "env" (JObj []) sc) as [env_vars|]; [|by apply (Hquiet [])].
  destruct (negb (truthy command)); [by apply (Hquiet [])|].
  destruct env_vars as [| | | | |entries]; try by apply (Hquiet []).
  pose proof (prepare_env_no_launch (environ w) entries) as Hprep.
  destruct (prepare_env (environ w) entries) as [env warnings]. cbn [snd] in Hprep.
  destruct (build_cmd command args) as [cmd|].
  2:{ cbn [emit trace fst]. rewrite <- app_assoc. apply Hquiet.
      intros n c e. apply Hprep. }
  assert (Hone : launches_only name (warnings ++ [EvPopen name cmd env]) ∧
                 launches name (warnings ++ [EvPopen name cmd env]) = 1%nat).
  { split.
    - intros n c e [Hin|Hin]%elem_of_app; [by apply Hprep in Hin|].
      apply list_elem_of_singleton in Hin. congruence.
    - rewrite launches_app, (launches_none _ warnings) by (intros ???; apply Hprep).
      cbn [launches]. rewrite decide_True by done. lia. }
  destruct Hone as [Honly Hcount].
  destruct (if env_all_str env then popen w cmd env else Raised TypeError) as [p|].
  - exists (warnings ++ [EvPopen name cmd env])%list.
    split; [|split; [done|lia]].
    destruct (restart_counts _ !! name); cbn; by rewrite <- app_assoc.
  - eexists ((warnings ++ [EvPopen name cmd env]) ++ [EvError _])%list.
    split; [cbn; by rewrite <- !app_assoc|]. split.
    + intros n c e0 [Hin|Hin]%elem_of_app; [by eapply Honly|].
      by apply list_elem_of_singleton in Hin.
    + rewrite launches_app, Hcount. cbn. lia.
Qed.

Lemma emit_budgeted m evs :
  (∀ n cmd env, EvPopen n cmd env ∉ evs) → budgeted m → budgeted (emit m evs).
Proof.
  intros Hevs Hb n. cbn [emit restart_counts trace max_restarts].
  rewrite launches_app, (launches_none _ _ Hevs), Nat.add_0_r. apply Hb.
Qed.

Lemma sleep_budgeted seconds m : budgeted m → budgeted (sleep seconds m).1.
Proof.
  intros Hb. unfold sleep. destruct (seconds <? 0); [done|].
  apply emit_budgeted; [|done]. by intros n cmd env ?%list_elem_of_singleton.
Qed.

(** The restart branch, entered with the restart counted and not yet
    launched, keeps every name within its budget. *)
Lemma restart_budgeted w name m c :
  restart_counts m !! name = Some c →
  budgeted m → (launches name (trace m) ≤ Z.to_nat c)%nat →
  budgeted (restart w name m).1.
Proof.
  intros Hc Hb Hroom. unfold restart, sleep.
  destruct (restart_delay m <? 0); cbn [fst]; [done|].
  assert (Hb1 : budgeted (emit m [EvSleep (restart_delay m)])).
  { apply emit_budgeted; [|done]. by intros n cmd env ?%list_elem_of_singleton. }
  cbn [config emit].
  destruct (config m) as [cfg|]; cbn [fst]; [|done].
  destruct (dict_get "mcpServers" (JObj []) cfg) as [servers|];
    cbn [mbind result_bind fst]; [|done].
  destruct (dict_get name JNull servers) as [sc|]; cbn [fst]; [|done].
  destruct (truthy sc); cbn [fst].
  2:{ apply emit_budgeted; [|done]. by intros n cmd env ?%list_elem_of_singleton. }
  set (m1 := emit m [EvSleep (restart_delay m)]) in *.
  assert (Hm1 : ∀ n, launches n (trace m1) = launches n (trace m)).
  { intros n. unfold m1. cbn [trace emit]. rewrite launches_app. cbn. lia. }
  pose proof (start_process_spec w name sc m1) as (_ & _ & Hm & _ & Hne & Heq & _).
  destruct (start_process_launches_count w name sc m1) as (evs & Ht & Honly & Hle).
  cbn [restart_counts emit m1] in Heq, Hne. rewrite Hc in Heq.
  intros n. rewrite Ht, launches_app, Hm. destruct (decide (n = name)) as [->|Hn].
  - rewrite Heq. specialize (Hb1 name). cbn [restart_counts emit m1] in Hb1.
    rewrite Hc in Hb1. destruct Hb1 as [Hr1 _]. split; [done|]. rewrite Hm1. lia.
  - rewrite Hne by done. rewrite (launches_other name n evs Honly Hn).
    rewrite Nat.add_0_r. apply Hb1.
Qed.

(** The loop body keeps every name within its budget, also when it ends in
    an exception. *)
Lemma check_process_budgeted w m entry :
  budgeted m → budgeted (check_process w m entry).1.
Proof.
  intros Hb. destruct entry as [name info]. unfold check_process.
  destruct (poll w (pid info)) as [code|]; [|done].
  assert (Hb0 : budgeted (emit m [EvWarning ("Process " +:+ name +:+ " exited")])).
  { apply emit_budgeted; [|done]. by intros n cmd env ?%list_elem_of_singleton. }
  cbn [processes emit].
  destruct (assoc_item name (processes m)) as [x|]; cbn [fst]; [|done].
  cbn [restart_counts set_processes emit].
  destruct (restart_counts m !! name) as [count|] eqn:Ecount; cbn [fst]; [|done].
  pose proof (Hb name) as Hname. rewrite Ecount in Hname.
  destruct Hname as [Hrange Hlaunch].
  cbn [max_restarts set_processes emit].
  destruct (Z.ltb_spec count (max_restarts m)) as [Hlt|Hge].
  - apply (restart_budgeted w name _ (count + 1)).
    + cbn. by rewrite lookup_insert_eq.
    + intros n. specialize (Hb0 n). cbn in Hb0 |- *.
      destruct (decide (n = name)) as [->|Hn].
      * rewrite lookup_insert_eq. rewrite Ecount in Hb0. lia.
      * by rewrite lookup_insert_ne.
    + specialize (Hb0 name). cbn in Hb0 |- *. rewrite Ecount in Hb0. lia.
  - intros n. specialize (Hb0 n). cbn in Hb0 |- *.
    rewrite launches_app. cbn. rewrite Nat.add_0_r. done.
Qed.

Lemma loop_steps_budgeted m m' : rtc loop_step m m' → budgeted m → budgeted m'.
Proof.
  induction 1 as [m|m m1 m2 Hstep _ IH]; [done|]. intros Hb. apply IH.
  destruct Hstep; [by apply check_process_budgeted|by apply sleep_budgeted].
Qed.
End launch_count.

Section supervisor_start.
Import ProcessMonitor.
Local Open Scope Z_scope.

Lemma launches_pos name evs :
  (0 < launches name evs)%nat ↔ ∃ cmd env, EvPopen name cmd env ∈ evs.
Proof.
  induction evs as [|ev evs IH].
  - cbn. split; [lia|]. by intros (? & ? & ?%elem_of_nil).
  - destruct ev as [| |n cmd env|]; cbn [launches];
      try (rewrite IH; split; intros (c & e & H); exists c, e;
           [by right|by apply elem_of_cons in H as [?|?]]).
    destruct (decide (n = name)) as [->|Hn].
    + split; [|lia]. intros _. exists cmd, env. by left.
    + rewrite Nat.add_0_l, IH. split; intros (c & e & H); exists c, e; [by right|].
      apply elem_of_cons in H as [[= ? ? ?]|?]; [congruence|done].
Qed.

(** The loop of [start_processes] over servers with distinct names that
    have not been launched yet. *)
Lemma start_loop_budgeted w (l : list (string * json)) acc m :
  foldl (λ acc '(server_name, server_config),
           m1 ← acc;
           disabled ← dict_get "disabled" (JBool false) server_config;
           if truthy disabled then Ok m1
           else Ok (_start_process w server_name server_config m1).1)
        (Ok acc) l = Ok m →
  NoDup l.*1 → budgeted acc →
  (∀ n, n ∈ l.*1 → restart_counts acc !! n = None ∧ launches n (trace acc) = 0%nat) →
  budgeted m ∧ max_restarts m = max_restarts acc ∧
  ∀ n, (launches n (trace acc) < launches n (trace m))%nat
       ∨ (restart_counts acc !! n = None ∧ is_Some (restart_counts m !! n)) →
       ∃ sc, (n, sc) ∈ l ∧ disabled sc = false.
Proof.
  revert acc. induction l as [|[name sc] l IH]; intros acc.
  - intros [= <-] _ Hb _. split; [done|]. split; [done|].
    intros n [?|[-> [? ?]]]; [lia|done].
  - cbn [foldl mbind result_bind]. rewrite fmap_cons.
    intros H [Hnotin Hnd]%NoDup_cons Hb Hfresh.
    destruct (dict_get "disabled" (JBool false) sc) as [d|] eqn:Ed;
      cbn [mbind result_bind] in H.
    2:{ exfalso. clear -H. induction l as [|[n s] l IHl]; [done|]. by apply IHl. }
    destruct (truthy d) eqn:Etruthy.
    + destruct (IH acc H Hnd Hb) as (Hbm & Hmax & Hwho).
      { intros n Hn. apply Hfresh. by right. }
      split; [done|]. split; [done|]. intros n Hn.
      destruct (Hwho n Hn) as (sc' & Hin & Hdis). exists sc'. split; [by right|done].
    + set (acc' := (_start_process w name sc acc).1) in *.
      pose proof (start_process_spec w name sc acc) as (_ & _ & Hm & _ & Hne & Heq & _).
      destruct (start_process_launches_count w name sc acc)
        as (evs & Ht & Honly & Hle).
      fold acc' in Hm, Hne, Heq, Ht.
      destruct (Hfresh name) as [Hrc0 Hl0]; [by left|]. rewrite Hrc0 in Heq.
      assert (Hb' : budgeted acc').
      { intros n. rewrite Ht, launches_app, Hm.
        destruct (decide (n = name)) as [->|Hn].
        - rewrite Heq, Hl0. destruct (_start_process w name sc acc).2; [|lia].
          split; [lia|]. cbn. lia.
        - rewrite (Hne n Hn), (launches_other name n evs Honly Hn), Nat.add_0_r.
          apply Hb. }
      destruct (IH acc' H Hnd Hb') as (Hbm & Hmaxm & Hwho).
      { intros n Hn. assert (n ≠ name) as Hne' by (intros ->; done).
        rewrite (Hne n Hne'), Ht, launches_app, (launches_other name n evs Honly Hne').
        rewrite Nat.add_0_r. apply Hfresh. by right. }
      split; [done|]. split; [congruence|]. intros n Hn.
      destruct (decide (n = name)) as [->|Hne'].
      * exists sc. split; [by left|]. unfold disabled. by rewrite Ed.
      * destruct (Hwho n) as (sc' & Hin & Hdis).
        { rewrite (Hne n Hne'), Ht, launches_app,
            (launches_other name n evs Honly Hne'), Nat.add_0_r. done. }
        exists sc'. split; [by right|done].
Qed.

Lemma new_monitor_budgeted cfg ci mr rd : budgeted (new_monitor cfg ci mr rd).
Proof. intros n. cbn. rewrite lookup_empty. lia. Qed.

(** [start_processes] on a new monitor: what it may have launched. *)
Lemma start_processes_budgeted w cfg ci mr rd m :
  NoDup (configured_servers cfg).*1 →
  start_processes w (new_monitor cfg ci mr rd) = Ok m →
  budgeted m ∧ max_restarts m = mr ∧
  ∀ n, (0 < launches n (trace m))%nat ∨ is_Some (restart_counts m !! n) →
       ∃ sc, (n, sc) ∈ configured_servers cfg ∧ disabled sc = false.
Proof.
  intros Hnd. unfold start_processes. cbn [new_monitor config].
  assert (Hquiet : ∀ msg,
            budgeted (emit (new_monitor cfg ci mr rd) [EvError msg]) ∧
            max_restarts (emit (new_monitor cfg ci mr rd) [EvError msg]) = mr ∧
            ∀ n, (0 < launches n (trace (emit (new_monitor cfg ci mr rd) [EvError msg])))%nat
                 ∨ is_Some (restart_counts (emit (new_monitor cfg ci mr rd) [EvError msg]) !! n) →
                 ∃ sc, (n, sc) ∈ configured_servers cfg ∧ disabled sc = false).
  { intros msg. split; [|split; [done|]].
    - apply emit_budgeted; [|apply new_monitor_budgeted].
      intros n cmd env. by intros ?%list_elem_of_singleton.
    - intros n. cbn. rewrite lookup_empty. intros [?|[? ?]]; [lia|done]. }
  destruct cfg as [cfg|]; [|intros [= <-]; apply Hquiet].
  destruct (negb (truthy cfg)); [intros [= <-]; apply Hquiet|].
  destruct (py_in "mcpServers" cfg) as [present|]; cbn [mbind result_bind]; [|done].
  destruct (negb present); [intros [= <-]; apply Hquiet|].
  destruct cfg as [| | | | |members]; cbn [dict_get mbind result_bind]; try done.
  cbn [configured_servers] in Hnd |- *.
  destruct (assoc_get "mcpServers" members) as [[| | | | |servers]|];
    cbn [from_option id]; try done.
  all: intros H; apply start_loop_budgeted in H as (Hb & Hmax & Hwho);
    try done; try apply new_monitor_budgeted; try apply NoDup_nil_2;
    try (intros n _; cbn; by rewrite lookup_empty).
  all: split; [done|]; split; [done|]; intros n Hn; apply Hwho; cbn;
    rewrite lookup_empty; destruct Hn as [Hn|Hn]; [left; cbn; lia|by right].
Qed.
End supervisor_start.

Section supervisor_extras.
Import ProcessMonitor.
Local Open Scope Z_scope.

(** X1.  From a new monitor whose configured servers have distinct names,
    through [start_processes] and then any number of passes of the monitor
    loop, whatever the processes and [Popen] do and whether or not an
    exception ends the loop: [Popen] is called for each name at most
    [max_restarts + 1] times (once when [max_restarts] is negative). *)
Theorem launches_bounded_by_restart_budget
    (w : world) (ws : list world) (cfg : option json) (ci mr rd : Z) (m1 : monitor) :
  NoDup (configured_servers cfg).*1 →
  start_processes w (new_monitor cfg ci mr rd) = Ok m1 →
  ∀ name, (launches name (trace (monitor_processes ws m1).1) ≤ Z.to_nat mr + 1)%nat.
Proof.
  intros Hnd Hstart name.
  destruct (start_processes_budgeted w cfg ci mr rd m1 Hnd Hstart) as (Hb1 & Hmax1 & _).
  pose proof (monitor_processes_steps ws m1) as Hrun.
  pose proof (loop_steps_budgeted _ _ Hrun Hb1 name) as Hb2.
  apply loop_steps_advance in Hrun as (_ & _ & Hmax2 & _).
  rewrite Hmax2, Hmax1 in Hb2.
  destruct (restart_counts (monitor_processes ws m1).1 !! name) as [c|]; lia.
Qed.

Lemma launches_bounded_by_restart_budget_witness :
  NoDup (configured_servers (Some pair_config)).*1 ∧
  start_processes (pair_world 10 20 []) (new_monitor (Some pair_config) 10 1 0)
    = Ok pair_started ∧
  launches "flaky" (trace (monitor_processes pair_later pair_given_up).1) = 2%nat ∧
  ∀ name,
    (launches name
       (trace (monitor_processes
                 ([pair_world 11 20 [10%nat]; pair_world 12 20 [11%nat]] ++ pair_later)
                 pair_started).1)
     ≤ Z.to_nat 1 + 1)%nat.
Proof.
  assert (H1 : NoDup (configured_servers (Some pair_config)).*1)
    by (by apply (bool_decide_unpack _)).
  assert (H2 : start_processes (pair_world 10 20 []) (new_monitor (Some pair_config) 10 1 0)
               = Ok pair_started) by (vm_compute; reflexivity).
  split; [exact H1|]. split; [exact H2|]. split; [by vm_compute|].
  exact (launches_bounded_by_restart_budget (pair_world 10 20 [])
           ([pair_world 11 20 [10%nat]; pair_world 12 20 [11%nat]] ++ pair_later)
           (Some pair_config) 10 1 0 pair_started H1 H2).
Defined.

(** X2.  Every call of [Popen], by [start_processes] or by a later pass of
    the monitor loop, is for a server that the configuration lists under
    ["mcpServers"] and does not mark disabled: a disabled server is never
    launched, and neither is a name the configuration does not hold. *)
Theorem only_enabled_servers_are_launched
    (w : world) (ws : list world) (cfg : option json) (ci mr rd : Z) (m1 : monitor) :
  NoDup (configured_servers cfg).*1 →
  start_processes w (new_monitor cfg ci mr rd) = Ok m1 →
  ∀ name cmd env,
    EvPopen name cmd env ∈ trace (monitor_processes ws m1).1 →
    ∃ server_config,
      (name, server_config) ∈ configured_servers cfg ∧
      disabled server_config = false.
Proof.
  intros Hnd Hstart name cmd env Hin.
  destruct (start_processes_budgeted w cfg ci mr rd m1 Hnd Hstart) as (_ & _ & Hwho).
  pose proof (monitor_processes_advances ws m1) as (_ & _ & _ & _ & _ & evs & Ht & Hl).
  rewrite Ht in Hin. apply elem_of_app in Hin as [Hin|Hin].
  - apply Hwho. left. apply launches_pos. by exists cmd, env.
  - apply Hl in Hin as (c & Hc & _). apply Hwho. right. by exists c.
Qed.

Lemma only_enabled_servers_are_launched_witness :
  disabled (JObj [("command", JStr "old"); ("disabled", JBool true)]) = true ∧
  ∀ name cmd env,
    EvPopen name cmd env
    ∈ trace (monitor_processes [demo_world 31 [30%nat]; demo_world 32 [31%nat]]
               legacy_started).1 →
    ∃ server_config,
      (name, server_config) ∈ configured_servers (Some legacy_config) ∧
      disabled server_config = false.
Proof.
  assert (H1 : NoDup (configured_servers (Some legacy_config)).*1)
    by (by apply (bool_decide_unpack _)).
  assert (H2 : start_processes (demo_world 30 []) (new_monitor (Some legacy_config) 10 3 0)
               = Ok legacy_started) by (vm_compute; reflexivity).
  split; [reflexivity|].
  exact (only_enabled_servers_are_launched (demo_world 30 [])
           [demo_world 31 [30%nat]; demo_world 32 [31%nat]]
           (Some legacy_config) 10 3 0 legacy_started H1 H2).
Defined.
End supervisor_extras.
(** ** config_handler.py: merging configurations *)

Section assoc_facts.
Context {A : Type}.
Implicit Types (d : list (string * A)) (k : string).

Lemma assoc_get_elem k (v : A) d :
  NoDup d.*1 → (k, v) ∈ d → assoc_get k d = Some v.
Proof.
  induction d as [|[k' x] d IH]; [by intros _ ?%elem_of_nil|].
  rewrite fmap_cons. intros [Hnotin Hnd]%NoDup_cons [[= -> ->]|Hin]%elem_of_cons;
    cbn [assoc_get].
  - by rewrite decide_True.
  - rewrite decide_False; [by apply IH|]. intros ->. apply Hnotin.
    apply list_elem_of_fmap. by exists (k, v).
Qed.

Lemma assoc_get_None k d : assoc_get k d = None ↔ k ∉ d.*1.
Proof.
  rewrite <- assoc_get_Some_iff. split.
  - intros -> [? ?]. done.
  - intros H. destruct (assoc_get k d); [|done]. destruct H. by eexists.
Qed.

(** Assigning the value a key already has changes nothing. *)
Lemma assoc_set_same k (v : A) d : assoc_get k d = Some v → assoc_set k v d = d.
Proof.
  induction d as [|[k' x] d IH]; [done|]. cbn [assoc_get assoc_set].
  destruct (decide (k' = k)) as [->|Hne]; [by intros [= ->]|].
  intros H. by rewrite (IH H).
Qed.

(** An assignment keeps the order of the keys; a new key goes last. *)
Lemma assoc_set_keys k (v : A) d :
  (assoc_set k v d).*1 = if decide (k ∈ d.*1) then d.*1 else (d.*1 ++ [k])%list.
Proof.
  induction d as [|[k' x] d IH]; cbn [assoc_set].
  - rewrite decide_False; [done|]. by intros ?%elem_of_nil.
  - rewrite !fmap_cons. cbn [fst]. destruct (decide (k' = k)) as [->|Hne].
    + rewrite decide_True by by left. done.
    + rewrite fmap_cons, IH. cbn [fst].
      destruct (decide (k ∈ d.*1)) as [Hin|Hout].
      * rewrite decide_True by by right. done.
      * rewrite decide_False; [done|]. by intros [?|?]%elem_of_cons.
Qed.
End assoc_facts.

Lemma filter_agree {A} (P Q : A → Prop) `{!∀ x, Decision (P x), !∀ x, Decision (Q x)}
    (l : list A) :
  (∀ x, x ∈ l → P x ↔ Q x) → filter P l = filter Q l.
Proof.
  induction l as [|a l IH]; intros Hag; [done|].
  assert (filter P l = filter Q l) as E by (apply IH; intros x Hx; apply Hag; by right).
  destruct (decide (P a)) as [Ha|Ha].
  - rewrite !filter_cons_True; [by rewrite E|by apply Hag; [left|]|done].
  - rewrite !filter_cons_False; [done| |done]. intros HQ. apply Ha, Hag; [by left|done].
Qed.

Lemma fold_left_fixed {A B} (f : A → B → A) (l : list B) (a : A) :
  (∀ x, x ∈ l → f a x = a) → fold_left f l a = a.
Proof.
  induction l as [|x l IH]; intros H; [done|]. cbn [fold_left].
  rewrite (H x) by by left. apply IH. intros y Hy. apply H. by right.
Qed.

Section merge_facts.
Import ConfigHandler.

Lemma merge_into_fold result entries :
  merge_into result (JObj entries) = fold_left merge_step entries result.
Proof.
  cbn [merge_into]. revert result.
  induction entries as [|[k v] rest IH]; intros result; [done|].
  cbn [fold_left]. rewrite <- IH. done.
Qed.

Lemma merge_step_lookup result key value k :
  assoc_get k (merge_step result (key, value))
  = if decide (key = k)
    then merged_value (assoc_get key result) (Some value)
    else assoc_get k result.
Proof.
  unfold merge_step, merged_value. cbn [fst snd].
  destruct (assoc_get key result) as [[| | | | |b]|]; try apply assoc_get_set.
  destruct value; apply assoc_get_set.
Qed.

(** What the merged dictionary holds under a key. *)
Lemma merge_into_lookup base entries k :
  NoDup entries.*1 →
  assoc_get k (merge_into base (JObj entries))
  = merged_value (assoc_get k base) (assoc_get k entries).
Proof.
  rewrite merge_into_fold. revert base.
  induction entries as [|[key value] rest IH]; intros base; [done|].
  rewrite fmap_cons. intros [Hnotin Hnd]%NoDup_cons. cbn [fold_left].
  rewrite (IH _ Hnd), merge_step_lookup. cbn [assoc_get].
  destruct (decide (key = k)) as [->|Hne]; [|done].
  by rewrite (proj2 (assoc_get_None k rest) Hnotin).
Qed.

Lemma merge_step_keys result key value :
  (merge_step result (key, value)).*1
  = if decide (key ∈ result.*1) then result.*1 else (result.*1 ++ [key])%list.
Proof.
  unfold merge_step. cbn [fst snd].
  destruct (assoc_get key result) as [[| | | | |b]|]; try apply assoc_set_keys.
  destruct value; apply assoc_set_keys.
Qed.

(** The keys of the merged dictionary: those of [base] in their order,
    then the new ones in the order of [override]. *)
Lemma merge_into_keys base entries :
  NoDup entries.*1 →
  (merge_into base (JObj entries)).*1
  = (base.*1 ++ filter (λ k, k ∉ base.*1) entries.*1)%list.
Proof.
  rewrite merge_into_fold. revert base.
  induction entries as [|[key value] rest IH]; intros base.
  - intros _. cbn. by rewrite app_nil_r.
  - rewrite fmap_cons. intros [Hnotin Hnd]%NoDup_cons. cbn [fold_left fst].
    rewrite (IH _ Hnd), merge_step_keys.
    destruct (decide (key ∈ base.*1)) as [Hin|Hout].
    + by rewrite filter_cons_False by (intros H; by apply H).
    + rewrite filter_cons_True by done. rewrite <- app_assoc. cbn [app]. do 2 f_equal.
      apply filter_agree. intros k Hk.
      rewrite elem_of_app, list_elem_of_singleton. split; [tauto|].
      intros H [?| ->]; [done|]. by apply Hnotin.
Qed.

(** Merging the same [override] a second time changes nothing, and a
    dictionary merged into itself stays as it is. *)
Lemma merge_into_again override :
  distinct_keys override →
  (∀ base, merge_into (merge_into base override) override = merge_into base override) ∧
  (∀ members, override = JObj members → merge_into members override = members).
Proof.
  induction override as [| | | | |entries IH] using json_ind; try done.
  cbn [distinct_keys]. intros [Hnd Hdeep].
  assert (Hentry : ∀ k v, (k, v) ∈ entries →
            (∀ base, merge_into (merge_into base v) v = merge_into base v) ∧
            (∀ members, v = JObj members → merge_into members v = members)).
  { clear Hnd. induction IH as [|[k0 v0] entries Hv0 _ IHentries];
      [by intros ?? ?%elem_of_nil|].
    cbn [foldr snd] in Hdeep, Hv0. destruct Hdeep as [Hd0 Hdeep].
    intros k v [[= -> ->]|Hin]%elem_of_cons; [by apply Hv0|by eapply IHentries]. }
  split.
  - intros base. rewrite (merge_into_fold (merge_into base (JObj entries))).
    apply fold_left_fixed. intros [k v] Hin.
    pose proof (merge_into_lookup base entries k Hnd) as Hk.
    rewrite (assoc_get_elem k v entries Hnd Hin) in Hk.
    destruct (Hentry k v Hin) as [Hagain Hself].
    unfold merge_step. cbn [fst snd]. rewrite Hk. unfold merged_value.
    destruct (assoc_get k base) as [[| | | | |bm]|];
      try (destruct v as [| | | | |vm];
           try (apply assoc_set_same; by rewrite Hk);
           rewrite (Hself vm eq_refl); apply assoc_set_same; by rewrite Hk).
    destruct v as [| | | | |vm]; try (apply assoc_set_same; by rewrite Hk).
    rewrite Hagain. apply assoc_set_same. by rewrite Hk.
  - intros members [= <-]. rewrite merge_into_fold.
    apply fold_left_fixed. intros [k v] Hin.
    pose proof (assoc_get_elem k v entries Hnd Hin) as Hk.
    destruct (Hentry k v Hin) as [_ Hself].
    unfold merge_step. cbn [fst snd]. rewrite Hk.
    destruct v as [| | | | |vm]; try by apply assoc_set_same.
    rewrite (Hself vm eq_refl). by apply assoc_set_same.
Qed.
End merge_facts.

Section merge_extras.
Import ConfigHandler.

(** X4.  [_deep_merge] of two dictionaries returns a dictionary that holds,
    under each key: what [base] holds if [override] lacks the key; the
    merge of the two values if both hold dictionaries there; the value of
    [override] in every other case. *)
Theorem deep_merge_value_per_key (base override : list (string * json)) (key : string)
    (Hkeys : NoDup override.*1) :
  ∃ merged,
    _deep_merge (JObj base) (JObj override) = Ok (JObj merged) ∧
    (assoc_get key override = None → assoc_get key merged = assoc_get key base) ∧
    (∀ b o, assoc_get key base = Some (JObj b) →
            assoc_get key override = Some (JObj o) →
            ∃ inner, _deep_merge (JObj b) (JObj o) = Ok inner ∧
                     assoc_get key merged = Some inner) ∧
    (∀ value, assoc_get key override = Some value →
              (∀ b o, ¬ (assoc_get key base = Some (JObj b) ∧ value = JObj o)) →
              assoc_get key merged = Some value).
Proof.
  eexists. split; [done|].
  pose proof (merge_into_lookup base override key Hkeys) as Hk.
  split; [|split].
  - intros Hnone. by rewrite Hk, Hnone.
  - intros b o Hb Ho. eexists. split; [done|]. by rewrite Hk, Hb, Ho.
  - intros value Hv Hnot. rewrite Hk, Hv. unfold merged_value.
    destruct (assoc_get key base) as [[| | | | |b]|]; try done.
    destruct value as [| | | | |o]; try done. by destruct (Hnot b o).
Qed.

Lemma deep_merge_value_per_key_witness :
  ∃ merged,
    _deep_merge (JObj [("a", JObj [("x", JNum 1)]); ("b", JNum 2)])
                (JObj [("a", JObj [("y", JNum 3)]); ("c", JNum 4)]) = Ok (JObj merged) ∧
    assoc_get "a" merged = Some (JObj [("x", JNum 1); ("y", JNum 3)]).
Proof.
  destruct (deep_merge_value_per_key
              [("a", JObj [("x", JNum 1)]); ("b", JNum 2)]
              [("a", JObj [("y", JNum 3)]); ("c", JNum 4)] "a")
    as (merged & Hm & _ & Hboth & _).
  { by apply (bool_decide_unpack _). }
  exists merged. split; [done|].
  destruct (Hboth [("x", JNum 1)] [("y", JNum 3)] eq_refl eq_refl) as (inner & Hi & ->).
  by injection Hi as <-.
Defined.

(** X5.  The dictionary [_deep_merge] returns has the keys of [base] in
    their order, followed by the keys only [override] has, in the order of
    [override]: no key of [base] is dropped or moved. *)
Theorem deep_merge_key_order (base override : list (string * json))
    (Hkeys : NoDup override.*1) :
  ∃ merged,
    _deep_merge (JObj base) (JObj override) = Ok (JObj merged) ∧
    merged.*1 = (base.*1 ++ filter (λ k, k ∉ base.*1) override.*1)%list.
Proof.
  eexists. split; [done|]. by apply merge_into_keys.
Qed.

Lemma deep_merge_key_order_witness :
  ∃ merged,
    _deep_merge (JObj [("b", JNum 2); ("a", JNum 1)])
                (JObj [("c", JNum 4); ("a", JNum 3)]) = Ok (JObj merged) ∧
    merged.*1 = ["b"; "a"; "c"].
Proof.
  destruct (deep_merge_key_order [("b", JNum 2); ("a", JNum 1)]
                                 [("c", JNum 4); ("a", JNum 3)])
    as (merged & Hm & Hk).
  { by apply (bool_decide_unpack _). }
  by exists merged.
Defined.

(** X6.  Merging the same [override] into the result of a merge changes
    nothing: [_deep_merge(_deep_merge(base, override), override)] is
    [_deep_merge(base, override)]. *)
Theorem deep_merge_twice (base override merged : json)
    (Hkeys : distinct_keys override)
    (Hmerge : _deep_merge base override = Ok merged) :
  _deep_merge merged override = Ok merged.
Proof.
  destruct base as [| | | |items|members]; try done.
  - destruct override as [| | | | |[|]]; try done. by injection Hmerge as <-.
  - destruct override as [| | | | |entries]; try done.
    change (Ok (JObj (merge_into members (JObj entries))) = Ok merged) in Hmerge.
    assert (merged = JObj (merge_into members (JObj entries))) as -> by congruence.
    destruct (merge_into_again (JObj entries) Hkeys) as [Hagain _].
    unfold _deep_merge. by rewrite Hagain.
Qed.

Lemma deep_merge_twice_witness :
  _deep_merge (JObj [("a", JObj [("x", JNum 1); ("y", JNum 3)]); ("b", JNum 2); ("c", JNum 4)])
              (JObj [("a", JObj [("y", JNum 3)]); ("c", JNum 4)])
  = Ok (JObj [("a", JObj [("x", JNum 1); ("y", JNum 3)]); ("b", JNum 2); ("c", JNum 4)]).
Proof.
  apply (deep_merge_twice (JObj [("a", JObj [("x", JNum 1)]); ("b", JNum 2)])).
  - cbn [distinct_keys foldr snd]. repeat split; by apply (bool_decide_unpack _).
  - reflexivity.
Defined.
End merge_extras.
(** ** health_check.py: what a sweep records *)

Section sweep_facts.
Import HealthCheckServer.
Variable py_repr : json → string.

Lemma check_each_entries urlopen proxy_host proxy_port entries results overall :
  check_each py_repr urlopen proxy_host proxy_port entries = Ok (results, overall) →
  NoDup entries.*1 →
  results.*1 = entries.*1 ∧
  ∀ name sc, (name, sc) ∈ entries →
    ∃ d, dict_get "disabled" (JBool false) sc = Ok d ∧
         assoc_get name results
         = Some (if truthy d
                 then {| status := "disabled"; healthy := true;
                         message := "Server is disabled" |}
                 else (probe_server py_repr urlopen proxy_host proxy_port name).1).
Proof.
  unfold check_each.
  assert (Hgen : ∀ l acc_r acc_ok,
    foldl (λ acc '(server_name, server_config),
             '(results, overall_healthy) ← acc;
             disabled ← dict_get "disabled" (JBool false) server_config;
             if truthy disabled then
               Ok (assoc_set server_name
                     {| status := "disabled"; healthy := true;
                        message := "Server is disabled" |} results,
                   overall_healthy)
             else
               let '(entry, ok) := probe_server py_repr urlopen proxy_host proxy_port server_name in
               Ok (assoc_set server_name entry results, overall_healthy && ok))
          (Ok (acc_r, acc_ok)) l = Ok (results, overall) →
    NoDup l.*1 → (∀ k, k ∈ l.*1 → k ∉ acc_r.*1) →
    results.*1 = (acc_r.*1 ++ l.*1)%list ∧
    (∀ k, k ∉ l.*1 → assoc_get k results = assoc_get k acc_r) ∧
    ∀ name sc, (name, sc) ∈ l →
      ∃ d, dict_get "disabled" (JBool false) sc = Ok d ∧
           assoc_get name results
           = Some (if truthy d
                   then {| status := "disabled"; healthy := true;
                           message := "Server is disabled" |}
                   else (probe_server py_repr urlopen proxy_host proxy_port name).1)).
  { induction l as [|[name sc] l IH]; intros acc_r acc_ok.
    - intros [= <- <-] _ _. rewrite app_nil_r. split; [done|]. split; [done|].
      by intros ?? ?%elem_of_nil.
    - rewrite fmap_cons. cbn [foldl mbind result_bind fst].
      intros Hfold [Hnotin Hnd]%NoDup_cons Hfresh.
      destruct (dict_get "disabled" (JBool false) sc) as [d|] eqn:Ed;
        cbn [mbind result_bind] in Hfold.
      2:{ exfalso. clear -Hfold. induction l as [|[n s] l IHl]; [done|]. by apply IHl. }
      assert (Hstep : ∀ entry acc_ok',
        foldl (λ acc '(server_name, server_config),
                 '(results, overall_healthy) ← acc;
                 disabled ← dict_get "disabled" (JBool false) server_config;
                 if truthy disabled then
                   Ok (assoc_set server_name
                         {| status := "disabled"; healthy := true;
                            message := "Server is disabled" |} results,
                       overall_healthy)
                 else
                   let '(entry, ok) := probe_server py_repr urlopen proxy_host proxy_port server_name in
                   Ok (assoc_set server_name entry results, overall_healthy && ok))
              (Ok (assoc_set name entry acc_r, acc_ok')) l = Ok (results, overall) →
        results.*1 = (acc_r.*1 ++ name :: l.*1)%list ∧
        (∀ k, k ∉ name :: l.*1 → assoc_get k results = assoc_get k acc_r) ∧
        assoc_get name results = Some entry ∧
        ∀ n s, (n, s) ∈ l →
          ∃ d, dict_get "disabled" (JBool false) s = Ok d ∧
               assoc_get n results
               = Some (if truthy d
                       then {| status := "disabled"; healthy := true;
                               message := "Server is disabled" |}
                       else (probe_server py_repr urlopen proxy_host proxy_port n).1)).
      { intros entry acc_ok' H.
        assert (Hkeys : (assoc_set name entry acc_r).*1 = (acc_r.*1 ++ [name])%list).
        { rewrite assoc_set_keys, decide_False; [done|]. apply Hfresh. by left. }
        destruct (IH _ _ H Hnd) as (Hk & Hold & Hnew).
        { intros k Hk. rewrite Hkeys, elem_of_app, list_elem_of_singleton.
          intros [Hin| ->]; [|done]. revert Hin. apply Hfresh. by right. }
        split; [by rewrite Hk, Hkeys, <- app_assoc|]. split; [|split; [|done]].
        - intros k Hk'. rewrite Hold, assoc_get_set.
          + rewrite decide_False; [done|]. intros ->. apply Hk'. by left.
          + intros ?. apply Hk'. by right.
        - rewrite (Hold _ Hnotin), assoc_get_set. by rewrite decide_True. }
      assert (Hfinish : ∀ entry,
        entry = (if truthy d
                 then {| status := "disabled"; healthy := true;
                         message := "Server is disabled" |}
                 else (probe_server py_repr urlopen proxy_host proxy_port name).1) →
        results.*1 = (acc_r.*1 ++ name :: l.*1)%list ∧
        (∀ k, k ∉ name :: l.*1 → assoc_get k results = assoc_get k acc_r) ∧
        assoc_get name results = Some entry ∧
        (∀ n s, (n, s) ∈ l →
          ∃ d, dict_get "disabled" (JBool false) s = Ok d ∧
               assoc_get n results
               = Some (if truthy d
                       then {| status := "disabled"; healthy := true;
                               message := "Server is disabled" |}
                       else (probe_server py_repr urlopen proxy_host proxy_port n).1)) →
        results.*1 = (acc_r.*1 ++ name :: l.*1)%list ∧
        (∀ k, k ∉ name :: l.*1 → assoc_get k results = assoc_get k acc_r) ∧
        ∀ n s, (n, s) ∈ (name, sc) :: l →
          ∃ d, dict_get "disabled" (JBool false) s = Ok d ∧
               assoc_get n results
               = Some (if truthy d
                       then {| status := "disabled"; healthy := true;
                               message := "Server is disabled" |}
                       else (probe_server py_repr urlopen proxy_host proxy_port n).1)).
      { intros entry -> (Hk & Hold & Hname & Hrest). split; [done|]. split; [done|].
        intros n s [[= -> ->]|Hin]%elem_of_cons; [by exists d|by apply Hrest]. }
      destruct (truthy d) eqn:Et.
      + by eapply Hfinish, Hstep.
      + destruct (probe_server py_repr urlopen proxy_host proxy_port name) as [entry ok] eqn:Ep.
        cbn [mbind result_bind] in Hfold. by eapply Hfinish, Hstep. }
  intros H Hnd. destruct (Hgen _ _ _ H Hnd) as (Hk & _ & Hall).
  - by intros ? _ ?%elem_of_nil.
  - done.
Qed.

Lemma check_each_agree urlopen1 urlopen2 proxy_host proxy_port entries :
  (∀ name sc d, (name, sc) ∈ entries →
                dict_get "disabled" (JBool false) sc = Ok d → truthy d = false →
                urlopen1 (probe_url py_repr proxy_host proxy_port name)
                = urlopen2 (probe_url py_repr proxy_host proxy_port name)) →
  check_each py_repr urlopen1 proxy_host proxy_port entries
  = check_each py_repr urlopen2 proxy_host proxy_port entries.
Proof.
  unfold check_each. generalize (Ok ([], true) : result (list (string * server_status) * bool)).
  induction entries as [|[name sc] l IH]; intros acc Hagree; [done|].
  cbn [foldl]. rewrite IH by (intros n s d Hin; apply Hagree; by right). f_equal.
  destruct acc as [[rs ok]|]; cbn [mbind result_bind]; [|done].
  destruct (dict_get "disabled" (JBool false) sc) as [d|] eqn:Ed; cbn [mbind result_bind]; [|done].
  destruct (truthy d) eqn:Et; [done|]. unfold probe_server.
  by rewrite (Hagree name sc d (list_elem_of_here _ _) Ed Et).
Qed.
End sweep_facts.

Section sweep_extras.
Import HealthCheckServer.

(** X7.  A sweep over a configuration with an ["mcpServers"] dictionary
    records exactly one entry per configured server, in the order of the
    configuration, and stamps the time: a disabled server is recorded as
    ["disabled"] and healthy, any other server gets the outcome of its own
    probe. *)
Theorem sweep_records_every_configured_server
    (py_repr : json → string) (urlopen : string → probe) (now : Z) (h h' : server)
    (results : list (string * server_status)) (members entries : list (string * json))
    (Hconfig : config h = Some (JObj members))
    (Hservers : assoc_get "mcpServers" members = Some (JObj entries))
    (Hdistinct : NoDup entries.*1)
    (Hsweep : check_mcp_servers py_repr urlopen now h = Ok (h', results)) :
  mcp_servers_status h' = results ∧ last_check_time h' = now ∧
  results.*1 = entries.*1 ∧
  ∃ proxy_host proxy_port,
    ∀ name sc, (name, sc) ∈ entries →
      ∃ d, dict_get "disabled" (JBool false) sc = Ok d ∧
           assoc_get name results
           = Some (if truthy d
                   then {| status := "disabled"; healthy := true;
                           message := "Server is disabled" |}
                   else (probe_server py_repr urlopen proxy_host proxy_port name).1).
Proof.
  unfold check_mcp_servers in Hsweep. rewrite Hconfig in Hsweep.
  assert (truthy (JObj members) = true) as Ht by (by destruct members).
  rewrite Ht in Hsweep. cbn [negb py_in mbind result_bind] in Hsweep.
  rewrite Hservers in Hsweep.
  rewrite bool_decide_eq_true_2 in Hsweep by by eexists.
  cbn [negb dict_get from_option id mbind result_bind] in Hsweep.
  rewrite Hservers in Hsweep. cbn [from_option id] in Hsweep.
  destruct (from_option id (JObj []) (assoc_get "proxy" members))
    as [| | | | |proxy]; cbn [dict_get mbind result_bind] in Hsweep; try done.
  destruct (check_each py_repr urlopen _ _ entries) as [[rs ok]|] eqn:Eeach;
    cbn [mbind result_bind] in Hsweep; [|done].
  injection Hsweep as <- <-. cbn [mcp_servers_status last_check_time set_health].
  destruct (check_each_entries _ _ _ _ _ _ _ Eeach Hdistinct) as [Hk Hall].
  split; [done|]. split; [done|]. split; [done|]. eauto.
Qed.

Lemma sweep_records_every_configured_server_witness :
  ∃ h' results,
    check_mcp_servers no_repr files_only 100 mixed_server = Ok (h', results) ∧
    results.*1 = ["files"; "legacy"] ∧ last_check_time h' = 100%Z.
Proof.
  destruct (check_mcp_servers no_repr files_only 100 mixed_server)
    as [[h' results]|] eqn:E; [|by vm_compute in E].
  exists h', results. split; [done|].
  destruct (sweep_records_every_configured_server no_repr files_only 100
              mixed_server h' results
              [("mcpServers",
                JObj [("files", JObj [("command", JStr "serve")]);
                      ("legacy", JObj [("command", JStr "old"); ("disabled", JBool true)])])]
              [("files", JObj [("command", JStr "serve")]);
               ("legacy", JObj [("command", JStr "old"); ("disabled", JBool true)])])
    as (_ & Hnow & Hk & _); [reflexivity|reflexivity|by apply (bool_decide_unpack _)|done|].
  by split.
Defined.

(** X8.  A sweep sends no request for a disabled server: two networks that
    answer alike for every enabled server give the same sweep, whatever
    they do with the addresses of the disabled ones. *)
Theorem sweep_probes_enabled_servers_only
    (py_repr : json → string) (urlopen1 urlopen2 : string → probe) (now : Z) (h : server)
    (Hagree : ∀ members entries proxy name sc d,
       config h = Some (JObj members) →
       assoc_get "mcpServers" members = Some (JObj entries) →
       from_option id (JObj []) (assoc_get "proxy" members) = JObj proxy →
       (name, sc) ∈ entries →
       dict_get "disabled" (JBool false) sc = Ok d → truthy d = false →
       let url := probe_url py_repr
                    (from_option id (JStr "0.0.0.0") (assoc_get "host" proxy))
                    (from_option id (JNum 8000) (assoc_get "port" proxy)) name in
       urlopen1 url = urlopen2 url) :
  check_mcp_servers py_repr urlopen1 now h = check_mcp_servers py_repr urlopen2 now h.
Proof.
  unfold check_mcp_servers. destruct (config h) as [cfg|] eqn:Ecfg; [|done].
  destruct (truthy cfg); cbn [negb]; [|done].
  destruct (py_in "mcpServers" cfg) as [[|]|]; cbn [negb mbind result_bind]; try done.
  destruct cfg as [| | | | |members]; cbn [dict_get mbind result_bind]; try done.
  destruct (from_option id (JObj []) (assoc_get "mcpServers" members))
    as [| | | | |entries] eqn:Eentries;
    destruct (from_option id (JObj []) (assoc_get "proxy" members))
      as [| | | | |proxy] eqn:Eproxy; cbn [dict_get mbind result_bind]; try done.
  destruct (assoc_get "mcpServers" members) as [x|] eqn:Eget.
  - cbn [from_option id] in Eentries. subst x.
    rewrite (check_each_agree py_repr urlopen1 urlopen2); [done|].
    intros name sc d Hin Hd Ht. by eapply (Hagree members entries proxy).
  - cbn [from_option id] in Eentries. injection Eentries as <-. done.
Qed.

Lemma sweep_probes_enabled_servers_only_witness :
  all_respond_200 "http://0.0.0.0:8000/health?server=legacy"
  ≠ files_only "http://0.0.0.0:8000/health?server=legacy" ∧
  check_mcp_servers no_repr all_respond_200 100 mixed_server
  = check_mcp_servers no_repr files_only 100 mixed_server.
Proof.
  split; [done|]. apply sweep_probes_enabled_servers_only.
  intros members entries proxy name sc d [= <-] [= <-] [= <-] Hin Hd Ht.
  apply elem_of_cons in Hin as [[= -> ->]|Hin]; [reflexivity|].
  apply list_elem_of_singleton in Hin as [= -> ->].
  injection Hd as <-. done.
Defined.

End sweep_extras.
(** ** mcp_proxy.py: what [start_servers] registers *)

Section registry.
Import MCPServerManager.
Variable py_repr : json → string.
Variable environ : gmap string string.
Variable popen :
  list string → gmap string string → result (nat * (string → list string)).

(** The dispatch of [_start_server] on the value of ["type"]. *)
Lemma start_server_cases now name server_config st :
  _start_server py_repr environ popen now name server_config st
  = match dict_get "type" (JStr "command") server_config with
    | Raised e => (st, Raised e)
    | Ok (JStr s) =>
        if decide (s = "command")
        then _start_command_server py_repr environ popen now name server_config st
        else if decide (s = "sse")
        then _start_sse_server now name server_config st
        else if decide (s = "streamable_http")
        then _start_http_server now name server_config st
        else (st.1.1, st.1.2,
              (st.2 ++ [EvError ("Unknown server type for server " +:+ name)])%list,
              Ok ())
    | Ok _ =>
        (st.1.1, st.1.2,
         (st.2 ++ [EvError ("Unknown server type for server " +:+ name)])%list,
         Ok ())
    end.
Proof.
  unfold _start_server.
  destruct (dict_get "type" (JStr "command") server_config) as [ty|]; [|done].
  generalize (_start_command_server py_repr environ popen now name server_config st).
  generalize (_start_sse_server now name server_config st).
  generalize (_start_http_server now name server_config st).
  destruct st as [[m os] tr]. cbn [fst snd].
  generalize (m, os, (tr ++ [EvError ("Unknown server type for server " +:+ name)])%list, Ok ()).
  intros unknown http sse command.
  destruct ty as [| | |s| |]; try done.
  destruct (decide (s = "command")) as [->|Hc]; [done|].
  destruct (decide (s = "sse")) as [->|Hs]; [done|].
  destruct (decide (s = "streamable_http")) as [->|Hh]; [done|].
  repeat (match goal with
          | |- context [match ?x with EmptyString => _ | String _ _ => _ end] => destruct x
          | |- context [match ?x with Ascii _ _ _ _ _ _ _ _ => _ end] => destruct x
          | |- context [if ?b then _ else _] => destruct b
          end; try done).
Qed.
End registry.
(** ** mcp_proxy.py: the registry after [start_servers] *)

Section registry_facts.
Import MCPServerManager.
Variable py_repr : json → string.
Variable environ : gmap string string.
Variable popen :
  list string → gmap string string → result (nat * (string → list string)).

Lemma proxy_prepare_env_no_launch env_vars n cmd env :
  EvPopen n cmd env ∉ (prepare_env py_repr environ env_vars).2.
Proof.
  unfold prepare_env.
  assert (H : ∀ l (acc : gmap string string * list event),
             EvPopen n cmd env ∉ acc.2 →
             EvPopen n cmd env ∉ (fold_left (env_step py_repr environ) l acc).2).
  { induction l as [|[k v] l IH]; intros acc Hacc; simpl; [done|].
    apply IH. rewrite proxy_env_step_eq. simpl. rewrite elem_of_app.
    intros [?|Hin]; [done|]. destruct v; try by apply elem_of_nil in Hin.
    destruct (startswith "${" s && endswith "}" s); [|by apply elem_of_nil in Hin].
    destruct (environ !! slice_2_m1 s); [by apply elem_of_nil in Hin|].
    by apply list_elem_of_singleton in Hin. }
  apply H. simpl. apply not_elem_of_nil.
Qed.

(** What a call of [_start_server] can have done: it has written to the
    log, launching at most the named server, and it has either left the
    manager and the children alone or registered the server. *)
Lemma start_server_shape now name server_config m os tr :
  let r := _start_server py_repr environ popen now name server_config (m, os, tr) in
  ∃ evs,
    r.1.2 = (tr ++ evs)%list ∧
    (∀ n cmd env, EvPopen n cmd env ∈ evs → n = name) ∧
    (r.1.1 = (m, os) ∨
     ∃ info,
       r.2 = Ok () ∧ sconfig info = server_config ∧
       servers r.1.1.1 = assoc_set name info (servers m) ∧
       config r.1.1.1 = config m ∧
       ((type info = "command" ∧
         ∃ p, proc info = Some p ∧
              processes r.1.1.1 = assoc_set name p (processes m))
        ∨ (proc info = None ∧ (type info = "sse" ∨ type info = "streamable_http") ∧
           processes r.1.1.1 = processes m))).
Proof.
  cbv zeta. rewrite start_server_cases. cbn [fst snd].
  assert (Hsame : ∀ e : result (), ∃ evs,
    (m, os, tr, e).1.2 = (tr ++ evs)%list ∧
    (∀ n cmd env, EvPopen n cmd env ∈ evs → n = name) ∧
    ((m, os, tr, e).1.1 = (m, os) ∨
     ∃ info,
       (m, os, tr, e).2 = Ok () ∧ sconfig info = server_config ∧
       servers (m, os, tr, e).1.1.1 = assoc_set name info (servers m) ∧
       config (m, os, tr, e).1.1.1 = config m ∧
       ((type info = "command" ∧
         ∃ p, proc info = Some p ∧
              processes (m, os, tr, e).1.1.1 = assoc_set name p (processes m))
        ∨ (proc info = None ∧ (type info = "sse" ∨ type info = "streamable_http") ∧
           processes (m, os, tr, e).1.1.1 = processes m)))).
  { intros e. exists []. rewrite app_nil_r. split; [done|].
    split; [by intros ??? ?%elem_of_nil|by left]. }
  assert (Hlog : ∀ msg (e : result ()), ∃ evs,
    (m, os, (tr ++ [EvError msg])%list, e).1.2 = (tr ++ evs)%list ∧
    (∀ n cmd env, EvPopen n cmd env ∈ evs → n = name) ∧
    ((m, os, (tr ++ [EvError msg])%list, e).1.1 = (m, os) ∨
     ∃ info,
       (m, os, (tr ++ [EvError msg])%list, e).2 = Ok () ∧ sconfig info = server_config ∧
       servers (m, os, (tr ++ [EvError msg])%list, e).1.1.1 = assoc_set name info (servers m) ∧
       config (m, os, (tr ++ [EvError msg])%list, e).1.1.1 = config m ∧
       ((type info = "command" ∧
         ∃ p, proc info = Some p ∧
              processes (m, os, (tr ++ [EvError msg])%list, e).1.1.1
              = assoc_set name p (processes m))
        ∨ (proc info = None ∧ (type info = "sse" ∨ type info = "streamable_http") ∧
           processes (m, os, (tr ++ [EvError msg])%list, e).1.1.1 = processes m)))).
  { intros msg e. exists [EvError msg]. split; [done|].
    split; [by intros ??? ?%list_elem_of_singleton|by left]. }
  assert (Hremote : ∀ tag, tag = "sse" ∨ tag = "streamable_http" →
    let r := register_remote tag now name server_config (m, os, tr) in
    ∃ evs,
      r.1.2 = (tr ++ evs)%list ∧
      (∀ n cmd env, EvPopen n cmd env ∈ evs → n = name) ∧
      (r.1.1 = (m, os) ∨
       ∃ info,
         r.2 = Ok () ∧ sconfig info = server_config ∧
         servers r.1.1.1 = assoc_set name info (servers m) ∧
         config r.1.1.1 = config m ∧
         ((type info = "command" ∧
           ∃ p, proc info = Some p ∧
                processes r.1.1.1 = assoc_set name p (processes m))
          ∨ (proc info = None ∧ (type info = "sse" ∨ type info = "streamable_http") ∧
             processes r.1.1.1 = processes m)))).
  { intros tag Htag. cbv zeta. unfold register_remote.
    destruct (dict_get "url" JNull server_config) as [u|];
      destruct (dict_get "headers" (JObj []) server_config) as [hs|]; try apply Hsame.
    destruct (negb (truthy u)); [apply Hsame|].
    exists []. rewrite app_nil_r. split; [done|]. split; [by intros ??? ?%elem_of_nil|].
    right.
    exists {| type := tag; sconfig := server_config; proc := None;
              url := u; headers := hs; start_time := now |}.
    split; [done|]. split; [done|]. split; [done|]. split; [done|].
    right. done. }
  destruct (dict_get "type" (JStr "command") server_config) as [ty|]; [|apply Hsame].
  destruct ty as [| | |s| |]; try apply Hlog.
  destruct (decide (s = "command")) as [->|Hc].
  { unfold _start_command_server.
    destruct (dict_get "command" JNull server_config) as [command|];
      destruct (dict_get "args" (JArr []) server_config) as [args|];
      destruct (dict_get "env" (JObj []) server_config) as [env_vars|];
      try apply Hsame.
    destruct (negb (truthy command)); [apply Hsame|].
    destruct env_vars as [| | | | |entries]; try apply Hsame.
    pose proof (proxy_prepare_env_no_launch entries) as Hquiet.
    destruct (prepare_env py_repr environ entries) as [env warnings].
    cbn [snd] in Hquiet.
    destruct (build_cmd command args) as [cmd|].
    2:{ exists warnings. split; [done|]. split; [|by left].
        intros n c ev Hin. by destruct (Hquiet n c ev). }
    destruct (popen cmd env) as [[p program]|].
    2:{ exists (warnings ++ [EvPopen name cmd env])%list. split; [by rewrite app_assoc|].
        split; [|by left]. intros n c ev [Hin|Hin%list_elem_of_singleton]%elem_of_app.
        - by destruct (Hquiet n c ev).
        - by injection Hin as -> _ _. }
    exists (warnings ++ [EvPopen name cmd env])%list. split; [by rewrite app_assoc|].
    split.
    { intros n c ev [Hin|Hin%list_elem_of_singleton]%elem_of_app.
      - by destruct (Hquiet n c ev).
      - by injection Hin as -> _ _. }
    right.
    exists {| type := "command"; sconfig := server_config; proc := Some p;
              url := JNull; headers := JNull; start_time := now |}.
    split; [done|]. split; [done|]. split; [done|]. split; [done|].
    left. split; [done|]. by exists p. }
  destruct (decide (s = "sse")) as [->|Hs]; [apply (Hremote "sse"); by left|].
  destruct (decide (s = "streamable_http")) as [->|Hh];
    [apply (Hremote "streamable_http"); by right|].
  apply Hlog.
Qed.

(** [_start_server] keeps the registry well typed. *)
Lemma start_server_well_typed now name server_config m os tr :
  well_typed m →
  well_typed (_start_server py_repr environ popen now name server_config (m, os, tr)).1.1.1.
Proof.
  intros Hwt.
  destruct (start_server_shape now name server_config m os tr)
    as (evs & _ & _ & [Hsame|(info & _ & _ & Hservers & _ & Htype)]).
  { by rewrite Hsame. }
  intros key info'. rewrite Hservers, assoc_get_set.
  destruct (decide (name = key)) as [->|Hne].
  - intros [= <-]. destruct Htype as [(Hc & p & Hp & Hps)|(Hn & Ht & _)].
    + left. split; [done|]. exists p. split; [done|].
      rewrite Hps, assoc_get_set. by rewrite decide_True.
    + by right.
  - intros Hget. destruct (Hwt key info' Hget) as [(Hc & p & Hp & Hps)|Hr]; [|by right].
    left. split; [done|]. exists p. split; [done|].
    destruct Htype as [(_ & p' & _ & ->)|(_ & _ & ->)]; [|done].
    rewrite assoc_get_set. by rewrite decide_False.
Qed.

(** What [start_servers] leaves in a new manager: the configuration, a well
    typed registry that holds enabled servers of the configuration only,
    each with its own entry of ["mcpServers"], and a log in which only such
    servers are launched. *)
Lemma start_servers_registry now cfg os0 tr0 m os tr :
  start_servers py_repr environ popen now (new_manager cfg, os0, tr0) = Ok (m, os, tr) →
  ∃ entries,
    dict_get "mcpServers" (JObj []) cfg = Ok (JObj entries) ∧
    config m = cfg ∧ well_typed m ∧
    (∀ key info, assoc_get key (servers m) = Some info →
       ∃ d, (key, sconfig info) ∈ entries ∧
            dict_get "disabled" (JBool false) (sconfig info) = Ok d ∧
            truthy d = false) ∧
    (∀ n cmd env, EvPopen n cmd env ∈ tr →
       EvPopen n cmd env ∈ tr0 ∨
       ∃ sc d, (n, sc) ∈ entries ∧
               dict_get "disabled" (JBool false) sc = Ok d ∧ truthy d = false).
Proof.
  unfold start_servers. cbn [fst snd config new_manager].
  destruct (dict_get "mcpServers" (JObj []) cfg) as [servers|];
    cbn [mbind result_bind]; [|done].
  destruct servers as [| | | | |entries]; try done.
  intros Hfold. exists entries. split; [done|].
  assert (Hgen : ∀ l st0,
    foldl (λ acc '(server_name, server_config),
             st ← acc;
             disabled ← dict_get "disabled" (JBool false) server_config;
             if truthy disabled then Ok st
             else
               match _start_server py_repr environ popen now server_name server_config st with
               | (st', Ok _) => Ok st'
               | ((m, os, tr), Raised _) =>
                   Ok (m, os, (tr ++ [EvError ("Failed to start server " +:+ server_name)])%list)
               end)
          (Ok st0) l = Ok (m, os, tr) →
    (∀ x, x ∈ l → x ∈ entries) →
    config st0.1.1 = cfg → well_typed st0.1.1 →
    (∀ key info, assoc_get key (servers st0.1.1) = Some info →
       ∃ d, (key, sconfig info) ∈ entries ∧
            dict_get "disabled" (JBool false) (sconfig info) = Ok d ∧
            truthy d = false) →
    (∀ n cmd env, EvPopen n cmd env ∈ st0.2 →
       EvPopen n cmd env ∈ tr0 ∨
       ∃ sc d, (n, sc) ∈ entries ∧
               dict_get "disabled" (JBool false) sc = Ok d ∧ truthy d = false) →
    config m = cfg ∧ well_typed m ∧
    (∀ key info, assoc_get key (servers m) = Some info →
       ∃ d, (key, sconfig info) ∈ entries ∧
            dict_get "disabled" (JBool false) (sconfig info) = Ok d ∧
            truthy d = false) ∧
    (∀ n cmd env, EvPopen n cmd env ∈ tr →
       EvPopen n cmd env ∈ tr0 ∨
       ∃ sc d, (n, sc) ∈ entries ∧
               dict_get "disabled" (JBool false) sc = Ok d ∧ truthy d = false)).
  { clear Hfold. induction l as [|[name sc] l IH]; intros [[m0 os1] tr1].
    - intros [= -> -> ->] _ Hc Hwt Hreg Hlog. done.
    - cbn [foldl mbind result_bind fst snd]. intros Hfold Hsub Hc Hwt Hreg Hlog.
      destruct (dict_get "disabled" (JBool false) sc) as [d|] eqn:Ed;
        cbn [mbind result_bind] in Hfold.
      2:{ exfalso. clear -Hfold. induction l as [|[n s] l IHl]; [done|]. by apply IHl. }
      assert (Hsub' : ∀ x, x ∈ l → x ∈ entries) by (intros x Hx; apply Hsub; by right).
      assert (Hhere : (name, sc) ∈ entries) by (apply Hsub; by left).
      destruct (truthy d) eqn:Et; [by apply (IH _ Hfold)|].
      pose proof (start_server_shape now name sc m0 os1 tr1) as (evs & Htr & Hevs & Hshape).
      pose proof (start_server_well_typed now name sc m0 os1 tr1 Hwt) as Hwt'.
      cbv zeta in Htr, Hshape.
      destruct (_start_server py_repr environ popen now name sc (m0, os1, tr1))
        as [[[m1 os2] tr2] r]. cbn [fst snd] in Htr, Hshape, Hwt'. subst tr2.
      assert (Hc1 : config m1 = cfg).
      { destruct Hshape as [[= -> _]|(info & _ & _ & _ & -> & _)]; done. }
      assert (Hreg1 : ∀ key info, assoc_get key (servers m1) = Some info →
                ∃ d, (key, sconfig info) ∈ entries ∧
                     dict_get "disabled" (JBool false) (sconfig info) = Ok d ∧
                     truthy d = false).
      { destruct Hshape as [[= -> _]|(info & _ & Hcfg & Hservers & _ & _)]; [done|].
        intros key info'. rewrite Hservers, assoc_get_set.
        destruct (decide (name = key)) as [->|Hne]; [|by apply Hreg].
        intros [= <-]. exists d. by rewrite Hcfg. }
      assert (Hlog1 : ∀ msgs n cmd env,
                (∀ msg, msg ∈ msgs → ∃ text, msg = EvError text) →
                EvPopen n cmd env ∈ ((tr1 ++ evs) ++ msgs)%list →
                EvPopen n cmd env ∈ tr0 ∨
                ∃ sc d, (n, sc) ∈ entries ∧
                        dict_get "disabled" (JBool false) sc = Ok d ∧ truthy d = false).
      { intros msgs n cmd env Hmsgs [[Hin|Hin]%elem_of_app|Hin]%elem_of_app.
        - by apply Hlog.
        - right. apply Hevs in Hin as ->. by exists sc, d.
        - by destruct (Hmsgs _ Hin). }
      destruct r as [[]|e].
      + apply (IH _ Hfold); try done. cbn [snd]. intros n cmd env Hin.
        apply (Hlog1 [] n cmd env); [by intros ? ?%elem_of_nil|by rewrite app_nil_r].
      + apply (IH _ Hfold); try done. cbn [snd]. intros n cmd env Hin.
        apply (Hlog1 [EvError ("Failed to start server " +:+ name)] n cmd env); [|done].
        intros msg ->%list_elem_of_singleton. by eexists. }
  apply (Hgen entries (new_manager cfg, os0, tr0) Hfold); cbn [fst snd].
  - done.
  - done.
  - intros name info Hget. done.
  - intros key info Hget. done.
  - intros n cmd env Hin. by left.
Qed.
End registry_facts.

(** ** mcp_proxy.py: [GET /status] *)

Section status_after_start.
Import MCPServerManager MCPProxyHandler.
Variable py_repr : json → string.
Variable environ : gmap string string.
Variable popen :
  list string → gmap string string → result (nat * (string → list string)).
Variable json_loads : string → option json.
Variable urlopen : json → json → json → result string.
Variable exn_str : exn → string.


End status_after_start.

Section status_scenario.
Import MCPServerManager MCPProxyHandler Scenario.


End status_scenario.
(** ** mcp_proxy.py: requests to a started proxy *)

Section started_proxy.
Import MCPServerManager MCPProxyHandler.
Variable py_repr : json → string.
Variable environ : gmap string string.
Variable popen :
  list string → gmap string string → result (nat * (string → list string)).
Variable json_loads : string → option json.
Variable urlopen : json → json → json → result string.
Variable exn_str : exn → string.

(** X9.  [start_servers] on a new manager calls [Popen] for, and
    registers, enabled servers of the configuration only: a server marked
    disabled is neither launched nor given an endpoint, and neither is a
    name the configuration does not hold. *)
Theorem proxy_starts_enabled_servers_only
    (cfg : json) (now : Z) (os0 : children) (m : manager) (os : children)
    (tr : list event) :
  start_servers py_repr environ popen now (new_manager cfg, os0, []) = Ok (m, os, tr) →
  ∃ entries,
    dict_get "mcpServers" (JObj []) cfg = Ok (JObj entries) ∧
    (∀ server_name cmd env, EvPopen server_name cmd env ∈ tr →
       ∃ server_config disabled,
         (server_name, server_config) ∈ entries ∧
         dict_get "disabled" (JBool false) server_config = Ok disabled ∧
         truthy disabled = false) ∧
    (∀ server_name, server_name ∈ (servers m).*1 →
       ∃ server_config disabled,
         (server_name, server_config) ∈ entries ∧
         dict_get "disabled" (JBool false) server_config = Ok disabled ∧
         truthy disabled = false).
Proof.
  intros Hstart.
  destruct (start_servers_registry py_repr environ popen now cfg os0 [] m os tr Hstart)
    as (entries & Hentries & _ & _ & Hreg & Hlog).
  exists entries. split; [done|]. split.
  - intros server_name cmd env Hin.
    destruct (Hlog _ _ _ Hin) as [?%elem_of_nil|H]; done.
  - intros server_name [info Hget]%assoc_get_Some_iff.
    destruct (Hreg _ _ Hget) as (d & Hin & Hd & Ht). by exists (sconfig info), d.
Qed.

(** X10.  Once the proxy is started, no [GET] is answered with status 500:
    a request either waits for a child that stays silent, or is answered
    200 or 404.  Listing the tools of a registered upstream cannot fail:
    every registered upstream has one of the three known types, a command
    upstream holds its child, and [_list_command_tools] and its remote
    counterparts answer an empty list when the exchange fails. *)
Theorem get_is_answered_200_or_404
    (cfg : json) (now : Z) (os0 : children) (tr0 : list event) (m : manager)
    (os : children) (tr : list event)
    (path : string) (now' now_ms : Z) (os1 : children) :
  start_servers py_repr environ popen now (new_manager cfg, os0, tr0) = Ok (m, os, tr) →
  (do_GET json_loads urlopen exn_str m path now' now_ms os1).2 = Blocked ∨
  ∃ response,
    (do_GET json_loads urlopen exn_str m path now' now_ms os1).2 = Done (Ok response) ∧
    (status_code response = 200%Z ∨ status_code response = 404%Z).
Proof.
  intros Hstart.
  destruct (start_servers_registry py_repr environ popen now cfg os0 tr0 m os tr Hstart)
    as (entries & _ & _ & Hwt & _ & _).
  unfold do_GET.
  destruct (String.eqb path "/"); [right; eexists; split; [done|by left]|].
  destruct (String.eqb path "/status"); [right; eexists; split; [done|by left]|].
  destruct (server_of_path path) as [server_name|];
    [|right; eexists; split; [done|by right]].
  destruct (assoc_get server_name (servers m)) as [info|] eqn:Hget;
    [|right; eexists; split; [done|by right]].
  unfold list_tools. rewrite Hget.
  destruct (Hwt _ _ Hget) as [(Ht & p & Hp & _)|(_ & [Ht|Ht])]; rewrite Ht.
  - cbn [String.eqb Ascii.eqb Bool.eqb]. unfold _list_command_tools.
    rewrite (command_process_of _ _ _ _ Hget Hp).
    destruct (exchange json_loads list_result p (list_request server_name now_ms) os1)
      as [os2 [[tools|e]|]]; cbn [snd].
    + right. eexists. split; [done|by left].
    + right. eexists. split; [done|by left].
    + by left.
  - right. eexists. split; [done|by left].
  - right. eexists. split; [done|by left].
Qed.
End started_proxy.

Section started_proxy_scenario.
Import MCPServerManager MCPProxyHandler Scenario.

Lemma two_started_eq :
  start_servers no_repr ∅ popen_cat 0 (new_manager two_config, ∅, [])
  = Ok (two_started.1.1, two_started.1.2, two_started.2).
Proof. by vm_compute. Qed.

Lemma proxy_starts_enabled_servers_only_witness :
  (servers two_started.1.1).*1 = ["echo"] ∧
  ∀ server_name cmd env, EvPopen server_name cmd env ∈ two_started.2 →
                         server_name = "echo".
Proof.
  split; [by vm_compute|].
  destruct (proxy_starts_enabled_servers_only no_repr ∅ popen_cat two_config 0 ∅
              _ _ _ two_started_eq) as (entries & Hentries & Hlog & _).
  injection Hentries as <-.
  intros server_name cmd env Hin.
  destruct (Hlog _ _ _ Hin) as (sc & d & Hsc & Hd & Ht).
  apply elem_of_cons in Hsc as [[= -> ->]|Hsc]; [done|].
  apply list_elem_of_singleton in Hsc as [= -> ->].
  injection Hd as <-. done.
Defined.

Lemma get_is_answered_200_or_404_witness :
  (do_GET (loads_at []) no_network exn_name two_started.1.1 "/echo" 60 60000
     two_started.1.2).2
  = Done (Ok (_send_json_response (JObj [("server", JStr "echo"); ("tools", JArr [])]))).
Proof.
  destruct (get_is_answered_200_or_404 no_repr ∅ popen_cat (loads_at []) no_network
              exn_name two_config 0 ∅ [] _ _ _ "/echo" 60 60000 two_started.1.2
              two_started_eq) as [Hblocked|(response & Hresponse & _)].
  - by vm_compute in Hblocked.
  - rewrite Hresponse. vm_compute in Hresponse. by injection Hresponse as <-.
Defined.
End started_proxy_scenario.

(** ** mcp_proxy.py: which names a path can address *)

Section routing.
Import MCPServerManager MCPProxyHandler.





End routing.

(** ** mcp_proxy.py: replies that are no replies *)

Section odd_replies.
Import MCPServerManager MCPProxyHandler.
Variable py_repr : json → string.
Variable json_loads : string → option json.
Variable urlopen : json → json → json → result string.
Variable exn_str : exn → string.

End odd_replies.

Section odd_replies_scenario.
Import MCPServerManager MCPProxyHandler Scenario.

End odd_replies_scenario.
